(** * Gravity: operation bookkeeping, remote command execution, discovery
      client and the enterprise ACL operator

    A shallow embedding of
      - [lib/ops] accessors and state transitions (GetInstallOperation ...
        FailOperation),
      - [lib/rpc/server] command executor (osCommand.exec, streamWriter),
      - [lib/rpc/client] discovery calls,
      - [e/lib/ops/acl] OperatorACL,
    with the properties established about them. *)

From Stdlib Require Import ZArith List String Ascii Bool Lia.
Import ListNotations.
Local Open Scope string_scope.

(* ===================================================================== *)
(** ** State passing *)
(* ===================================================================== *)

(** A computation over a state [S] that yields an [A]. *)
Definition State (S A : Type) : Type := S -> A * S.

Definition ret {S A} (a : A) : State S A := fun s => (a, s).

Definition bind {S A C} (m : State S A) (k : A -> State S C) : State S C :=
  fun s => let (a, s') := m s in k a s'.

Declare Scope state_scope.
Delimit Scope state_scope with state.
Notation "x <- c ;; k" := (bind c (fun x => k))
  (at level 61, c at next level, right associativity) : state_scope.

(* ===================================================================== *)
(** ** Go's [strings.TrimSpace] on byte strings *)
(* ===================================================================== *)

Module strings.

(** The UTF-8 encodings of the code points for which [unicode.IsSpace]
    holds: U+0009..U+000D, U+0020, U+0085, U+00A0, U+1680,
    U+2000..U+200A, U+2028, U+2029, U+202F, U+205F, U+3000.  A Go string is
    a byte sequence; a byte sequence that is not one of these encodings
    never decodes to a white space rune. *)
Definition spaceRunes : list (list ascii) :=
  [ ["009"]; ["010"]; ["011"]; ["012"]; ["013"]; ["032"];
    ["194"; "133"]; ["194"; "160"];
    ["225"; "154"; "128"];
    ["226"; "128"; "128"]; ["226"; "128"; "129"]; ["226"; "128"; "130"];
    ["226"; "128"; "131"]; ["226"; "128"; "132"]; ["226"; "128"; "133"];
    ["226"; "128"; "134"]; ["226"; "128"; "135"]; ["226"; "128"; "136"];
    ["226"; "128"; "137"]; ["226"; "128"; "138"];
    ["226"; "128"; "168"]; ["226"; "128"; "169"]; ["226"; "128"; "175"];
    ["226"; "129"; "159"];
    ["227"; "128"; "128"] ]%char.

(** [cutPrefix p s] is [Some r] when [s = p ++ r]. *)
Fixpoint cutPrefix (p s : list ascii) : option (list ascii) :=
  match p, s with
  | [], _ => Some s
  | _ :: _, [] => None
  | a :: p', b :: s' => if Ascii.eqb a b then cutPrefix p' s' else None
  end.

Fixpoint cutAny (ps : list (list ascii)) (s : list ascii) : option (list ascii) :=
  match ps with
  | [] => None
  | p :: ps' =>
      match cutPrefix p s with
      | Some r => Some r
      | None => cutAny ps' s
      end
  end.

(** Drop leading runes while they are one of [ps]; every step consumes at
    least one byte, so [length s] steps are enough. *)
Fixpoint trimFuel (ps : list (list ascii)) (n : nat) (s : list ascii) : list ascii :=
  match n with
  | O => s
  | S n' =>
      match cutAny ps s with
      | Some r => trimFuel ps n' r
      | None => s
      end
  end.

Definition trimLeftBytes (s : list ascii) : list ascii :=
  trimFuel spaceRunes (List.length s) s.

(** Trailing runes are decoded backwards: the same scan on the reversed
    string against the reversed encodings. *)
Definition trimRightBytes (s : list ascii) : list ascii :=
  rev (trimFuel (map (@rev ascii) spaceRunes) (List.length s) (rev s)).

Definition TrimRight (s : string) : string :=
  string_of_list_ascii (trimRightBytes (list_ascii_of_string s)).

Definition TrimLeft (s : string) : string :=
  string_of_list_ascii (trimLeftBytes (list_ascii_of_string s)).

(** [strings.TrimSpace]: leading, then trailing white space removed. *)
Definition TrimSpace (s : string) : string :=
  string_of_list_ascii
    (trimRightBytes (trimLeftBytes (list_ascii_of_string s))).

End strings.

(* ===================================================================== *)
(** ** Errors: the part of [github.com/gravitational/trace] the code uses *)
(* ===================================================================== *)

Module trace.

(** gRPC status codes ([google.golang.org/grpc/codes]) of an error; a
    status with code OK is no error and does not occur. *)
Inductive Code :=
| Canceled | Unknown | InvalidArgument | DeadlineExceeded | NotFoundCode
| AlreadyExists | PermissionDenied | ResourceExhausted | FailedPrecondition
| Aborted | OutOfRange | Unimplemented | Internal | Unavailable | DataLoss
| Unauthenticated.

(** The error kinds of the trace package that occur here. *)
Inductive Kind :=
| KNotFound | KAlreadyExists | KAccessDenied | KCompareFailed
| KBadParameter | KLimitExceeded | KConnectionProblem.

(** How a process ended, as [syscall.WaitStatus] reports it. *)
Inductive WaitStatus :=
| Exited (code : Z)
| Signaled (sig : Z).

(** An error value before any trace is attached. *)
Inductive cause :=
| Plain (msg : string)                 (* errors.New and foreign errors *)
| Status (c : Code) (msg : string)     (* a gRPC status error *)
| ExitError (ws : WaitStatus)          (* exec.ExitError *)
| Typed (k : Kind) (msg : string).     (* trace.NotFoundError and the like *)

(** A Go [error]: a bare cause, or a [*trace.TraceErr] holding the original
    error with the user messages and fields added to it (stack frames are
    not modelled). *)
Inductive error :=
| Raw (c : cause)
| Traced (c : cause) (messages : list string) (fields : list (string * string)).

(** [trace.Unwrap]: the original error. *)
Definition Unwrap (e : error) : cause :=
  match e with
  | Raw c => c
  | Traced c _ _ => c
  end.

(** [trace.Wrap(err, msg...)]: an error that already carries a trace is
    kept (the message, if any, is added to it); any other error becomes the
    original error of a new trace. *)
Definition WrapMsg (e : error) (msgs : list string) : error :=
  match e with
  | Raw c => Traced c msgs []
  | Traced c ms fs => Traced c (ms ++ msgs) fs
  end.

Definition Wrap (e : error) : error := WrapMsg e [].

(** [AddField] of a [TraceErr]. *)
Definition AddField (e : error) (k v : string) : error :=
  match e with
  | Raw c => Traced c [] [(k, v)]
  | Traced c ms fs => Traced c ms (fs ++ [(k, v)])
  end.

(** [trace.NotFound(...)], [trace.BadParameter(...)], [trace.AccessDenied(...)]. *)
Definition NotFound (msg : string) : error := Traced (Typed KNotFound msg) [] [].
Definition BadParameter (msg : string) : error := Traced (Typed KBadParameter msg) [] [].
Definition AccessDenied (msg : string) : error := Traced (Typed KAccessDenied msg) [] [].

Definition kindOf (e : error) : option Kind :=
  match Unwrap e with
  | Typed k _ => Some k
  | _ => None
  end.

Definition IsNotFound (e : error) : bool :=
  match kindOf e with Some KNotFound => true | _ => false end.
Definition IsBadParameter (e : error) : bool :=
  match kindOf e with Some KBadParameter => true | _ => false end.
Definition IsAccessDenied (e : error) : bool :=
  match kindOf e with Some KAccessDenied => true | _ => false end.
Definition IsConnectionProblem (e : error) : bool :=
  match kindOf e with Some KConnectionProblem => true | _ => false end.

(** A call's outcome: Go's [(value, error)] pair, read the way every caller
    here reads it (the value only when the error is nil). *)
Inductive result (A : Type) :=
| Ok (a : A)
| Err (e : error).
Arguments Ok {A} a.
Arguments Err {A} e.

Definition errOf {A} (r : result A) : option error :=
  match r with
  | Ok _ => None
  | Err e => Some e
  end.

End trace.

(* ===================================================================== *)
(** ** Package [ops]: operations of a cluster, accessors and transitions *)
(* ===================================================================== *)

Module ops.
Import trace.

(** *** Data *)

Inductive Location := LocUTC | LocLocal.

(** A [time.Time]: an instant and the location it is presented in. *)
Record Time := mkTime { instant : Z; location : Location }.

(** [Time.UTC]: the same instant with the location set to UTC. *)
Definition UTC (t : Time) : Time := mkTime (instant t) LocUTC.

(** A [context.Context]; the functions below only hand it on. *)
Inductive Context := mkContext (id : nat).

Record SiteKey := mkSiteKey {
  sk_AccountID : string;
  sk_SiteDomain : string }.

Record SiteOperationKey := mkSiteOperationKey {
  ok_AccountID : string;
  ok_SiteDomain : string;
  ok_OperationID : string }.

Record SiteOperation := mkSiteOperation {
  op_ID : string;
  op_AccountID : string;
  op_SiteDomain : string;
  op_Type : string;
  op_Created : Time;
  op_State : string }.

(** [SiteOperation.Key]. *)
Definition opKey (o : SiteOperation) : SiteOperationKey :=
  mkSiteOperationKey (op_AccountID o) (op_SiteDomain o) (op_ID o).

Record Site := mkSite {
  site_AccountID : string;
  site_Domain : string }.

(** [Site.Key]. *)
Definition siteKeyOf (s : Site) : SiteKey :=
  mkSiteKey (site_AccountID s) (site_Domain s).

Record OperationsFilter := mkFilter {
  Types : list string;
  Last : bool;
  Active : bool;
  Complete : bool;
  Finished : bool }.

(** The zero value of the filter; a composite literal sets fields on it. *)
Definition noFilter : OperationsFilter := mkFilter [] false false false false.

Record ProgressEntry := mkProgressEntry {
  pe_SiteDomain : string;
  pe_OperationID : string;
  pe_Step : Z;
  pe_Completion : Z;
  pe_State : string;
  pe_Message : string;
  pe_Created : Time }.

Record SetOperationStateRequest := mkSetOperationStateRequest {
  req_State : string;
  req_Progress : option ProgressEntry }.

Record ActivateSiteRequest := mkActivateSiteRequest {
  act_AccountID : string;
  act_SiteDomain : string }.

(** Named constants and formatting that the functions below refer to and
    that are declared outside these sources ([lib/constants],
    [lib/defaults], the operation type and state names of [lib/ops], and the
    [%v] rendering of a cluster key and of a cluster list). *)
Record Decls := mkDecls {
  FinalStep : Z;
  Completed : Z;
  SystemAccountID : string;
  OperationInstall : string;
  OperationUninstall : string;
  OperationUpdate : string;
  OperationShrink : string;
  OperationStateCompleted : string;
  OperationStateFailed : string;
  ProgressStateCompleted : string;
  ProgressStateFailed : string;
  showSiteKey : SiteKey -> string;
  showSites : list Site -> string }.

(** *** The operator interface and the world it runs in *)

(** One invocation of a method of the operator. *)
Inductive Call :=
| CallGetSiteOperations (k : SiteKey) (f : OperationsFilter)
| CallGetSiteOperationProgress (k : SiteOperationKey)
| CallGetSiteOperation (k : SiteOperationKey)
| CallGetSites (accountID : string)
| CallSetOperationState (k : SiteOperationKey) (r : SetOperationStateRequest)
| CallActivateSite (r : ActivateSiteRequest).

(** [OperationStateSetter] (and [OperationStateFunc], its function form)
    over a backend with state [B]. *)
Definition OperationStateSetter (B : Type) : Type :=
  Context -> SiteOperationKey -> SetOperationStateRequest -> B -> option error * B.

(** The methods of [Operator] used here; an implementation is any family
    of functions over its own state [B]. *)
Record Operator (B : Type) := mkOperator {
  implGetSiteOperations : SiteKey -> OperationsFilter -> B -> result (list SiteOperation) * B;
  implGetSiteOperationProgress : SiteOperationKey -> B -> result ProgressEntry * B;
  implGetSiteOperation : SiteOperationKey -> B -> result SiteOperation * B;
  implGetSites : string -> B -> result (list Site) * B;
  implSetOperationState : OperationStateSetter B;
  implActivateSite : ActivateSiteRequest -> B -> option error * B }.
Arguments implGetSiteOperations {B} _ _ _ _.
Arguments implGetSiteOperationProgress {B} _ _ _.
Arguments implGetSiteOperation {B} _ _ _.
Arguments implGetSites {B} _ _ _.
Arguments implSetOperationState {B} _ _ _ _ _.
Arguments implActivateSite {B} _ _ _.

(** The state a call runs in: the backend, the operator methods invoked so
    far (oldest first), and how often the wall clock has been read. *)
Record World (B : Type) := mkWorld {
  backend : B;
  calls : list Call;
  clockReads : nat }.
Arguments mkWorld {B} _ _ _.
Arguments backend {B} _.
Arguments calls {B} _.
Arguments clockReads {B} _.

Definition M (B A : Type) : Type := State (World B) A.
Local Open Scope state_scope.

(** Invoking a method: run the implementation on the backend and record
    the invocation. *)
Definition invoke {B A} (c : Call) (f : B -> A * B) : M B A :=
  fun w =>
    let (a, b') := f (backend w) in
    (a, mkWorld b' (calls w ++ [c]) (clockReads w)).

(** [time.Now()]: the [n]-th reading of the wall clock. *)
Definition Now {B} (clock : nat -> Time) : M B Time :=
  fun w => (clock (clockReads w), mkWorld (backend w) (calls w) (S (clockReads w))).

Section Methods.
Context {B : Type} (operator : Operator B).

Definition GetSiteOperations (k : SiteKey) (f : OperationsFilter) : M B (result (list SiteOperation)) :=
  invoke (CallGetSiteOperations k f) (implGetSiteOperations operator k f).

Definition GetSiteOperationProgress (k : SiteOperationKey) : M B (result ProgressEntry) :=
  invoke (CallGetSiteOperationProgress k) (implGetSiteOperationProgress operator k).

Definition GetSiteOperation (k : SiteOperationKey) : M B (result SiteOperation) :=
  invoke (CallGetSiteOperation k) (implGetSiteOperation operator k).

Definition GetSites (accountID : string) : M B (result (list Site)) :=
  invoke (CallGetSites accountID) (implGetSites operator accountID).

Definition ActivateSite (r : ActivateSiteRequest) : M B (option error) :=
  invoke (CallActivateSite r) (implActivateSite operator r).

End Methods.

(** [SetOperationState] through an [OperationStateSetter]. *)
Definition SetOperationState {B} (setter : OperationStateSetter B)
    (ctx : Context) (k : SiteOperationKey) (r : SetOperationStateRequest) : M B (option error) :=
  invoke (CallSetOperationState k r) (setter ctx k r).

(** *** Accessors *)

Section Accessors.
Context {B : Type} (d : Decls) (operator : Operator B).

(** GetInstallOperation returns an install operation for the specified siteKey *)
Definition GetInstallOperation (siteKey : SiteKey)
  : M B (result (SiteOperation * ProgressEntry)) :=
  r <- GetSiteOperations operator siteKey
         (mkFilter [OperationInstall d] false false false false) ;;
  match r with
  | Err err => ret (Err (Wrap err))
  | Ok [] =>
      ret (Err (NotFound ("no install operation found for " ++ showSiteKey d siteKey)))
  | Ok (op :: _) =>
      p <- GetSiteOperationProgress operator (opKey op) ;;
      match p with
      | Err err => ret (Err (Wrap err))
      | Ok progress => ret (Ok (op, progress))
      end
  end.

(** GetLastUninstallOperation returns the last uninstall operation *)
Definition GetLastUninstallOperation (siteKey : SiteKey)
  : M B (result (SiteOperation * ProgressEntry)) :=
  r <- GetSiteOperations operator siteKey
         (mkFilter [OperationUninstall d] true false false false) ;;
  match r with
  | Err err => ret (Err (Wrap err))
  | Ok [] =>
      ret (Err (NotFound ("no uninstall operation found for " ++ showSiteKey d siteKey)))
  | Ok (op :: _) =>
      p <- GetSiteOperationProgress operator (opKey op) ;;
      match p with
      | Err err => ret (Err (Wrap err))
      | Ok progress => ret (Ok (op, progress))
      end
  end.

(** GetLastCompletedUpdateOperation returns the last completed update operation *)
Definition GetLastCompletedUpdateOperation (siteKey : SiteKey)
  : M B (result SiteOperation) :=
  r <- GetSiteOperations operator siteKey
         (mkFilter [OperationUpdate d] true false true false) ;;
  match r with
  | Err err => ret (Err (Wrap err))
  | Ok [] =>
      ret (Err (NotFound ("no completed update operation found for " ++ showSiteKey d siteKey)))
  | Ok (op :: _) => ret (Ok op)
  end.

(** GetCompletedInstallOperation returns a completed install operation *)
Definition GetCompletedInstallOperation (siteKey : SiteKey)
  : M B (result SiteOperation) :=
  r <- GetSiteOperations operator siteKey
         (mkFilter [OperationInstall d] true false true false) ;;
  match r with
  | Err err => ret (Err (Wrap err))
  | Ok [] =>
      ret (Err (NotFound ("no completed install operation found for " ++ showSiteKey d siteKey)))
  | Ok (op :: _) => ret (Ok op)
  end.

(** GetLastOperation returns the most recent operation and its progress *)
Definition GetLastOperation (siteKey : SiteKey)
  : M B (result (SiteOperation * ProgressEntry)) :=
  r <- GetSiteOperations operator siteKey
         (mkFilter [] true false false false) ;;
  match r with
  | Err err => ret (Err (Wrap err))
  | Ok [] =>
      ret (Err (NotFound ("no operation found for " ++ showSiteKey d siteKey)))
  | Ok (op :: _) =>
      p <- GetSiteOperationProgress operator (opKey op) ;;
      match p with
      | Err err => ret (Err (Wrap err))
      | Ok progress => ret (Ok (op, progress))
      end
  end.

(** GetLastFinishedOperation returns the cluster's last completed operation *)
Definition GetLastFinishedOperation (siteKey : SiteKey)
  : M B (result (SiteOperation * ProgressEntry)) :=
  r <- GetSiteOperations operator siteKey
         (mkFilter [] true false false true) ;;
  match r with
  | Err err => ret (Err (Wrap err))
  | Ok [] =>
      ret (Err (NotFound ("no completed operation found for " ++ showSiteKey d siteKey)))
  | Ok (op :: _) =>
      p <- GetSiteOperationProgress operator (opKey op) ;;
      match p with
      | Err err => ret (Err (Wrap err))
      | Ok progress => ret (Ok (op, progress))
      end
  end.

(** GetLastUpgradeOperation returns the most recent upgrade operation or NotFound. *)
Definition GetLastUpgradeOperation (siteKey : SiteKey)
  : M B (result SiteOperation) :=
  r <- GetSiteOperations operator siteKey
         (mkFilter [OperationUpdate d] true false false false) ;;
  match r with
  | Err err => ret (Err (Wrap err))
  | Ok [] =>
      ret (Err (NotFound ("no upgrade operation found for " ++ showSiteKey d siteKey)))
  | Ok (op :: _) => ret (Ok op)
  end.

(** GetLastShrinkOperation returns the last shrink operation *)
Definition GetLastShrinkOperation (siteKey : SiteKey)
  : M B (result SiteOperation) :=
  r <- GetSiteOperations operator siteKey
         (mkFilter [OperationShrink d] true false false false) ;;
  match r with
  | Err err => ret (Err (Wrap err))
  | Ok [] =>
      ret (Err (NotFound ("no shrink operation found for " ++ showSiteKey d siteKey)))
  | Ok (op :: _) => ret (Ok op)
  end.

(** GetOperationWithProgress returns the operation and its progress for the key *)
Definition GetOperationWithProgress (opKey : SiteOperationKey)
  : M B (result (SiteOperation * ProgressEntry)) :=
  r <- GetSiteOperation operator opKey ;;
  match r with
  | Err err => ret (Err (Wrap err))
  | Ok operation =>
      p <- GetSiteOperationProgress operator opKey ;;
      match p with
      | Err err => ret (Err (Wrap err))
      | Ok progress => ret (Ok (operation, progress))
      end
  end.

(** The loop [for _, op := range operations { active = append(active, op) }]. *)
Definition appendAll (operations : list SiteOperation) : list SiteOperation :=
  fold_left (fun active op => (active ++ [op])%list) operations [].

(** GetActiveOperations returns a list of currently active cluster operations *)
Definition GetActiveOperations (siteKey : SiteKey)
  : M B (result (list SiteOperation)) :=
  r <- GetSiteOperations operator siteKey
         (mkFilter [] false true false false) ;;
  match r with
  | Err err => ret (Err (Wrap err))
  | Ok [] =>
      ret (Err (NotFound ("no active operation found for " ++ showSiteKey d siteKey)))
  | Ok (o :: rest) => ret (Ok (appendAll (o :: rest)))
  end.

(** GetActiveOperationsByType returns the active operations of one type *)
Definition GetActiveOperationsByType (siteKey : SiteKey) (opType : string)
  : M B (result (list SiteOperation)) :=
  r <- GetSiteOperations operator siteKey
         (mkFilter [opType] false true false false) ;;
  match r with
  | Err err => ret (Err (Wrap err))
  | Ok [] =>
      ret (Err (NotFound ("no active operation found for " ++ showSiteKey d siteKey
                          ++ " with type " ++ opType)))
  | Ok (o :: rest) => ret (Ok (appendAll (o :: rest)))
  end.

(** GetWizardOperation returns the install operation assuming that the
    operator talks to an install wizard process *)
Definition GetWizardOperation : M B (result SiteOperation) :=
  r <- GetSites operator (SystemAccountID d) ;;
  match r with
  | Err err => ret (Err (Wrap err))
  | Ok [cluster] =>
      i <- GetInstallOperation (siteKeyOf cluster) ;;
      match i with
      | Err err => ret (Err (Wrap err))
      | Ok (op, _) => ret (Ok op)
      end
  | Ok clusters =>
      ret (Err (BadParameter ("expected 1 cluster, got: " ++ showSites d clusters)))
  end.

End Accessors.

(** *** State transitions *)

Section Transitions.
Context {B : Type} (d : Decls) (clock : nat -> Time).

(** CompleteOperation marks the specified operation as completed *)
Definition CompleteOperation (ctx : Context) (key : SiteOperationKey)
    (operator : OperationStateSetter B) : M B (option error) :=
  now <- Now clock ;;
  SetOperationState operator ctx key
    (mkSetOperationStateRequest (OperationStateCompleted d)
       (Some (mkProgressEntry (ok_SiteDomain key) (ok_OperationID key)
                (FinalStep d) (Completed d) (ProgressStateCompleted d)
                "Operation has completed" (UTC now)))).

(** The message computed by the first statement of FailOperation. *)
Definition failureMessage (message : string) : string :=
  if String.eqb message "" then "Operation failure"
  else "Operation failure: " ++ message.

(** FailOperation marks the specified operation as failed *)
Definition FailOperation (ctx : Context) (key : SiteOperationKey)
    (operator : OperationStateSetter B) (message : string) : M B (option error) :=
  let message := failureMessage message in
  now <- Now clock ;;
  SetOperationState operator ctx key
    (mkSetOperationStateRequest (OperationStateFailed d)
       (Some (mkProgressEntry (ok_SiteDomain key) (ok_OperationID key)
                (FinalStep d) (Completed d) (ProgressStateFailed d)
                (strings.TrimSpace message) (UTC now)))).

(** FailOperationAndResetCluster completes the specified operation and
    resets cluster state to active *)
Definition FailOperationAndResetCluster (ctx : Context) (key : SiteOperationKey)
    (operator : Operator B) (message : string) : M B (option error) :=
  err <- FailOperation ctx key (implSetOperationState operator) message ;;
  match err with
  | Some err => ret (Some (Wrap err))
  | None =>
      err <- ActivateSite operator
               (mkActivateSiteRequest (ok_AccountID key) (ok_SiteDomain key)) ;;
      match err with
      | Some err => ret (Some (Wrap err))
      | None => ret None
      end
  end.

End Transitions.

End ops.

(* ===================================================================== *)
(** ** Package [server]: the command executor *)
(* ===================================================================== *)

Module server.
Import trace.

(** ExitCodeUndefined specifies the value of the exit code when the real
    exit code is unknown *)
Definition ExitCodeUndefined : Z := -1.

(** Conversion to [int32], and [atomic.AddInt32]: two's complement
    wrap-around. *)
Definition int32 (z : Z) : Z := (z + 2 ^ 31) mod 2 ^ 32 - 2 ^ 31.
Definition AddInt32 (x delta : Z) : Z := int32 (x + delta).

(** [pb.ExecOutput_FD]. *)
Inductive FD := STDOUT | STDERR.

(** [pb.Message]: exactly one of the three elements.  The wire form of an
    error ([pb.EncodeError]) is kept as the error it encodes. *)
Inductive Message :=
| ExecStarted (args : list string) (seq : Z)
| ExecOutput (fd : FD) (data : string) (seq : Z)
| ExecCompleted (seq : Z) (exitCode : Z) (err : option error).

(** [pb.CommandArgs]. *)
Record CommandArgs := mkCommandArgs {
  Args : list string;
  WorkingDir : string }.

Definition newCommandStartedEvent (seq : Z) (args : list string) : Message :=
  ExecStarted args seq.

Definition newCommandCompletedEvent (seq : Z) : Message :=
  ExecCompleted seq 0 None.

Definition newCommandCompletedWithErrorEvent (seq exitCode : Z) (err : error) : Message :=
  ExecCompleted seq exitCode (Some err).

(** [pb.OutgoingMessageStream]: whether a [Send] fails may depend on the
    message and on everything handed to the stream before it. *)
Definition OutgoingMessageStream : Type := list Message -> Message -> option error.

(** The executor's surroundings: every [Send] with its result (oldest
    first) and the warnings written to the log. *)
Record World := mkWorld {
  sends : list (Message * option error);
  warnings : list (error * Message) }.

Definition attempted (w : World) : list Message := map fst (sends w).

Definition M (A : Type) : Type := State World A.
Local Open Scope state_scope.

(** [stream.Send(msg)]. *)
Definition Send (stream : OutgoingMessageStream) (msg : Message) : M (option error) :=
  fun w =>
    let r := stream (attempted w) msg in
    (r, mkWorld (sends w ++ [(msg, r)]) (warnings w)).

(** [log.WithError(err).Warnf("Failed to notify stream: %v.", msg)]. *)
Definition Warnf (err : error) (msg : Message) : M unit :=
  fun w => (tt, mkWorld (sends w) (warnings w ++ [(err, msg)])).

Definition notifyAndLogError (stream : OutgoingMessageStream) (msg : Message) : M unit :=
  err <- Send stream msg ;;
  match err with
  | Some err => Warnf err msg
  | None => ret tt
  end.

(** streamWriter implements io.Writer and forwards the data to the
    underlying stream *)
Record streamWriter := mkStreamWriter {
  sw_stream : OutgoingMessageStream;
  sw_fd : FD;
  sw_seq : Z }.

(** [streamWriter.Write]: the number of bytes written and the error. *)
Definition Write (s : streamWriter) (p : string) : M (Z * option error) :=
  err <- Send (sw_stream s) (ExecOutput (sw_fd s) p (sw_seq s)) ;;
  match err with
  | Some err => ret (0%Z, Some err)
  | None => ret (Z.of_nat (String.length p), None)
  end.

(** *** [os/exec] as the executor observes it *)

(** How a started process ends. *)
Inductive Exit :=
| Success                       (* exit status 0 *)
| Failure (ws : WaitStatus)     (* any other exit status, or a signal *)
| WaitError (e : error).        (* waiting itself failed *)

(** A started process, together with the schedule of what runs beside
    it.  [Cmd.Start] launches two copy loops, one for each descriptor, as
    goroutines of their own; from then on they run concurrently with each
    other and with the caller of [Start].  [output] is the chunks the
    process writes, in the order in which the two loops hand them to the
    writers; [early] is how many of these are handed over before the
    caller sends its next message on the stream, which can be any number of
    them; [exit] is how the process ends.  Every interleaving of the two
    loops and the caller is some [Process]. *)
Record Process := mkProcess {
  output : list (FD * string);
  early : nat;
  exit : Exit }.

(** [exec.Cmd]: the resolved path, the argument vector, the directory. *)
Record Cmd := mkCmd {
  Path : string;
  cmd_Args : list string;
  Dir : string }.

Inductive StartResult :=
| StartFailed (err : error)
| Started (p : Process).

(** The operating system: how a command name resolves to [Cmd.Path], and
    what [Cmd.Start] does. *)
Record OS := mkOS {
  lookPath : string -> string;
  start : Cmd -> StartResult }.

(** Which copy loops have stopped on a write error, and the first such
    error. *)
Record CopyState := mkCopyState {
  stdoutFailed : bool;
  stderrFailed : bool;
  copyError : option error }.

Definition copyFailed (st : CopyState) (fd : FD) : bool :=
  match fd with
  | STDOUT => stdoutFailed st
  | STDERR => stderrFailed st
  end.

Definition failCopy (st : CopyState) (fd : FD) (e : error) : CopyState :=
  let first := match copyError st with Some e0 => Some e0 | None => Some e end in
  match fd with
  | STDOUT => mkCopyState true (stderrFailed st) first
  | STDERR => mkCopyState (stdoutFailed st) true first
  end.

(** The copy loops of [os/exec] ([io.Copy] into [cmd.Stdout] and
    [cmd.Stderr]) over a stretch of the schedule: each chunk goes to the
    writer of its descriptor; a loop stops at the first error of its
    writer, and what it had still to copy is dropped. *)
Fixpoint copyOutput (wout werr : streamWriter) (chunks : list (FD * string))
    (st : CopyState) : M CopyState :=
  match chunks with
  | [] => ret st
  | (fd, data) :: rest =>
      if copyFailed st fd then copyOutput wout werr rest st
      else
        r <- Write (match fd with STDOUT => wout | STDERR => werr end) data ;;
        match snd r with
        | Some e => copyOutput wout werr rest (failCopy st fd e)
        | None => copyOutput wout werr rest st
        end
  end.

(** What the copy loops do between [Cmd.Start] and the next message of
    its caller: they hand over the first [early p] chunks. *)
Definition copyAhead (wout werr : streamWriter) (p : Process) : M CopyState :=
  copyOutput wout werr (firstn (early p) (output p)) (mkCopyState false false None).

(** [Cmd.Wait] awaits the process and the copy loops, which got as far as
    [st]: while it waits they hand over the chunks still to come.  Its
    result is the exit error of the process; when the process exited
    normally, the first error of a copy loop. *)
Definition Wait (wout werr : streamWriter) (p : Process) (st : CopyState)
  : M (option error) :=
  st <- copyOutput wout werr (skipn (early p) (output p)) st ;;
  match exit p with
  | Failure ws => ret (Some (Raw (ExitError ws)))
  | WaitError e => ret (Some e)
  | Success => ret (copyError st)
  end.

(** [WaitStatus.ExitStatus]: the exit code, or -1 when the process did not
    exit on its own. *)
Definition ExitStatus (ws : WaitStatus) : Z :=
  match ws with
  | Exited code => code
  | Signaled _ => -1
  end.

(** *** The executor *)

Record osCommand := mkOsCommand { seq : Z }.

(** What a call of [exec] does to its caller: it returns an error (or
    nil), or it panics. *)
Inductive Outcome :=
| Returned (err : option error)
| Panicked.

(** The exit code [exec] reports for the error of [Cmd.Wait]. *)
Definition exitCodeOf (err : error) : Z :=
  match err with
  | Raw (ExitError ws) => ExitStatus ws
  | _ => ExitCodeUndefined
  end.

(** exec executes the command specified with args streaming stdout/stderr
    to stream.  The result is the outcome and the receiver afterwards.
    Once the process has started, the copy loops run beside exec: what they
    send before the started event goes out is [copyAhead], the rest they
    send while exec waits. *)
Definition exec (os : OS) (c : osCommand) (stream : OutgoingMessageStream)
    (req : CommandArgs) : M (Outcome * osCommand) :=
  let seq := AddInt32 (seq c) 1 in
  let c' := mkOsCommand seq in
  match Args req with
  | [] => ret (Panicked, c')
  | name :: _ =>
      let cmd := mkCmd (lookPath os name) (Args req) (WorkingDir req) in
      let stdout := mkStreamWriter stream STDOUT seq in
      let stderr := mkStreamWriter stream STDERR seq in
      match start os cmd with
      | StartFailed err =>
          ret (Returned (Some (AddField (WrapMsg err ["failed to start"]) "path" (Path cmd))), c')
      | Started p =>
          st <- copyAhead stdout stderr p ;;
          _ <- notifyAndLogError stream (newCommandStartedEvent seq (Args req)) ;;
          err <- Wait stdout stderr p st ;;
          match err with
          | None =>
              _ <- notifyAndLogError stream (newCommandCompletedEvent seq) ;;
              ret (Returned None, c')
          | Some err =>
              let exitCode := exitCodeOf err in
              _ <- notifyAndLogError stream
                     (newCommandCompletedWithErrorEvent seq (int32 exitCode) err) ;;
              ret (Returned (Some (Wrap err)), c')
          end
      end
  end.

(** [osExec]: a fresh [osCommand] for every call. *)
Definition osExec (os : OS) (stream : OutgoingMessageStream) (req : CommandArgs) : M Outcome :=
  r <- exec os (mkOsCommand 0) stream req ;;
  match fst r with
  | Returned (Some err) => ret (Returned (Some (Wrap err)))
  | o => ret o
  end.

Definition isCompleted (m : Message) : bool :=
  match m with ExecCompleted _ _ _ => true | _ => false end.

Definition isOutput (m : Message) : bool :=
  match m with ExecOutput _ _ _ => true | _ => false end.

End server.

(* ===================================================================== *)
(** ** Package [trail]: gRPC errors into trace errors *)
(* ===================================================================== *)

Module trail.
Import trace.

(** [trail.FromGRPC]: the status code selects the kind of the resulting
    error and the status message becomes its message; a code without a
    counterpart gives a plain error with the message only.  An error that
    is no gRPC status has code Unknown and its own text ([describe]) as
    message. *)
Definition FromGRPC (describe : error -> string) (err : error) : error :=
  match err with
  | Raw (Status code message) =>
      match code with
      | NotFoundCode => Raw (Typed KNotFound message)
      | AlreadyExists => Raw (Typed KAlreadyExists message)
      | PermissionDenied => Raw (Typed KAccessDenied message)
      | FailedPrecondition => Raw (Typed KCompareFailed message)
      | InvalidArgument => Raw (Typed KBadParameter message)
      | ResourceExhausted => Raw (Typed KLimitExceeded message)
      | Unavailable => Raw (Typed KConnectionProblem message)
      | _ => Raw (Plain message)
      end
  | _ => Raw (Plain (describe err))
  end.

End trail.

(* ===================================================================== *)
(** ** Package [client]: the discovery calls *)
(* ===================================================================== *)

Module client.
Import trace.

(** [pb.SystemInfo]: the opaque payload. *)
Record SystemInfo := mkSystemInfo { Payload : string }.

(** [types.Timestamp]. *)
Record Timestamp := mkTimestamp { Seconds : Z; Nanos : Z }.

Section Discovery.
(** [storage.System], [pb.RuntimeConfig] and [pb.Version]. *)
Context {System RuntimeConfig Version : Type}.

(** [pb.DiscoveryClient]: what each remote call answers for a context. *)
Record DiscoveryClient := mkDiscoveryClient {
  rpcGetSystemInfo : ops.Context -> result SystemInfo;
  rpcGetRuntimeConfig : ops.Context -> result RuntimeConfig;
  rpcGetCurrentTime : ops.Context -> result Timestamp;
  rpcGetVersion : ops.Context -> result Version }.

Record Client := mkClient { discovery : DiscoveryClient }.

(** [storage.UnmarshalSystemInfo], [types.TimestampFromProto] and the text
    of an error, which are declared outside these sources. *)
Context (UnmarshalSystemInfo : string -> result System)
        (TimestampFromProto : Timestamp -> result ops.Time)
        (describe : error -> string).

(** GetSystemInfo queries remote system information *)
Definition GetSystemInfo (c : Client) (ctx : ops.Context) : result System :=
  match rpcGetSystemInfo (discovery c) ctx with
  | Err err => Err (Wrap err)
  | Ok resp =>
      match UnmarshalSystemInfo (Payload resp) with
      | Err err => Err (Wrap err)
      | Ok system => Ok system
      end
  end.

(** GetRuntimeConfig returns agent's runtime configuration *)
Definition GetRuntimeConfig (c : Client) (ctx : ops.Context) : result RuntimeConfig :=
  match rpcGetRuntimeConfig (discovery c) ctx with
  | Err err => Err (Wrap err)
  | Ok config => Ok config
  end.

(** GetCurrentTime returns agent's current time as UTC timestamp *)
Definition GetCurrentTime (c : Client) (ctx : ops.Context) : result ops.Time :=
  match rpcGetCurrentTime (discovery c) ctx with
  | Err err => Err (Wrap err)
  | Ok proto =>
      match TimestampFromProto proto with
      | Err err => Err (Wrap err)
      | Ok ts => Ok ts
      end
  end.

(** GetVersion returns agent's version information *)
Definition GetVersion (c : Client) (ctx : ops.Context) : result Version :=
  match rpcGetVersion (discovery c) ctx with
  | Err err => Err (trail.FromGRPC describe err)
  | Ok version => Ok version
  end.

End Discovery.
Arguments DiscoveryClient : clear implicits.
Arguments Client : clear implicits.

End client.

(* ===================================================================== *)
(** ** Package [acl]: the enterprise ACL operator *)
(* ===================================================================== *)

Module acl.
Import trace.
Local Open Scope state_scope.

(** Content that [OperatorACL] hands on without reading it. *)
Inductive Opaque := blob (content : string).

(** Resource kinds and verbs named in the checks ([storage.Kind...],
    [teleservices.Kind...], [teleservices.Verb...], [storage.VerbRegister]). *)
Inductive ResourceKind :=
| KindCluster | KindLicense | KindRole | KindOIDCConnector | KindSAMLConnector.

Inductive Verb :=
| VerbCreate | VerbRead | VerbUpdate | VerbDelete | VerbList | VerbRegister.

Record RegisterAgentRequest := mkRegisterAgentRequest {
  ra_ClusterName : string; ra_rest : Opaque }.
Record DownloadUpdateRequest := mkDownloadUpdateRequest {
  du_SiteDomain : string; du_rest : Opaque }.
Record EnablePeriodicUpdatesRequest := mkEnablePeriodicUpdatesRequest {
  epu_SiteDomain : string; epu_rest : Opaque }.
Record DeleteTrustedClusterRequest := mkDeleteTrustedClusterRequest {
  dtc_ClusterName : string; dtc_rest : Opaque }.
Record UpdateLicenseRequest := mkUpdateLicenseRequest {
  ul_SiteDomain : string; ul_rest : Opaque }.

(** [teleservices.Role]: the labels of its metadata, and the rest. *)
Record Role := mkRole {
  Labels : list (string * string);
  role_rest : Opaque }.

(** [role.GetMetadata().Labels[name]]: the empty string when absent. *)
Fixpoint lookupLabel (labels : list (string * string)) (name : string) : string :=
  match labels with
  | [] => ""
  | (k, v) :: rest => if String.eqb k name then v else lookupLabel rest name
  end.

Definition label (r : Role) (name : string) : string := lookupLabel (Labels r) name.

(** The methods of the enterprise operator that [OperatorACL] calls. *)
Inductive Method :=
| mRegisterAgent | mRequestClusterCopy | mGetClusterEndpoints
| mUpdateClusterEndpoints | mCheckForUpdate | mDownloadUpdate
| mEnablePeriodicUpdates | mDisablePeriodicUpdates | mStartPeriodicUpdates
| mStopPeriodicUpdates | mPeriodicUpdatesStatus | mUpsertTrustedCluster
| mDeleteTrustedCluster | mGetTrustedClusters | mGetTrustedCluster
| mAcceptRemoteCluster | mRemoveRemoteCluster | mNewLicense
| mCheckSiteLicense | mUpdateLicense | mGetLicenseCA | mUpsertRole
| mGetRole | mGetRoles | mDeleteRole | mUpsertOIDCConnector
| mGetOIDCConnector | mGetOIDCConnectors | mDeleteOIDCConnector
| mUpsertSAMLConnector | mGetSAMLConnector | mGetSAMLConnectors
| mDeleteSAMLConnector.

(** The enterprise [ops.Operator] as far as it is called here, over its own
    state [B]. *)
Record Operator (B : Type) := mkOperator {
  implRegisterAgent : RegisterAgentRequest -> B -> result Opaque * B;
  implRequestClusterCopy : Opaque -> B -> option error * B;
  implGetClusterEndpoints : ops.SiteKey -> B -> result Opaque * B;
  implUpdateClusterEndpoints : ops.Context -> ops.SiteKey -> Opaque -> B -> option error * B;
  implCheckForUpdate : ops.SiteKey -> B -> result Opaque * B;
  implDownloadUpdate : ops.Context -> DownloadUpdateRequest -> B -> option error * B;
  implEnablePeriodicUpdates : ops.Context -> EnablePeriodicUpdatesRequest -> B -> option error * B;
  implDisablePeriodicUpdates : ops.Context -> ops.SiteKey -> B -> option error * B;
  implStartPeriodicUpdates : ops.SiteKey -> B -> option error * B;
  implStopPeriodicUpdates : ops.SiteKey -> B -> option error * B;
  implPeriodicUpdatesStatus : ops.SiteKey -> B -> result Opaque * B;
  implUpsertTrustedCluster : ops.Context -> ops.SiteKey -> Opaque -> B -> option error * B;
  implDeleteTrustedCluster : ops.Context -> DeleteTrustedClusterRequest -> B -> option error * B;
  implGetTrustedClusters : ops.SiteKey -> B -> result (list Opaque) * B;
  implGetTrustedCluster : ops.SiteKey -> string -> B -> result Opaque * B;
  implAcceptRemoteCluster : Opaque -> B -> result Opaque * B;
  implRemoveRemoteCluster : Opaque -> B -> option error * B;
  implNewLicense : ops.Context -> Opaque -> B -> result string * B;
  implCheckSiteLicense : ops.Context -> ops.SiteKey -> B -> option error * B;
  implUpdateLicense : ops.Context -> UpdateLicenseRequest -> B -> option error * B;
  implGetLicenseCA : B -> result string * B;
  implUpsertRole : ops.Context -> ops.SiteKey -> Role -> B -> option error * B;
  implGetRole : ops.SiteKey -> string -> B -> result Role * B;
  implGetRoles : ops.SiteKey -> B -> result (list Role) * B;
  implDeleteRole : ops.Context -> ops.SiteKey -> string -> B -> option error * B;
  implUpsertOIDCConnector : ops.Context -> ops.SiteKey -> Opaque -> B -> option error * B;
  implGetOIDCConnector : ops.SiteKey -> string -> bool -> B -> result Opaque * B;
  implGetOIDCConnectors : ops.SiteKey -> bool -> B -> result (list Opaque) * B;
  implDeleteOIDCConnector : ops.Context -> ops.SiteKey -> string -> B -> option error * B;
  implUpsertSAMLConnector : ops.Context -> ops.SiteKey -> Opaque -> B -> option error * B;
  implGetSAMLConnector : ops.SiteKey -> string -> bool -> B -> result Opaque * B;
  implGetSAMLConnectors : ops.SiteKey -> bool -> B -> result (list Opaque) * B;
  implDeleteSAMLConnector : ops.Context -> ops.SiteKey -> string -> B -> option error * B }.
Arguments implRegisterAgent {B} _ _ _.
Arguments implRequestClusterCopy {B} _ _ _.
Arguments implGetClusterEndpoints {B} _ _ _.
Arguments implUpdateClusterEndpoints {B} _ _ _ _ _.
Arguments implCheckForUpdate {B} _ _ _.
Arguments implDownloadUpdate {B} _ _ _ _.
Arguments implEnablePeriodicUpdates {B} _ _ _ _.
Arguments implDisablePeriodicUpdates {B} _ _ _ _.
Arguments implStartPeriodicUpdates {B} _ _ _.
Arguments implStopPeriodicUpdates {B} _ _ _.
Arguments implPeriodicUpdatesStatus {B} _ _ _.
Arguments implUpsertTrustedCluster {B} _ _ _ _ _.
Arguments implDeleteTrustedCluster {B} _ _ _ _.
Arguments implGetTrustedClusters {B} _ _ _.
Arguments implGetTrustedCluster {B} _ _ _ _.
Arguments implAcceptRemoteCluster {B} _ _ _.
Arguments implRemoveRemoteCluster {B} _ _ _.
Arguments implNewLicense {B} _ _ _ _.
Arguments implCheckSiteLicense {B} _ _ _ _.
Arguments implUpdateLicense {B} _ _ _ _.
Arguments implGetLicenseCA {B} _ _.
Arguments implUpsertRole {B} _ _ _ _ _.
Arguments implGetRole {B} _ _ _ _.
Arguments implGetRoles {B} _ _ _.
Arguments implDeleteRole {B} _ _ _ _ _.
Arguments implUpsertOIDCConnector {B} _ _ _ _ _.
Arguments implGetOIDCConnector {B} _ _ _ _ _.
Arguments implGetOIDCConnectors {B} _ _ _ _.
Arguments implDeleteOIDCConnector {B} _ _ _ _ _.
Arguments implUpsertSAMLConnector {B} _ _ _ _ _.
Arguments implGetSAMLConnector {B} _ _ _ _ _.
Arguments implGetSAMLConnectors {B} _ _ _ _.
Arguments implDeleteSAMLConnector {B} _ _ _ _ _.

(** A call of a method of [OperatorACL] with its arguments. *)
Inductive Invocation :=
| CallRegisterAgent (req : RegisterAgentRequest)
| CallRequestClusterCopy (req : Opaque)
| CallGetClusterEndpoints (key : ops.SiteKey)
| CallUpdateClusterEndpoints (ctx : ops.Context) (key : ops.SiteKey) (endpoints : Opaque)
| CallCheckForUpdate (key : ops.SiteKey)
| CallDownloadUpdate (ctx : ops.Context) (req : DownloadUpdateRequest)
| CallEnablePeriodicUpdates (ctx : ops.Context) (req : EnablePeriodicUpdatesRequest)
| CallDisablePeriodicUpdates (ctx : ops.Context) (key : ops.SiteKey)
| CallStartPeriodicUpdates (key : ops.SiteKey)
| CallStopPeriodicUpdates (key : ops.SiteKey)
| CallPeriodicUpdatesStatus (key : ops.SiteKey)
| CallUpsertTrustedCluster (ctx : ops.Context) (key : ops.SiteKey) (cluster : Opaque)
| CallDeleteTrustedCluster (ctx : ops.Context) (req : DeleteTrustedClusterRequest)
| CallGetTrustedClusters (key : ops.SiteKey)
| CallGetTrustedCluster (key : ops.SiteKey) (name : string)
| CallAcceptRemoteCluster (req : Opaque)
| CallRemoveRemoteCluster (req : Opaque)
| CallNewLicense (ctx : ops.Context) (req : Opaque)
| CallCheckSiteLicense (ctx : ops.Context) (key : ops.SiteKey)
| CallUpdateLicense (ctx : ops.Context) (req : UpdateLicenseRequest)
| CallGetLicenseCA
| CallUpsertRole (ctx : ops.Context) (key : ops.SiteKey) (role : Role)
| CallGetRole (key : ops.SiteKey) (name : string)
| CallGetRoles (key : ops.SiteKey)
| CallDeleteRole (ctx : ops.Context) (key : ops.SiteKey) (name : string)
| CallUpsertOIDCConnector (ctx : ops.Context) (key : ops.SiteKey) (connector : Opaque)
| CallGetOIDCConnector (key : ops.SiteKey) (name : string) (withSecrets : bool)
| CallGetOIDCConnectors (key : ops.SiteKey) (withSecrets : bool)
| CallDeleteOIDCConnector (ctx : ops.Context) (key : ops.SiteKey) (name : string)
| CallUpsertSAMLConnector (ctx : ops.Context) (key : ops.SiteKey) (connector : Opaque)
| CallGetSAMLConnector (key : ops.SiteKey) (name : string) (withSecrets : bool)
| CallGetSAMLConnectors (key : ops.SiteKey) (withSecrets : bool)
| CallDeleteSAMLConnector (ctx : ops.Context) (key : ops.SiteKey) (name : string).

(** The method a call is a call of. *)
Definition methodOf (i : Invocation) : Method :=
  match i with
  | CallRegisterAgent _ => mRegisterAgent
  | CallRequestClusterCopy _ => mRequestClusterCopy
  | CallGetClusterEndpoints _ => mGetClusterEndpoints
  | CallUpdateClusterEndpoints _ _ _ => mUpdateClusterEndpoints
  | CallCheckForUpdate _ => mCheckForUpdate
  | CallDownloadUpdate _ _ => mDownloadUpdate
  | CallEnablePeriodicUpdates _ _ => mEnablePeriodicUpdates
  | CallDisablePeriodicUpdates _ _ => mDisablePeriodicUpdates
  | CallStartPeriodicUpdates _ => mStartPeriodicUpdates
  | CallStopPeriodicUpdates _ => mStopPeriodicUpdates
  | CallPeriodicUpdatesStatus _ => mPeriodicUpdatesStatus
  | CallUpsertTrustedCluster _ _ _ => mUpsertTrustedCluster
  | CallDeleteTrustedCluster _ _ => mDeleteTrustedCluster
  | CallGetTrustedClusters _ => mGetTrustedClusters
  | CallGetTrustedCluster _ _ => mGetTrustedCluster
  | CallAcceptRemoteCluster _ => mAcceptRemoteCluster
  | CallRemoveRemoteCluster _ => mRemoveRemoteCluster
  | CallNewLicense _ _ => mNewLicense
  | CallCheckSiteLicense _ _ => mCheckSiteLicense
  | CallUpdateLicense _ _ => mUpdateLicense
  | CallGetLicenseCA => mGetLicenseCA
  | CallUpsertRole _ _ _ => mUpsertRole
  | CallGetRole _ _ => mGetRole
  | CallGetRoles _ => mGetRoles
  | CallDeleteRole _ _ _ => mDeleteRole
  | CallUpsertOIDCConnector _ _ _ => mUpsertOIDCConnector
  | CallGetOIDCConnector _ _ _ => mGetOIDCConnector
  | CallGetOIDCConnectors _ _ => mGetOIDCConnectors
  | CallDeleteOIDCConnector _ _ _ => mDeleteOIDCConnector
  | CallUpsertSAMLConnector _ _ _ => mUpsertSAMLConnector
  | CallGetSAMLConnector _ _ _ => mGetSAMLConnector
  | CallGetSAMLConnectors _ _ => mGetSAMLConnectors
  | CallDeleteSAMLConnector _ _ _ => mDeleteSAMLConnector
  end.

(** The checks of the wrapped open-source [OperatorACL] that the methods
    below rely on; what they answer is decided outside these sources. *)
Record OssOperatorACL := mkOssOperatorACL {
  checkClusterAction : string -> ResourceKind -> Verb -> option error;
  checkAction : ResourceKind -> Verb -> option error;
  checkAuthConnectorActions : ResourceKind -> list Verb -> option error }.

(** OperatorACL extends ACL operator from open-source *)
Record OperatorACL (B : Type) := mkOperatorACL {
  ossACL : OssOperatorACL;
  operator : Operator B }.
Arguments ossACL {B} _.
Arguments operator {B} _.

(** OperatorWithACL returns a new enterprise ACL operator *)
Definition OperatorWithACL {B} (operatorACL : OssOperatorACL) (operator : Operator B)
  : OperatorACL B :=
  mkOperatorACL B operatorACL operator.

(** An authorization check as it was asked. *)
Inductive Check :=
| AskClusterAction (cluster : string) (k : ResourceKind) (v : Verb)
| AskAction (k : ResourceKind) (v : Verb)
| AskAuthConnectorActions (k : ResourceKind) (vs : list Verb).

(** What a call does that can be observed from outside: an authorization
    check with its answer, or a call of the enterprise operator. *)
Inductive Event :=
| Checked (c : Check) (answer : option error)
| Delegated (m : Method).

Record World (B : Type) := mkWorld {
  inner : B;
  events : list Event }.
Arguments mkWorld {B} _ _.
Arguments inner {B} _.
Arguments events {B} _.

Definition M (B A : Type) : Type := State (World B) A.

Definition check {B} (c : Check) (answer : option error) : M B (option error) :=
  fun w => (answer, mkWorld (inner w) (events w ++ [Checked c answer])).

Definition invoke {B A} (m : Method) (f : B -> A * B) : M B A :=
  fun w =>
    let (a, b') := f (inner w) in
    (a, mkWorld b' (events w ++ [Delegated m])).

Section Methods.
Context {B : Type} (SystemLabel True_ : string) (o : OperatorACL B).

Definition ClusterAction (cluster : string) (k : ResourceKind) (v : Verb) : M B (option error) :=
  check (AskClusterAction cluster k v) (checkClusterAction (ossACL o) cluster k v).

Definition Action (k : ResourceKind) (v : Verb) : M B (option error) :=
  check (AskAction k v) (checkAction (ossACL o) k v).

Definition AuthConnectorActions (k : ResourceKind) (vs : list Verb) : M B (option error) :=
  check (AskAuthConnectorActions k vs) (checkAuthConnectorActions (ossACL o) k vs).

(** roleActions checks access to the specified actions on the "role" resource *)
Fixpoint roleActions (actions : list Verb) : M B (option error) :=
  match actions with
  | [] => ret None
  | action :: rest =>
      err <- Action KindRole action ;;
      match err with
      | Some err => ret (Some (Wrap err))
      | None => roleActions rest
      end
  end.

(** The calls [o.operator.X(...)]. *)
Definition operatorRegisterAgent (req : RegisterAgentRequest) : M B (result Opaque) :=
  invoke mRegisterAgent (implRegisterAgent (operator o) req).

Definition operatorRequestClusterCopy (req : Opaque) : M B (option error) :=
  invoke mRequestClusterCopy (implRequestClusterCopy (operator o) req).

Definition operatorGetClusterEndpoints (key : ops.SiteKey) : M B (result Opaque) :=
  invoke mGetClusterEndpoints (implGetClusterEndpoints (operator o) key).

Definition operatorUpdateClusterEndpoints (ctx : ops.Context) (key : ops.SiteKey) (endpoints : Opaque) : M B (option error) :=
  invoke mUpdateClusterEndpoints (implUpdateClusterEndpoints (operator o) ctx key endpoints).

Definition operatorCheckForUpdate (key : ops.SiteKey) : M B (result Opaque) :=
  invoke mCheckForUpdate (implCheckForUpdate (operator o) key).

Definition operatorDownloadUpdate (ctx : ops.Context) (req : DownloadUpdateRequest) : M B (option error) :=
  invoke mDownloadUpdate (implDownloadUpdate (operator o) ctx req).

Definition operatorEnablePeriodicUpdates (ctx : ops.Context) (req : EnablePeriodicUpdatesRequest) : M B (option error) :=
  invoke mEnablePeriodicUpdates (implEnablePeriodicUpdates (operator o) ctx req).

Definition operatorDisablePeriodicUpdates (ctx : ops.Context) (key : ops.SiteKey) : M B (option error) :=
  invoke mDisablePeriodicUpdates (implDisablePeriodicUpdates (operator o) ctx key).

Definition operatorStartPeriodicUpdates (key : ops.SiteKey) : M B (option error) :=
  invoke mStartPeriodicUpdates (implStartPeriodicUpdates (operator o) key).

Definition operatorStopPeriodicUpdates (key : ops.SiteKey) : M B (option error) :=
  invoke mStopPeriodicUpdates (implStopPeriodicUpdates (operator o) key).

Definition operatorPeriodicUpdatesStatus (key : ops.SiteKey) : M B (result Opaque) :=
  invoke mPeriodicUpdatesStatus (implPeriodicUpdatesStatus (operator o) key).

Definition operatorUpsertTrustedCluster (ctx : ops.Context) (key : ops.SiteKey) (cluster : Opaque) : M B (option error) :=
  invoke mUpsertTrustedCluster (implUpsertTrustedCluster (operator o) ctx key cluster).

Definition operatorDeleteTrustedCluster (ctx : ops.Context) (req : DeleteTrustedClusterRequest) : M B (option error) :=
  invoke mDeleteTrustedCluster (implDeleteTrustedCluster (operator o) ctx req).

Definition operatorGetTrustedClusters (key : ops.SiteKey) : M B (result (list Opaque)) :=
  invoke mGetTrustedClusters (implGetTrustedClusters (operator o) key).

Definition operatorGetTrustedCluster (key : ops.SiteKey) (name : string) : M B (result Opaque) :=
  invoke mGetTrustedCluster (implGetTrustedCluster (operator o) key name).

Definition operatorAcceptRemoteCluster (req : Opaque) : M B (result Opaque) :=
  invoke mAcceptRemoteCluster (implAcceptRemoteCluster (operator o) req).

Definition operatorRemoveRemoteCluster (req : Opaque) : M B (option error) :=
  invoke mRemoveRemoteCluster (implRemoveRemoteCluster (operator o) req).

Definition operatorNewLicense (ctx : ops.Context) (req : Opaque) : M B (result string) :=
  invoke mNewLicense (implNewLicense (operator o) ctx req).

Definition operatorCheckSiteLicense (ctx : ops.Context) (key : ops.SiteKey) : M B (option error) :=
  invoke mCheckSiteLicense (implCheckSiteLicense (operator o) ctx key).

Definition operatorUpdateLicense (ctx : ops.Context) (req : UpdateLicenseRequest) : M B (option error) :=
  invoke mUpdateLicense (implUpdateLicense (operator o) ctx req).

Definition operatorGetLicenseCA : M B (result string) :=
  invoke mGetLicenseCA (implGetLicenseCA (operator o)).

Definition operatorUpsertRole (ctx : ops.Context) (key : ops.SiteKey) (role : Role) : M B (option error) :=
  invoke mUpsertRole (implUpsertRole (operator o) ctx key role).

Definition operatorGetRole (key : ops.SiteKey) (name : string) : M B (result Role) :=
  invoke mGetRole (implGetRole (operator o) key name).

Definition operatorGetRoles (key : ops.SiteKey) : M B (result (list Role)) :=
  invoke mGetRoles (implGetRoles (operator o) key).

Definition operatorDeleteRole (ctx : ops.Context) (key : ops.SiteKey) (name : string) : M B (option error) :=
  invoke mDeleteRole (implDeleteRole (operator o) ctx key name).

Definition operatorUpsertOIDCConnector (ctx : ops.Context) (key : ops.SiteKey) (connector : Opaque) : M B (option error) :=
  invoke mUpsertOIDCConnector (implUpsertOIDCConnector (operator o) ctx key connector).

Definition operatorGetOIDCConnector (key : ops.SiteKey) (name : string) (withSecrets : bool) : M B (result Opaque) :=
  invoke mGetOIDCConnector (implGetOIDCConnector (operator o) key name withSecrets).

Definition operatorGetOIDCConnectors (key : ops.SiteKey) (withSecrets : bool) : M B (result (list Opaque)) :=
  invoke mGetOIDCConnectors (implGetOIDCConnectors (operator o) key withSecrets).

Definition operatorDeleteOIDCConnector (ctx : ops.Context) (key : ops.SiteKey) (name : string) : M B (option error) :=
  invoke mDeleteOIDCConnector (implDeleteOIDCConnector (operator o) ctx key name).

Definition operatorUpsertSAMLConnector (ctx : ops.Context) (key : ops.SiteKey) (connector : Opaque) : M B (option error) :=
  invoke mUpsertSAMLConnector (implUpsertSAMLConnector (operator o) ctx key connector).

Definition operatorGetSAMLConnector (key : ops.SiteKey) (name : string) (withSecrets : bool) : M B (result Opaque) :=
  invoke mGetSAMLConnector (implGetSAMLConnector (operator o) key name withSecrets).

Definition operatorGetSAMLConnectors (key : ops.SiteKey) (withSecrets : bool) : M B (result (list Opaque)) :=
  invoke mGetSAMLConnectors (implGetSAMLConnectors (operator o) key withSecrets).

Definition operatorDeleteSAMLConnector (ctx : ops.Context) (key : ops.SiteKey) (name : string) : M B (option error) :=
  invoke mDeleteSAMLConnector (implDeleteSAMLConnector (operator o) ctx key name).
(** RegisterAgent registers an install agent *)
Definition RegisterAgent (req : RegisterAgentRequest) : M B (result Opaque) :=
  err <- ClusterAction (ra_ClusterName req) KindCluster VerbUpdate ;;
  match err with
  | Some err => ret (Err (Wrap err))
  | None => operatorRegisterAgent req
  end.

(** RequestClusterCopy replicates the cluster specified in the request *)
Definition RequestClusterCopy (req : Opaque) : M B (option error) :=
  err <- Action KindCluster VerbCreate ;;
  match err with
  | Some err => ret (Some (Wrap err))
  | None => operatorRequestClusterCopy req
  end.

(** GetClusterEndpoints returns the cluster management endpoints *)
Definition GetClusterEndpoints (key : ops.SiteKey) : M B (result Opaque) :=
  err <- ClusterAction (ops.sk_SiteDomain key) KindCluster VerbRead ;;
  match err with
  | Some err => ret (Err (Wrap err))
  | None => operatorGetClusterEndpoints key
  end.

(** UpdateClusterEndpoints updates the cluster management endpoints *)
Definition UpdateClusterEndpoints (ctx : ops.Context) (key : ops.SiteKey) (endpoints : Opaque) : M B (option error) :=
  err <- ClusterAction (ops.sk_SiteDomain key) KindCluster VerbUpdate ;;
  match err with
  | Some err => ret (Some (Wrap err))
  | None => operatorUpdateClusterEndpoints ctx key endpoints
  end.

(** CheckForUpdate checks with remote OpsCenter if there is a newer version *)
Definition CheckForUpdate (key : ops.SiteKey) : M B (result Opaque) :=
  err <- ClusterAction (ops.sk_SiteDomain key) KindCluster VerbRead ;;
  match err with
  | Some err => ret (Err (Wrap err))
  | None => operatorCheckForUpdate key
  end.

(** DownloadUpdate downloads the provided application version *)
Definition DownloadUpdate (ctx : ops.Context) (req : DownloadUpdateRequest) : M B (option error) :=
  err <- ClusterAction (du_SiteDomain req) KindCluster VerbUpdate ;;
  match err with
  | Some err => ret (Some (Wrap err))
  | None => operatorDownloadUpdate ctx req
  end.

(** EnablePeriodicUpdates turns periodic updates for the cluster on *)
Definition EnablePeriodicUpdates (ctx : ops.Context) (req : EnablePeriodicUpdatesRequest) : M B (option error) :=
  err <- ClusterAction (epu_SiteDomain req) KindCluster VerbUpdate ;;
  match err with
  | Some err => ret (Some (Wrap err))
  | None => operatorEnablePeriodicUpdates ctx req
  end.

(** DisablePeriodicUpdates turns periodic updates for the cluster off *)
Definition DisablePeriodicUpdates (ctx : ops.Context) (key : ops.SiteKey) : M B (option error) :=
  err <- ClusterAction (ops.sk_SiteDomain key) KindCluster VerbUpdate ;;
  match err with
  | Some err => ret (Some (Wrap err))
  | None => operatorDisablePeriodicUpdates ctx key
  end.

(** StartPeriodicUpdates starts periodic updates check *)
Definition StartPeriodicUpdates (key : ops.SiteKey) : M B (option error) :=
  err <- ClusterAction (ops.sk_SiteDomain key) KindCluster VerbUpdate ;;
  match err with
  | Some err => ret (Some (Wrap err))
  | None => operatorStartPeriodicUpdates key
  end.

(** StopPeriodicUpdates stops periodic updates check without disabling it *)
Definition StopPeriodicUpdates (key : ops.SiteKey) : M B (option error) :=
  err <- ClusterAction (ops.sk_SiteDomain key) KindCluster VerbUpdate ;;
  match err with
  | Some err => ret (Some (Wrap err))
  | None => operatorStopPeriodicUpdates key
  end.

(** PeriodicUpdatesStatus returns the status of periodic updates *)
Definition PeriodicUpdatesStatus (key : ops.SiteKey) : M B (result Opaque) :=
  err <- ClusterAction (ops.sk_SiteDomain key) KindCluster VerbRead ;;
  match err with
  | Some err => ret (Err (Wrap err))
  | None => operatorPeriodicUpdatesStatus key
  end.

(** UpsertTrustedCluster creates or updates a trusted cluster *)
Definition UpsertTrustedCluster (ctx : ops.Context) (key : ops.SiteKey) (cluster : Opaque) : M B (option error) :=
  err <- ClusterAction (ops.sk_SiteDomain key) KindCluster VerbUpdate ;;
  match err with
  | Some err => ret (Some (Wrap err))
  | None => operatorUpsertTrustedCluster ctx key cluster
  end.

(** DeleteTrustedCluster deletes a trusted cluster by name *)
Definition DeleteTrustedCluster (ctx : ops.Context) (req : DeleteTrustedClusterRequest) : M B (option error) :=
  err <- ClusterAction (dtc_ClusterName req) KindCluster VerbUpdate ;;
  match err with
  | Some err => ret (Some (Wrap err))
  | None => operatorDeleteTrustedCluster ctx req
  end.

(** GetTrustedClusters returns a list of configured trusted clusters *)
Definition GetTrustedClusters (key : ops.SiteKey) : M B (result (list Opaque)) :=
  err <- ClusterAction (ops.sk_SiteDomain key) KindCluster VerbRead ;;
  match err with
  | Some err => ret (Err (Wrap err))
  | None => operatorGetTrustedClusters key
  end.

(** GetTrustedCluster returns trusted cluster by name *)
Definition GetTrustedCluster (key : ops.SiteKey) (name : string) : M B (result Opaque) :=
  err <- ClusterAction (ops.sk_SiteDomain key) KindCluster VerbRead ;;
  match err with
  | Some err => ret (Err (Wrap err))
  | None => operatorGetTrustedCluster key name
  end.

(** AcceptRemoteCluster defines the handshake with a remote cluster *)
Definition AcceptRemoteCluster (req : Opaque) : M B (result Opaque) :=
  err <- Action KindCluster VerbRegister ;;
  match err with
  | Some err => ret (Err (Wrap err))
  | None => operatorAcceptRemoteCluster req
  end.

(** RemoveRemoteCluster removes the cluster entry specified in the request *)
Definition RemoveRemoteCluster (req : Opaque) : M B (option error) :=
  err <- Action KindCluster VerbRegister ;;
  match err with
  | Some err => ret (Some (Wrap err))
  | None => operatorRemoveRemoteCluster req
  end.

(** NewLicense generates a new license signed with this Ops Center CA *)
Definition NewLicense (ctx : ops.Context) (req : Opaque) : M B (result string) :=
  err <- Action KindLicense VerbCreate ;;
  match err with
  | Some err => ret (Err (Wrap err))
  | None => operatorNewLicense ctx req
  end.

(** CheckSiteLicense makes sure the license installed on cluster is correct *)
Definition CheckSiteLicense (ctx : ops.Context) (key : ops.SiteKey) : M B (option error) :=
  err <- ClusterAction (ops.sk_SiteDomain key) KindCluster VerbUpdate ;;
  match err with
  | Some err => ret (Some (Wrap err))
  | None => operatorCheckSiteLicense ctx key
  end.

(** UpdateLicense updates license installed on cluster *)
Definition UpdateLicense (ctx : ops.Context) (req : UpdateLicenseRequest) : M B (option error) :=
  err <- ClusterAction (ul_SiteDomain req) KindCluster VerbUpdate ;;
  match err with
  | Some err => ret (Some (Wrap err))
  | None => operatorUpdateLicense ctx req
  end.

(** GetLicenseCA returns CA certificate Ops Center uses to sign licenses *)
Definition GetLicenseCA : M B (result string) :=
  operatorGetLicenseCA.

(** UpsertRole creates a new role *)
Definition UpsertRole (ctx : ops.Context) (key : ops.SiteKey) (role : Role) : M B (option error) :=
  let body :=
    if String.eqb (label role SystemLabel) True_
    then ret (Some (AccessDenied "system roles can't be created"))
    else operatorUpsertRole ctx key role in
  err <- ClusterAction (ops.sk_SiteDomain key) KindCluster VerbUpdate ;;
  match err with
  | Some _ =>
      err <- roleActions [VerbCreate; VerbUpdate] ;;
      match err with
      | Some err => ret (Some (Wrap err))
      | None => body
      end
  | None => body
  end.

(** GetRole returns a role by name *)
Definition GetRole (key : ops.SiteKey) (name : string) : M B (result Role) :=
  err <- ClusterAction (ops.sk_SiteDomain key) KindCluster VerbRead ;;
  match err with
  | Some _ =>
      err <- roleActions [VerbRead] ;;
      match err with
      | Some err => ret (Err (Wrap err))
      | None => operatorGetRole key name
      end
  | None => operatorGetRole key name
  end.

(** GetRoles returns all roles *)
Definition GetRoles (key : ops.SiteKey) : M B (result (list Role)) :=
  err <- ClusterAction (ops.sk_SiteDomain key) KindCluster VerbRead ;;
  match err with
  | Some _ =>
      err <- roleActions [VerbList; VerbRead] ;;
      match err with
      | Some err => ret (Err (Wrap err))
      | None => operatorGetRoles key
      end
  | None => operatorGetRoles key
  end.

(** DeleteRole deletes a role by name *)
Definition DeleteRole (ctx : ops.Context) (key : ops.SiteKey) (name : string) : M B (option error) :=
  let body :=
    r <- operatorGetRole key name ;;
    match r with
    | Err err => ret (Some (Wrap err))
    | Ok role =>
        if String.eqb (label role SystemLabel) True_
        then ret (Some (AccessDenied "system roles can't be deleted"))
        else operatorDeleteRole ctx key name
    end in
  err <- ClusterAction (ops.sk_SiteDomain key) KindCluster VerbUpdate ;;
  match err with
  | Some _ =>
      err <- roleActions [VerbDelete] ;;
      match err with
      | Some err => ret (Some (Wrap err))
      | None => body
      end
  | None => body
  end.

(** UpsertOIDCConnector creates or updates an OIDC connector *)
Definition UpsertOIDCConnector (ctx : ops.Context) (key : ops.SiteKey) (connector : Opaque) : M B (option error) :=
  err <- ClusterAction (ops.sk_SiteDomain key) KindCluster VerbUpdate ;;
  match err with
  | Some _ =>
      err <- AuthConnectorActions KindOIDCConnector [VerbCreate; VerbUpdate] ;;
      match err with
      | Some err => ret (Some (Wrap err))
      | None => operatorUpsertOIDCConnector ctx key connector
      end
  | None => operatorUpsertOIDCConnector ctx key connector
  end.

(** GetOIDCConnector returns an OIDC connector by name *)
Definition GetOIDCConnector (key : ops.SiteKey) (name : string) (withSecrets : bool) : M B (result Opaque) :=
  err <- ClusterAction (ops.sk_SiteDomain key) KindCluster VerbRead ;;
  match err with
  | Some _ =>
      err <- AuthConnectorActions KindOIDCConnector [VerbRead] ;;
      match err with
      | Some err => ret (Err (Wrap err))
      | None => operatorGetOIDCConnector key name withSecrets
      end
  | None => operatorGetOIDCConnector key name withSecrets
  end.

(** GetOIDCConnectors returns all OIDC connectors *)
Definition GetOIDCConnectors (key : ops.SiteKey) (withSecrets : bool) : M B (result (list Opaque)) :=
  err <- ClusterAction (ops.sk_SiteDomain key) KindCluster VerbRead ;;
  match err with
  | Some _ =>
      err <- AuthConnectorActions KindOIDCConnector [VerbList; VerbRead] ;;
      match err with
      | Some err => ret (Err (Wrap err))
      | None => operatorGetOIDCConnectors key withSecrets
      end
  | None => operatorGetOIDCConnectors key withSecrets
  end.

(** DeleteOIDCConnector deletes an OIDC connector by name *)
Definition DeleteOIDCConnector (ctx : ops.Context) (key : ops.SiteKey) (name : string) : M B (option error) :=
  err <- ClusterAction (ops.sk_SiteDomain key) KindCluster VerbUpdate ;;
  match err with
  | Some _ =>
      err <- AuthConnectorActions KindOIDCConnector [VerbDelete] ;;
      match err with
      | Some err => ret (Some (Wrap err))
      | None => operatorDeleteOIDCConnector ctx key name
      end
  | None => operatorDeleteOIDCConnector ctx key name
  end.

(** UpsertSAMLConnector creates or updates a SAML connector *)
Definition UpsertSAMLConnector (ctx : ops.Context) (key : ops.SiteKey) (connector : Opaque) : M B (option error) :=
  err <- ClusterAction (ops.sk_SiteDomain key) KindCluster VerbUpdate ;;
  match err with
  | Some _ =>
      err <- AuthConnectorActions KindSAMLConnector [VerbCreate; VerbUpdate] ;;
      match err with
      | Some err => ret (Some (Wrap err))
      | None => operatorUpsertSAMLConnector ctx key connector
      end
  | None => operatorUpsertSAMLConnector ctx key connector
  end.

(** GetSAMLConnector returns a SAML connector by name *)
Definition GetSAMLConnector (key : ops.SiteKey) (name : string) (withSecrets : bool) : M B (result Opaque) :=
  err <- ClusterAction (ops.sk_SiteDomain key) KindCluster VerbRead ;;
  match err with
  | Some _ =>
      err <- AuthConnectorActions KindSAMLConnector [VerbRead] ;;
      match err with
      | Some err => ret (Err (Wrap err))
      | None => operatorGetSAMLConnector key name withSecrets
      end
  | None => operatorGetSAMLConnector key name withSecrets
  end.

(** GetSAMLConnectors returns all SAML connectors *)
Definition GetSAMLConnectors (key : ops.SiteKey) (withSecrets : bool) : M B (result (list Opaque)) :=
  err <- ClusterAction (ops.sk_SiteDomain key) KindCluster VerbRead ;;
  match err with
  | Some _ =>
      err <- AuthConnectorActions KindSAMLConnector [VerbList; VerbRead] ;;
      match err with
      | Some err => ret (Err (Wrap err))
      | None => operatorGetSAMLConnectors key withSecrets
      end
  | None => operatorGetSAMLConnectors key withSecrets
  end.

(** DeleteSAMLConnector deletes a SAML connector by name *)
Definition DeleteSAMLConnector (ctx : ops.Context) (key : ops.SiteKey) (name : string) : M B (option error) :=
  err <- ClusterAction (ops.sk_SiteDomain key) KindCluster VerbUpdate ;;
  match err with
  | Some _ =>
      err <- AuthConnectorActions KindSAMLConnector [VerbDelete] ;;
      match err with
      | Some err => ret (Some (Wrap err))
      | None => operatorDeleteSAMLConnector ctx key name
      end
  | None => operatorDeleteSAMLConnector ctx key name
  end.
(** Running a call, keeping of its result only the error. *)
Definition run (i : Invocation) : M B (option error) :=
  match i with
  | CallRegisterAgent req => r <- RegisterAgent req ;; ret (errOf r)
  | CallRequestClusterCopy req => RequestClusterCopy req
  | CallGetClusterEndpoints key => r <- GetClusterEndpoints key ;; ret (errOf r)
  | CallUpdateClusterEndpoints ctx key endpoints => UpdateClusterEndpoints ctx key endpoints
  | CallCheckForUpdate key => r <- CheckForUpdate key ;; ret (errOf r)
  | CallDownloadUpdate ctx req => DownloadUpdate ctx req
  | CallEnablePeriodicUpdates ctx req => EnablePeriodicUpdates ctx req
  | CallDisablePeriodicUpdates ctx key => DisablePeriodicUpdates ctx key
  | CallStartPeriodicUpdates key => StartPeriodicUpdates key
  | CallStopPeriodicUpdates key => StopPeriodicUpdates key
  | CallPeriodicUpdatesStatus key => r <- PeriodicUpdatesStatus key ;; ret (errOf r)
  | CallUpsertTrustedCluster ctx key cluster => UpsertTrustedCluster ctx key cluster
  | CallDeleteTrustedCluster ctx req => DeleteTrustedCluster ctx req
  | CallGetTrustedClusters key => r <- GetTrustedClusters key ;; ret (errOf r)
  | CallGetTrustedCluster key name => r <- GetTrustedCluster key name ;; ret (errOf r)
  | CallAcceptRemoteCluster req => r <- AcceptRemoteCluster req ;; ret (errOf r)
  | CallRemoveRemoteCluster req => RemoveRemoteCluster req
  | CallNewLicense ctx req => r <- NewLicense ctx req ;; ret (errOf r)
  | CallCheckSiteLicense ctx key => CheckSiteLicense ctx key
  | CallUpdateLicense ctx req => UpdateLicense ctx req
  | CallGetLicenseCA => r <- GetLicenseCA ;; ret (errOf r)
  | CallUpsertRole ctx key role => UpsertRole ctx key role
  | CallGetRole key name => r <- GetRole key name ;; ret (errOf r)
  | CallGetRoles key => r <- GetRoles key ;; ret (errOf r)
  | CallDeleteRole ctx key name => DeleteRole ctx key name
  | CallUpsertOIDCConnector ctx key connector => UpsertOIDCConnector ctx key connector
  | CallGetOIDCConnector key name withSecrets => r <- GetOIDCConnector key name withSecrets ;; ret (errOf r)
  | CallGetOIDCConnectors key withSecrets => r <- GetOIDCConnectors key withSecrets ;; ret (errOf r)
  | CallDeleteOIDCConnector ctx key name => DeleteOIDCConnector ctx key name
  | CallUpsertSAMLConnector ctx key connector => UpsertSAMLConnector ctx key connector
  | CallGetSAMLConnector key name withSecrets => r <- GetSAMLConnector key name withSecrets ;; ret (errOf r)
  | CallGetSAMLConnectors key withSecrets => r <- GetSAMLConnectors key withSecrets ;; ret (errOf r)
  | CallDeleteSAMLConnector ctx key name => DeleteSAMLConnector ctx key name
  end.

End Methods.

End acl.

(* ===================================================================== *)
(** ** Package [ops], continued: accounts, the expand operation, and the
       values carried by a context *)
(* ===================================================================== *)

Module accounts.
Import trace.
Local Open Scope state_scope.

Record Account := mkAccount {
  acc_ID : string;
  acc_Org : string }.

Record NewAccountRequest := mkNewAccountRequest {
  nar_ID : string;
  nar_Org : string }.

(** One invocation of a method of the operator. *)
Inductive Call :=
| CallGetAccounts
| CallCreateAccount (r : NewAccountRequest).

(** The two methods of [Operator] that deal with accounts, over a backend
    with state [B]. *)
Record Operator (B : Type) := mkOperator {
  implGetAccounts : B -> result (list Account) * B;
  implCreateAccount : NewAccountRequest -> B -> result Account * B }.
Arguments implGetAccounts {B} _ _.
Arguments implCreateAccount {B} _ _ _.

Record World (B : Type) := mkWorld {
  backend : B;
  calls : list Call }.
Arguments mkWorld {B} _ _.
Arguments backend {B} _.
Arguments calls {B} _.

Definition M (B A : Type) : Type := State (World B) A.

Definition invoke {B A} (c : Call) (f : B -> A * B) : M B A :=
  fun w =>
    let (a, b') := f (backend w) in
    (a, mkWorld b' (calls w ++ [c])).

Definition GetAccounts {B} (operator : Operator B) : M B (result (list Account)) :=
  invoke CallGetAccounts (implGetAccounts operator).

Definition CreateAccount {B} (operator : Operator B) (r : NewAccountRequest)
  : M B (result Account) :=
  invoke (CallCreateAccount r) (implCreateAccount operator r).

(** The loop [for i := range accounts { if accounts[i].Org == org { return
    &accounts[i], nil } }]: the first account of the organization. *)
Fixpoint firstOfOrg (org : string) (accounts : list Account) : option Account :=
  match accounts with
  | [] => None
  | a :: rest => if String.eqb (acc_Org a) org then Some a else firstOfOrg org rest
  end.

(** UpsertSystemAccount creates a new system account if one has not been
    created.  Returns the system account.  [SystemAccountID] and
    [SystemAccountOrg] are the constants of [lib/defaults]. *)
Definition UpsertSystemAccount {B} (SystemAccountID SystemAccountOrg : string)
    (operator : Operator B) : M B (result Account) :=
  r <- GetAccounts operator ;;
  match r with
  | Err err => ret (Err (Wrap err))
  | Ok accounts =>
      match firstOfOrg SystemAccountOrg accounts with
      | Some a => ret (Ok a)
      | None =>
          r <- CreateAccount operator (mkNewAccountRequest SystemAccountID SystemAccountOrg) ;;
          match r with
          | Err err => ret (Err (Wrap err))
          | Ok account => ret (Ok account)
          end
      end
  end.

End accounts.

Module expand.
Import trace.
Local Open Scope state_scope.

(** The two methods of [storage.Backend] used here, over a state [B].
    [storage.Site] and [storage.SiteOperation] are the records behind
    [Site] and [SiteOperation]; the fields read here are [Domain] and
    [Type]. *)
Record Backend (B : Type) := mkBackend {
  implGetLocalSite : string -> B -> result ops.Site * B;
  implGetSiteOperations : string -> B -> result (list ops.SiteOperation) * B }.
Arguments implGetLocalSite {B} _ _ _.
Arguments implGetSiteOperations {B} _ _ _.

(** The loop [for _, operation := range operations { if operation.Type ==
    opType { return &operation, nil } }]. *)
Fixpoint firstOfType (opType : string) (operations : list ops.SiteOperation)
  : option ops.SiteOperation :=
  match operations with
  | [] => None
  | operation :: rest =>
      if String.eqb (ops.op_Type operation) opType then Some operation
      else firstOfType opType rest
  end.

(** GetExpandOperation returns the first available expand operation from
    the provided backend.  [OperationExpand] is the operation type's name,
    declared elsewhere in the package. *)
Definition GetExpandOperation {B} (SystemAccountID OperationExpand : string)
    (backend : Backend B) : State B (result ops.SiteOperation) :=
  r <- implGetLocalSite backend SystemAccountID ;;
  match r with
  | Err err => ret (Err (Wrap err))
  | Ok cluster =>
      r <- implGetSiteOperations backend (ops.site_Domain cluster) ;;
      match r with
      | Err err => ret (Err (Wrap err))
      | Ok operations =>
          match firstOfType OperationExpand operations with
          | Some operation => ret (Ok operation)
          | None => ret (Err (NotFound "expand operation not found"))
          end
      end
  end.

End expand.

Module ctxvalues.

Section Values.
(** What stands behind the interfaces [Operator] and
    [teleservices.WebSession]. *)
Context {OperatorT WebSessionT : Type}.

(** A context key: one of this package's keys (a [contextKey], an [int]),
    or a key of some other type. *)
Inductive Key :=
| contextKey (k : Z)
| foreignKey (name : string).

Definition keyEqb (a b : Key) : bool :=
  match a, b with
  | contextKey x, contextKey y => Z.eqb x y
  | foreignKey x, foreignKey y => String.eqb x y
  | _, _ => false
  end.

(** userContext is a context field that contains authenticated user name;
    webSessionContext is for web sessions stored in the current context;
    operatorContext is for operator associated with User ACL context.
    They are numbered by [iota]. *)
Definition userContext : Key := contextKey 0.
Definition webSessionContext : Key := contextKey 1.
Definition operatorContext : Key := contextKey 2.

(** A value of type [interface{}] as it is stored in a context. *)
Inductive Value :=
| VNil
| VString (s : string)
| VOperator (o : OperatorT)
| VSession (s : WebSessionT)
| VOther (description : string).

(** A non-nil [context.Context], as far as values go: the values attached
    with [context.WithValue], innermost first. *)
Inductive Context :=
| Background
| WithValue (parent : Context) (key : Key) (val : Value).

(** [ctx.Value(key)]: the value attached last under the key, nil if none. *)
Fixpoint ValueOf (ctx : Context) (key : Key) : Value :=
  match ctx with
  | Background => VNil
  | WithValue parent k v => if keyEqb k key then v else ValueOf parent key
  end.

(** UserFromContext extracts name of the user attached to the provided
    context.  Returns an empty string if no user is attached. *)
Definition UserFromContext (ctx : Context) : string :=
  match ValueOf ctx userContext with
  | VString user => user
  | _ => ""
  end.

(** NewUserContext returns a new context with the specified user name *)
Definition NewUserContext (ctx : Context) (user : string) : Context :=
  WithValue ctx userContext (VString user).

(** OperatorFromContext extracts the operator from the specified context
    if present. *)
Definition OperatorFromContext (ctx : Context) : option OperatorT :=
  match ValueOf ctx operatorContext with
  | VOperator operator => Some operator
  | _ => None
  end.

(** An interface value as an [interface{}]: nil stays nil. *)
Definition operatorValue (operator : option OperatorT) : Value :=
  match operator with
  | Some o => VOperator o
  | None => VNil
  end.

Definition sessionValue (session : option WebSessionT) : Value :=
  match session with
  | Some s => VSession s
  | None => VNil
  end.

(** NewOperatorContext returns a new context with the specified operator *)
Definition NewOperatorContext (ctx : Context) (operator : option OperatorT) : Context :=
  WithValue ctx operatorContext (operatorValue operator).

(** SessionFromContext extracts the web session from the specified context
    if present. *)
Definition SessionFromContext (ctx : Context) : option WebSessionT :=
  match ValueOf ctx webSessionContext with
  | VSession session => Some session
  | _ => None
  end.

(** NewSessionContext returns a new context with the specified web session *)
Definition NewSessionContext (ctx : Context) (session : option WebSessionT) : Context :=
  WithValue ctx webSessionContext (sessionValue session).

End Values.
Arguments Value : clear implicits.
Arguments Context : clear implicits.

End ctxvalues.

(* ===================================================================== *)
(** ** Go's [strings.Split], [strings.Join] and [strings.TrimSuffix] *)
(* ===================================================================== *)

Module gostrings.

(** [Split] for a separator that is not empty (as at every call below):
    the string is cut at each occurrence of the separator, found from the
    left and not overlapping.  [skip] counts the bytes of a separator just
    found that are still to be passed over; [cur] holds the part in the
    making, in reverse. *)
Fixpoint splitFrom (sep : list ascii) (skip : nat) (cur s : list ascii)
  : list (list ascii) :=
  match s with
  | [] => [rev cur]
  | c :: s' =>
      match skip with
      | S k => splitFrom sep k cur s'
      | O =>
          match strings.cutPrefix sep s with
          | Some _ => rev cur :: splitFrom sep (List.length sep - 1) [] s'
          | None => splitFrom sep 0 (c :: cur) s'
          end
      end
  end.

Definition Split (s sep : string) : list string :=
  map string_of_list_ascii
    (splitFrom (list_ascii_of_string sep) 0 [] (list_ascii_of_string s)).

Fixpoint Join (elems : list string) (sep : string) : string :=
  match elems with
  | [] => ""
  | [e] => e
  | e :: rest => e ++ sep ++ Join rest sep
  end.

(** [TrimSuffix]: the string without the suffix, when it ends with it. *)
Definition TrimSuffix (s suffix : string) : string :=
  match strings.cutPrefix (rev (list_ascii_of_string suffix))
          (rev (list_ascii_of_string s)) with
  | Some r => string_of_list_ascii (rev r)
  | None => s
  end.

End gostrings.

(* ===================================================================== *)
(** ** Package [helm]: chart file names and chart values *)
(* ===================================================================== *)

Module helm.
Import trace.

(** A value of a chart: a nested map of values, or anything else. *)
#[warnings="-register-all"]
Inductive Value :=
| Scalar (s : string)
| Values (m : string -> option Value).

Fixpoint hasVar (name : list string) (vals : string -> option Value) : bool :=
  match name with
  | [] => true
  | n :: rest =>
      match vals n with
      | None => false
      | Some v =>
          match rest with
          | [] => true
          | _ :: _ =>
              match v with
              | Values m => hasVar rest m
              | Scalar _ => false
              end
          end
      end
  end.

(** HasVar takes a slice of values and value files and returns true if
    there is a variable with the provided name among them.  [merged] is
    what helm's [merge] makes of the values and value files. *)
Definition HasVar (name : string) (merged : result (string -> option Value)) : result bool :=
  match merged with
  | Err err => Err (Wrap err)
  | Ok allVals => Ok (hasVar (gostrings.Split name ".") allVals)
  end.

(** ParseChartFilename returns chart name and version from the provided
    chart package filename generated by ToChartFilename function below. *)
Definition ParseChartFilename (filename : string) : result (string * string) :=
  let parts := gostrings.Split (gostrings.TrimSuffix filename ".tgz") "-" in
  if Nat.ltb (List.length parts) 2
  then Err (BadParameter ("bad chart filename: " ++ filename))
  else Ok (gostrings.Join (removelast parts) "-", last parts "").

(** ToChartFilename returns a chart archive filename for the provided
    name/version. *)
Definition ToChartFilename (name version : string) : string :=
  name ++ "-" ++ version ++ ".tgz".

End helm.

(* ===================================================================== *)
(** * Vocabulary of the statements, and instances for examples *)
(* ===================================================================== *)

(** ** The white space scan *)

Module scan.

(** Every encoding has at least one byte. *)
Definition nonEmpty (p : list ascii) : bool :=
  match p with [] => false | _ :: _ => true end.

(** No byte after the first of [p] is a blank. *)
Definition blankFreeTail (p : list ascii) : bool :=
  match p with
  | [] => false
  | _ :: t => negb (existsb (Ascii.eqb " ") t)
  end.

(** The encodings as the scan from the end meets them. *)
Definition reversedSpaces : list (list ascii) := map (@rev ascii) strings.spaceRunes.

End scan.

(** ** Operation store accessor *)

Module accessor.
Import trace ops.
Local Open Scope state_scope.

(** The accessors that filter the operations of a cluster. *)
Inductive Accessor :=
| InstallOperation
| LastUninstallOperation
| LastCompletedUpdateOperation
| CompletedInstallOperation
| LastOperation
| LastFinishedOperation
| LastUpgradeOperation
| LastShrinkOperation
| ActiveOperations
| ActiveOperationsByType (opType : string).

(** The filter with which an accessor queries the backend. *)
Definition filterOf (d : Decls) (a : Accessor) : OperationsFilter :=
  match a with
  | InstallOperation => mkFilter [OperationInstall d] false false false false
  | LastUninstallOperation => mkFilter [OperationUninstall d] true false false false
  | LastCompletedUpdateOperation => mkFilter [OperationUpdate d] true false true false
  | CompletedInstallOperation => mkFilter [OperationInstall d] true false true false
  | LastOperation => mkFilter [] true false false false
  | LastFinishedOperation => mkFilter [] true false false true
  | LastUpgradeOperation => mkFilter [OperationUpdate d] true false false false
  | LastShrinkOperation => mkFilter [OperationShrink d] true false false false
  | ActiveOperations => mkFilter [] false true false false
  | ActiveOperationsByType opType => mkFilter [opType] false true false false
  end.

Definition mapResult {A C} (f : A -> C) (r : result A) : result C :=
  match r with
  | Ok a => Ok (f a)
  | Err e => Err e
  end.

(** Running an accessor, keeping of a successful result the operations. *)
Definition found {B} (d : Decls) (operator : Operator B) (a : Accessor)
    (siteKey : SiteKey) : M B (result (list SiteOperation)) :=
  match a with
  | InstallOperation =>
      r <- GetInstallOperation d operator siteKey ;; ret (mapResult (fun p => [fst p]) r)
  | LastUninstallOperation =>
      r <- GetLastUninstallOperation d operator siteKey ;; ret (mapResult (fun p => [fst p]) r)
  | LastCompletedUpdateOperation =>
      r <- GetLastCompletedUpdateOperation d operator siteKey ;; ret (mapResult (fun o => [o]) r)
  | CompletedInstallOperation =>
      r <- GetCompletedInstallOperation d operator siteKey ;; ret (mapResult (fun o => [o]) r)
  | LastOperation =>
      r <- GetLastOperation d operator siteKey ;; ret (mapResult (fun p => [fst p]) r)
  | LastFinishedOperation =>
      r <- GetLastFinishedOperation d operator siteKey ;; ret (mapResult (fun p => [fst p]) r)
  | LastUpgradeOperation =>
      r <- GetLastUpgradeOperation d operator siteKey ;; ret (mapResult (fun o => [o]) r)
  | LastShrinkOperation =>
      r <- GetLastShrinkOperation d operator siteKey ;; ret (mapResult (fun o => [o]) r)
  | ActiveOperations => GetActiveOperations d operator siteKey
  | ActiveOperationsByType opType => GetActiveOperationsByType d operator siteKey opType
  end.


(** The accessors that also fetch the progress of the operation found. *)
Definition fetchesProgress (a : Accessor) : bool :=
  match a with
  | InstallOperation | LastUninstallOperation | LastOperation | LastFinishedOperation => true
  | _ => false
  end.

(** The backend answers the accessor's filter with [l]. *)
Definition answers {B} (d : Decls) (operator : Operator B) (a : Accessor)
    (siteKey : SiteKey) (w : World B) (l : list SiteOperation) : Prop :=
  fst (implGetSiteOperations operator siteKey (filterOf d a) (backend w)) = Ok l.


(** The world right after [GetSites] for the system account. *)
Definition afterGetSites {B} (d : Decls) (operator : Operator B) (w : World B) : World B :=
  mkWorld (snd (implGetSites operator (SystemAccountID d) (backend w)))
    (calls w ++ [CallGetSites (SystemAccountID d)]) (clockReads w).

(** *** A backend for examples *)

(** The operations it returns for any filter, and whether progress can be
    fetched. *)
Record Shelf := mkShelf {
  shelved : list SiteOperation;
  progressKnown : bool;
  clusters : list Site }.

Definition entryFor (k : SiteOperationKey) : ProgressEntry :=
  mkProgressEntry (ok_SiteDomain k) (ok_OperationID k) 1 10 "in_progress" "working"
    (mkTime 0 LocUTC).

Definition shelfOperator : Operator Shelf :=
  mkOperator Shelf
    (fun _ _ b => (Ok (shelved b), b))
    (fun k b => (if progressKnown b then Ok (entryFor k)
                 else Err (Raw (Plain "progress unavailable")), b))
    (fun k b => (Err (NotFound "no operation"), b))
    (fun _ b => (Ok (clusters b), b))
    (fun _ _ _ b => (None, b))
    (fun _ b => (None, b)).

Definition decls : Decls :=
  mkDecls 9 100 "system" "operation_install" "operation_uninstall" "operation_update"
    "operation_shrink" "completed" "failed" "completed" "failed"
    (fun k => sk_AccountID k ++ "/" ++ sk_SiteDomain k)
    (fun l => String.concat "," (map site_Domain l)).

Definition op1 : SiteOperation :=
  mkSiteOperation "op1" "system" "example.com" "operation_update" (mkTime 200 LocUTC) "completed".
Definition op2 : SiteOperation :=
  mkSiteOperation "op2" "system" "example.com" "operation_update" (mkTime 100 LocUTC) "completed".

Definition op0 : SiteOperation :=
  mkSiteOperation "op0" "system" "example.com" "operation_install" (mkTime 50 LocUTC) "completed".

Definition site1 : SiteKey := mkSiteKey "system" "example.com".

Definition cluster0 : Site := mkSite "system" "example.com".

Definition world0 (ops : list SiteOperation) (progress : bool) (cs : list Site) : World Shelf :=
  mkWorld (mkShelf ops progress cs) [] 0.

End accessor.

(** ** Operation state controller *)

Module controller.
Import trace ops.

(** The terminal entry CompleteOperation hands to the setter when the
    clock reads [now]. *)
Definition completedEntry (d : Decls) (key : SiteOperationKey) (now : Time) : ProgressEntry :=
  mkProgressEntry (ok_SiteDomain key) (ok_OperationID key) (FinalStep d) (Completed d)
    (ProgressStateCompleted d) "Operation has completed" (UTC now).

Definition completedRequest (d : Decls) (key : SiteOperationKey) (now : Time)
  : SetOperationStateRequest :=
  mkSetOperationStateRequest (OperationStateCompleted d) (Some (completedEntry d key now)).

(** The message of a failure entry for the caller's message [m]. *)
Definition failureText (m : string) : string :=
  if String.eqb m "" then "Operation failure"
  else if String.eqb (strings.TrimRight m) "" then "Operation failure:"
  else "Operation failure: " ++ strings.TrimRight m.

Definition failedEntry (d : Decls) (key : SiteOperationKey) (m : string) (now : Time)
  : ProgressEntry :=
  mkProgressEntry (ok_SiteDomain key) (ok_OperationID key) (FinalStep d) (Completed d)
    (ProgressStateFailed d) (failureText m) (UTC now).

Definition failedRequest (d : Decls) (key : SiteOperationKey) (m : string) (now : Time)
  : SetOperationStateRequest :=
  mkSetOperationStateRequest (OperationStateFailed d) (Some (failedEntry d key m now)).

(** The operator methods invoked between two worlds. *)
Definition newCalls {B} (before after : World B) : list Call :=
  skipn (List.length (calls before)) (calls after).

Definition isActivateSite (c : Call) : bool :=
  match c with CallActivateSite _ => true | _ => false end.

(** The messages of the progress entries handed to SetOperationState. *)
Definition progressMessages (cs : list Call) : list string :=
  flat_map (fun c =>
              match c with
              | CallSetOperationState _ (mkSetOperationStateRequest _ (Some p)) => [pe_Message p]
              | _ => []
              end) cs.

(** *** A setter for examples: it keeps what it is given, and fails when
    told to. *)
Record Ledger := mkLedger {
  broken : bool;
  states : list (SiteOperationKey * string);
  entries : list ProgressEntry;
  activated : list ActivateSiteRequest }.

Definition ledgerSet : OperationStateSetter Ledger :=
  fun _ key req b =>
    if broken b then (Some (Raw (Plain "backend unavailable")), b)
    else (None,
          mkLedger false ((key, req_State req) :: states b)
            (entries b ++ match req_Progress req with Some p => [p] | None => [] end)
            (activated b)).

Definition ledgerOperator : Operator Ledger :=
  mkOperator Ledger
    (fun _ _ b => (Ok [], b))
    (fun _ b => (Err (NotFound "no progress"), b))
    (fun _ b => (Err (NotFound "no operation"), b))
    (fun _ b => (Ok [], b))
    ledgerSet
    (fun r b => (None, mkLedger (broken b) (states b) (entries b) (activated b ++ [r]))).

Definition ledger0 (isBroken : bool) : World Ledger :=
  mkWorld (mkLedger isBroken [] [] []) [] 0.

Definition clock0 (n : nat) : Time := mkTime (1000 + Z.of_nat n) LocLocal.

Definition key1 : SiteOperationKey := mkSiteOperationKey "system" "example.com" "op1".

Definition ctx0 : Context := mkContext 0.

End controller.

(** ** Command executor *)

Module executor.
Import trace server.

(** Two streams treat output events alike. *)
Definition agreeOnOutput (s1 s2 : OutgoingMessageStream) : Prop :=
  forall (h : list Message) (m : Message), isOutput m = true -> s1 h m = s2 h m.

(** Two computations yield the same value and hand the same messages to
    the stream, from worlds in which the same messages were handed over. *)
Definition alike {A} (m1 m2 : M A) : Prop :=
  forall w1 w2 : World,
    attempted w1 = attempted w2 ->
    fst (m1 w1) = fst (m2 w2) /\ attempted (snd (m1 w1)) = attempted (snd (m2 w2)).

(** *** Streams, systems and requests for examples *)

Definition reliable : OutgoingMessageStream := fun _ _ => None.

Definition sendError : error := Raw (Status Unavailable "transport is closing").

(** Every send fails. *)
Definition broken : OutgoingMessageStream := fun _ _ => Some sendError.

(** Only started and completed events are lost. *)
Definition deafToNotifications : OutgoingMessageStream :=
  fun _ m => if isOutput m then None else Some sendError.

Definition notFound : error := Raw (Plain "executable file not found in $PATH").

(** A system that knows the commands [echo], which prints a line and
    exits with status 0, and [false], which exits with status 1; the line
    is copied after the started event was sent. *)
Definition system : OS :=
  mkOS (fun name => if String.eqb name "echo" then "/bin/echo"
                    else if String.eqb name "false" then "/bin/false"
                    else name)
       (fun cmd =>
          if String.eqb (Path cmd) "/bin/echo"
          then Started (mkProcess [(STDOUT, "hello")] 0 Success)
          else if String.eqb (Path cmd) "/bin/false"
          then Started (mkProcess [] 0 (Failure (Exited 1)))
          else StartFailed notFound).

Definition quiet : World := mkWorld [] [].

End executor.

(** ** Discovery client *)

Module discoveryCalls.
Import trace client.

(** The four discovery calls. *)
Inductive Call := SystemInfoCall | RuntimeConfigCall | CurrentTimeCall | VersionCall.

Definition isVersionCall (call : Call) : bool :=
  match call with VersionCall => true | _ => false end.

Section Errors.
Context {System RuntimeConfig Version : Type}
        (UnmarshalSystemInfo : string -> result System)
        (TimestampFromProto : Timestamp -> result ops.Time)
        (describe : error -> string)
        (c : Client RuntimeConfig Version) (ctx : ops.Context).

(** The error with which the remote call itself ends. *)
Definition rpcError (call : Call) : option error :=
  match call with
  | SystemInfoCall => errOf (rpcGetSystemInfo (discovery c) ctx)
  | RuntimeConfigCall => errOf (rpcGetRuntimeConfig (discovery c) ctx)
  | CurrentTimeCall => errOf (rpcGetCurrentTime (discovery c) ctx)
  | VersionCall => errOf (rpcGetVersion (discovery c) ctx)
  end.

(** The error the client's method returns. *)
Definition callError (call : Call) : option error :=
  match call with
  | SystemInfoCall => errOf (GetSystemInfo UnmarshalSystemInfo c ctx)
  | RuntimeConfigCall => errOf (GetRuntimeConfig c ctx)
  | CurrentTimeCall => errOf (GetCurrentTime TimestampFromProto c ctx)
  | VersionCall => errOf (GetVersion describe c ctx)
  end.

End Errors.

(** *** An agent for examples: every call ends with the same error. *)
Definition failing (e : error) : Client string string :=
  mkClient (mkDiscoveryClient (fun _ => Err e) (fun _ => Err e) (fun _ => Err e) (fun _ => Err e)).

Definition unmarshal (payload : string) : result string := Ok payload.

Definition fromProto (t : Timestamp) : result ops.Time :=
  Ok (ops.mkTime (Seconds t * 1000000000 + Nanos t) ops.LocUTC).

Definition text (e : error) : string :=
  match Unwrap e with
  | Plain msg | Status _ msg | Typed _ msg => msg
  | ExitError _ => "exit status"
  end.

Definition unreachable : error := Raw (Status Unavailable "connection refused").
Definition rejected : error := Raw (Status PermissionDenied "access denied").

End discoveryCalls.

(** ** Enterprise ACL operator *)

Module wrapper.
Import trace acl.

(** The events between two worlds. *)
Definition newEvents {B} (before after : World B) : list Event :=
  skipn (List.length (events before)) (events after).

(** The answer to the last authorization check among the events. *)
Definition lastAnswer (evs : list Event) : option (option error) :=
  fold_left (fun acc ev =>
               match ev with
               | Checked _ answer => Some answer
               | Delegated _ => acc
               end) evs None.

(** The methods of the enterprise operator called among the events. *)
Definition delegations (evs : list Event) : list Method :=
  flat_map (fun ev =>
              match ev with
              | Delegated m => [m]
              | Checked _ _ => []
              end) evs.

Definition startsWithCheck (evs : list Event) : bool :=
  match evs with
  | Checked _ _ :: _ => true
  | _ => false
  end.

(** *** Instances for examples *)

Definition denied : error := AccessDenied "access denied".

(** An authorizer that refuses everything. *)
Definition denyAll : OssOperatorACL :=
  mkOssOperatorACL (fun _ _ _ => Some denied) (fun _ _ => Some denied) (fun _ _ => Some denied).

(** An enterprise operator without state that answers every call with
    empty content. *)
Definition hollow : Operator unit :=
  mkOperator unit
    (fun _ b => (Ok (blob ""), b))
    (fun _ b => (None, b))
    (fun _ b => (Ok (blob ""), b))
    (fun _ _ _ b => (None, b))
    (fun _ b => (Ok (blob ""), b))
    (fun _ _ b => (None, b))
    (fun _ _ b => (None, b))
    (fun _ _ b => (None, b))
    (fun _ b => (None, b))
    (fun _ b => (None, b))
    (fun _ b => (Ok (blob ""), b))
    (fun _ _ _ b => (None, b))
    (fun _ _ b => (None, b))
    (fun _ b => (Ok [], b))
    (fun _ _ b => (Ok (blob ""), b))
    (fun _ b => (Ok (blob ""), b))
    (fun _ b => (None, b))
    (fun _ _ b => (Ok "", b))
    (fun _ _ b => (None, b))
    (fun _ _ b => (None, b))
    (fun b => (Ok "certificate", b))
    (fun _ _ _ b => (None, b))
    (fun _ _ b => (Ok (mkRole [] (blob "")), b))
    (fun _ b => (Ok [], b))
    (fun _ _ _ b => (None, b))
    (fun _ _ _ b => (None, b))
    (fun _ _ _ b => (Ok (blob ""), b))
    (fun _ _ b => (Ok [], b))
    (fun _ _ _ b => (None, b))
    (fun _ _ _ b => (None, b))
    (fun _ _ _ b => (Ok (blob ""), b))
    (fun _ _ b => (Ok [], b))
    (fun _ _ _ b => (None, b)).

Definition guarded : OperatorACL unit := OperatorWithACL denyAll hollow.

Definition fresh : World unit := mkWorld tt [].

End wrapper.

(** ** More about the accessors *)

Module reads.
Import trace ops accessor.

(** The accessors that return all active operations. *)
Definition isActiveQuery (a : Accessor) : bool :=
  match a with
  | ActiveOperations | ActiveOperationsByType _ => true
  | _ => false
  end.

(** What the backend answers to the accessor's filter, and the backend
    after that answer. *)
Definition answer {B} (d : Decls) (operator : Operator B) (a : Accessor)
    (siteKey : SiteKey) (w : World B) : result (list SiteOperation) :=
  fst (implGetSiteOperations operator siteKey (filterOf d a) (backend w)).

Definition answered {B} (d : Decls) (operator : Operator B) (a : Accessor)
    (siteKey : SiteKey) (w : World B) : B :=
  snd (implGetSiteOperations operator siteKey (filterOf d a) (backend w)).

(** Where an error returned by an accessor comes from. *)
Inductive Origin {B} (d : Decls) (operator : Operator B) (a : Accessor)
    (siteKey : SiteKey) (w : World B) (e' : error) : Prop :=
| NothingFound :
    answer d operator a siteKey w = Ok [] -> IsNotFound e' = true ->
    Origin d operator a siteKey w e'
| ListingFailed (e : error) :
    answer d operator a siteKey w = Err e -> Unwrap e' = Unwrap e ->
    Origin d operator a siteKey w e'
| ProgressFailed (op : SiteOperation) (rest : list SiteOperation) (e : error) :
    answer d operator a siteKey w = Ok (op :: rest) ->
    fetchesProgress a = true ->
    fst (implGetSiteOperationProgress operator (opKey op) (answered d operator a siteKey w))
    = Err e ->
    Unwrap e' = Unwrap e ->
    Origin d operator a siteKey w e'.

End reads.

(** ** More about the executor *)

Module events.
Import trace server.

Definition seqOf (m : Message) : Z :=
  match m with
  | ExecStarted _ s => s
  | ExecOutput _ _ s => s
  | ExecCompleted s _ _ => s
  end.

(** An output event of the command with sequence number [s]. *)
Definition isOutputOf (s : Z) (m : Message) : bool :=
  isOutput m && Z.eqb (seqOf m) s.

(** The sends, and the messages handed to the stream, between two worlds. *)
Definition newSends (before after : World) : list (Message * option error) :=
  skipn (List.length (sends before)) (sends after).

Definition newMessages (before after : World) : list Message :=
  map fst (newSends before after).

Definition newWarnings (before after : World) : list (error * Message) :=
  skipn (List.length (warnings before)) (warnings after).

(** The chunks of a process as output events of the command [s]. *)
Definition tagged (s : Z) (chunks : list (FD * string)) : list Message :=
  map (fun c => ExecOutput (fst c) (snd c) s) chunks.

(** A stream that delivers every output event. *)
Definition deliversOutput (stream : OutgoingMessageStream) : Prop :=
  forall (h : list Message) (m : Message), isOutput m = true -> stream h m = None.

(** The warning a send with result [r] of a started or completed event
    leaves in the log. *)
Definition note (m : Message) (r : option error) : list (error * Message) :=
  match r with
  | Some e => [(e, m)]
  | None => []
  end.

(** The sends of started and completed events that failed. *)
Definition failedNotifications (l : list (Message * option error)) : list (error * Message) :=
  flat_map (fun x => if isOutput (fst x) then [] else note (fst x) (snd x)) l.

(** The completed event [final] says what the call returned. *)
Definition reports (s : Z) (final : Message) (o : Outcome) : Prop :=
  match o with
  | Returned None => final = ExecCompleted s 0 None
  | Returned (Some e) =>
      exists err, final = ExecCompleted s (int32 (exitCodeOf err)) (Some err) /\ e = Wrap err
  | Panicked => False
  end.

Definition inInt32 (z : Z) : Prop := (- 2 ^ 31 <= z < 2 ^ 31)%Z.

(** *** A system for examples *)

(** Every command prints a line, then a complaint, and exits with status
    0; the line is copied before the started event is sent. *)
Definition eager : OS :=
  mkOS (fun name => name)
       (fun _ => Started (mkProcess [(STDOUT, "hello"); (STDERR, "oops")] 1 Success)).

End events.

(** ** More about the ACL operator *)

Module authz.
Import trace acl wrapper.

(** The calls whose only business after authorization is to delegate. *)
Definition plain (i : Invocation) : bool :=
  match i with
  | CallUpsertRole _ _ _ | CallDeleteRole _ _ _ => false
  | _ => true
  end.

(** The role action [v] is allowed. *)
Definition allowed (acl : OssOperatorACL) (v : Verb) : Prop :=
  checkAction acl KindRole v = None.

(** The events of asking for the role actions [vs], all allowed. *)
Definition allowedChecks (vs : list Verb) : list Event :=
  map (fun v => Checked (AskAction KindRole v) None) vs.

(** The role carries the system label. *)
Definition isSystemRole (SystemLabel True_ : string) (r : Role) : bool :=
  String.eqb (label r SystemLabel) True_.

(** *** Instances for examples *)

(** An authorizer that allows everything. *)
Definition allowAll : OssOperatorACL :=
  mkOssOperatorACL (fun _ _ _ => None) (fun _ _ => None) (fun _ _ => None).

(** An authorizer that refuses every cluster action and allows the rest. *)
Definition rolesOnly : OssOperatorACL :=
  mkOssOperatorACL (fun _ _ _ => Some denied) (fun _ _ => None) (fun _ _ => None).

(** An authorizer that allows reading roles but not listing them. *)
Definition readNotList : OssOperatorACL :=
  mkOssOperatorACL (fun _ _ _ => Some denied)
    (fun _ v => match v with VerbList => Some denied | _ => None end)
    (fun _ _ => None).

Definition open : OperatorACL unit := OperatorWithACL allowAll hollow.

Definition systemRole : Role := mkRole [("gravitational.io/system", "true")] (blob "").

Definition key0 : ops.SiteKey := ops.mkSiteKey "system" "example.com".

End authz.

(** ** About the system account *)

Module upsert.
Import trace accounts.

(** The calls made between two worlds. *)
Definition newCalls {B} (w w' : World B) : list Call :=
  skipn (List.length (calls w)) (calls w').

(** The account belongs to the organization. *)
Definition ofOrg (org : string) (a : Account) : bool :=
  String.eqb (acc_Org a) org.

(** Two laws of an account store.  A listing does not change what the
    next listing answers. *)
Definition listingIsStable {B} (operator : Operator B) : Prop :=
  forall b l b1,
    implGetAccounts operator b = (Ok l, b1) ->
    exists b2, implGetAccounts operator b1 = (Ok l, b2).

(** An account that was created is listed afterwards, under the
    organization it was created for. *)
Definition listsWhatItCreates {B} (operator : Operator B) : Prop :=
  forall r b a b',
    implCreateAccount operator r b = (Ok a, b') ->
    exists l b2,
      implGetAccounts operator b' = (Ok l, b2)
      /\ existsb (ofOrg (nar_Org r)) l = true.

(** *** Instances for examples *)

(** A store that keeps the accounts in a list. *)
Definition memory : Operator (list Account) :=
  mkOperator (list Account)
    (fun b => (Ok b, b))
    (fun r b => let a := mkAccount (nar_ID r) (nar_Org r) in (Ok a, (b ++ [a])%list)).

Definition guest : Account := mkAccount "7" "example.com".
Definition system1 : Account := mkAccount "1" "gravitational.io".
Definition system2 : Account := mkAccount "2" "gravitational.io".

End upsert.

(** ** About the expand operation *)

Module growth.
Import trace expand.

(** The operation is of the type. *)
Definition ofType (opType : string) (operation : ops.SiteOperation) : bool :=
  String.eqb (ops.op_Type operation) opType.

(** *** Instances for examples *)

(** A backend that keeps one cluster and its operations. *)
Definition single (cluster : ops.Site) (operations : list ops.SiteOperation)
  : Backend unit :=
  mkBackend unit
    (fun _ b => (Ok cluster, b))
    (fun domain b =>
       if String.eqb domain (ops.site_Domain cluster) then (Ok operations, b)
       else (Err (NotFound "no such cluster"), b)).

(** A backend without a local cluster. *)
Definition vacant : Backend unit :=
  mkBackend unit
    (fun _ b => (Err (NotFound "no local cluster"), b))
    (fun _ b => (Err (NotFound "no such cluster"), b)).

Definition cluster1 : ops.Site := ops.mkSite "system" "example.com".

Definition expandOld : ops.SiteOperation :=
  ops.mkSiteOperation "op3" "system" "example.com" "operation_expand"
    (ops.mkTime 50 ops.LocUTC) "failed".
Definition expandNew : ops.SiteOperation :=
  ops.mkSiteOperation "op4" "system" "example.com" "operation_expand"
    (ops.mkTime 300 ops.LocUTC) "completed".

End growth.

(** ** About the values of a context *)

Module attachments.
Import ctxvalues.

Section Attach.
Context {OperatorT WebSessionT : Type}.

(** One value attached to a context: by one of the three functions of
    this package, or by other code under a key of its own. *)
Inductive Attachment :=
| AUser (user : string)
| AOperator (operator : option OperatorT)
| ASession (session : option WebSessionT)
| AForeign (name : string) (val : Value OperatorT WebSessionT).

Definition attach (ctx : Context OperatorT WebSessionT) (a : Attachment)
  : Context OperatorT WebSessionT :=
  match a with
  | AUser user => NewUserContext ctx user
  | AOperator operator => NewOperatorContext ctx operator
  | ASession session => NewSessionContext ctx session
  | AForeign name val => WithValue ctx (foreignKey name) val
  end.

(** The attachments made one after the other, the first of the list
    first. *)
Definition attachAll (ctx : Context OperatorT WebSessionT) (l : list Attachment)
  : Context OperatorT WebSessionT :=
  fold_left attach l ctx.

(** The user attached last in the list, if any is. *)
Definition lastUser (l : list Attachment) : option string :=
  fold_left (fun acc a => match a with AUser user => Some user | _ => acc end) l None.

Definition lastOperator (l : list Attachment) : option (option OperatorT) :=
  fold_left (fun acc a => match a with AOperator operator => Some operator | _ => acc end)
    l None.

Definition lastSession (l : list Attachment) : option (option WebSessionT) :=
  fold_left (fun acc a => match a with ASession session => Some session | _ => acc end)
    l None.

End Attach.
Arguments Attachment : clear implicits.

End attachments.

(** ** About chart names and values *)

Module charts.

(** The byte does not occur in the string. *)
Definition free (c : ascii) (s : string) : bool :=
  negb (existsb (Ascii.eqb c) (list_ascii_of_string s)).

Definition isSome {A} (x : option A) : bool :=
  match x with
  | Some _ => true
  | None => false
  end.

(** *** Instances for examples *)

(** The values [{image: {tag: "1.0"}, replicas: "3"}]. *)
Definition sample : string -> option helm.Value :=
  fun k =>
    if String.eqb k "image"
    then Some (helm.Values (fun k' => if String.eqb k' "tag" then Some (helm.Scalar "1.0")
                                      else None))
    else if String.eqb k "replicas" then Some (helm.Scalar "3")
    else None.

End charts.

(* ===================================================================== *)
(** * Properties *)
(* ===================================================================== *)

(** ** [strings.TrimSpace] in front of a prefix that ends in a blank *)

Section TrimProperties.
Import strings scan.

Lemma cutPrefix_app (p a r b : list ascii) :
  cutPrefix p a = Some r -> cutPrefix p (a ++ b) = Some (r ++ b)%list.
Proof.
  revert a; induction p as [|x p IH]; intros a H; simpl in *.
  - now inversion H.
  - destruct a as [|y a]; [discriminate|]. simpl.
    destruct (Ascii.eqb x y); [now apply IH | discriminate].
Qed.

Lemma cutPrefix_length (p s r : list ascii) :
  cutPrefix p s = Some r -> List.length s = List.length p + List.length r.
Proof.
  revert s; induction p as [|x p IH]; intros s H; simpl in *.
  - now inversion H.
  - destruct s as [|y s]; [discriminate|].
    destruct (Ascii.eqb x y); [|discriminate].
    simpl. now rewrite (IH _ H).
Qed.

Lemma cutAny_shorter (ps : list (list ascii)) (s r : list ascii) :
  forallb nonEmpty ps = true -> cutAny ps s = Some r -> List.length r < List.length s.
Proof.
  induction ps as [|p ps IH]; simpl; intros Hne H; [discriminate|].
  apply andb_prop in Hne as [Hp Hps].
  destruct (cutPrefix p s) as [r'|] eqn:E.
  - inversion H; subst r'. apply cutPrefix_length in E.
    destruct p; [discriminate|]. simpl in E. lia.
  - now apply IH.
Qed.

Lemma trimFuel_enough (ps : list (list ascii)) (n m : nat) (s : list ascii) :
  forallb nonEmpty ps = true ->
  List.length s <= n -> List.length s <= m -> trimFuel ps n s = trimFuel ps m s.
Proof.
  intros Hne. revert m s; induction n as [|n IH]; intros m s Hn Hm.
  - destruct s; [|simpl in Hn; lia].
    destruct m; simpl; [reflexivity|].
    destruct (cutAny ps []) as [r|] eqn:E; [|reflexivity].
    apply cutAny_shorter in E; [simpl in E; lia | assumption].
  - destruct m as [|m].
    + destruct s; [|simpl in Hm; lia]. simpl.
      destruct (cutAny ps []) as [r|] eqn:E; [|reflexivity].
      apply cutAny_shorter in E; [simpl in E; lia | assumption].
    + simpl. destruct (cutAny ps s) as [r|] eqn:E; [|reflexivity].
      pose proof (cutAny_shorter ps s r Hne E). apply IH; lia.
Qed.

(** One step of the scan. *)
Lemma trimFuel_step (ps : list (list ascii)) (s : list ascii) :
  forallb nonEmpty ps = true ->
  trimFuel ps (List.length s) s =
  match cutAny ps s with
  | Some r => trimFuel ps (List.length r) r
  | None => s
  end.
Proof.
  intros Hne. destruct (cutAny ps s) as [r|] eqn:E.
  - pose proof (cutAny_shorter ps s r Hne E) as Hlt.
    destruct (List.length s) as [|n] eqn:El; [lia|].
    simpl. rewrite E. apply trimFuel_enough; [assumption| lia | lia].
  - destruct (List.length s); simpl; [reflexivity | now rewrite E].
Qed.

Lemma cutPrefix_blank_free (p a b : list ascii) :
  existsb (Ascii.eqb " ") p = false ->
  cutPrefix p a = None -> cutPrefix p (a ++ " "%char :: b) = None.
Proof.
  revert a; induction p as [|x p IH]; intros a Hp H; [discriminate|].
  cbn [existsb] in Hp. apply orb_false_elim in Hp as [Hx Hp].
  destruct a as [|y a]; cbn [cutPrefix app] in *.
  - rewrite Ascii.eqb_sym in Hx. now rewrite Hx.
  - destruct (Ascii.eqb x y); [now apply IH | reflexivity].
Qed.

Lemma cutPrefix_no_straddle (p a b : list ascii) :
  blankFreeTail p = true -> a <> [] ->
  cutPrefix p a = None -> cutPrefix p (a ++ " "%char :: b) = None.
Proof.
  intros Hp Ha H. destruct p as [|x p]; [discriminate|].
  destruct a as [|y a]; [congruence|]. cbn [cutPrefix app blankFreeTail] in *.
  destruct (Ascii.eqb x y); [|reflexivity].
  apply cutPrefix_blank_free; [|assumption].
  now apply negb_true_iff in Hp.
Qed.

Lemma cutAny_app (ps : list (list ascii)) (a b : list ascii) :
  forallb blankFreeTail ps = true -> a <> [] ->
  cutAny ps (a ++ " "%char :: b) =
  match cutAny ps a with
  | Some r => Some (r ++ " "%char :: b)%list
  | None => None
  end.
Proof.
  intros Hps Ha. induction ps as [|p ps IH]; simpl; [reflexivity|].
  simpl in Hps. apply andb_prop in Hps as [Hp Hps].
  destruct (cutPrefix p a) as [r|] eqn:E.
  - now rewrite (cutPrefix_app _ _ _ _ E).
  - rewrite (cutPrefix_no_straddle p a b Hp Ha E). now apply IH.
Qed.

Lemma reversedSpaces_nonEmpty : forallb nonEmpty reversedSpaces = true.
Proof. reflexivity. Qed.

Lemma reversedSpaces_blankFree : forallb blankFreeTail reversedSpaces = true.
Proof. reflexivity. Qed.

(** Scanning [a] followed by a blank and [b]: the scan stops inside [a]
    unless all of [a] is white space, and then goes on with the blank. *)
Lemma trim_before_blank (b : list ascii) (n : nat) (a : list ascii) :
  List.length a <= n ->
  trimFuel reversedSpaces (List.length (a ++ " "%char :: b)) (a ++ " "%char :: b) =
  match trimFuel reversedSpaces (List.length a) a with
  | [] => trimFuel reversedSpaces (List.length (" "%char :: b)) (" "%char :: b)
  | t => (t ++ " "%char :: b)%list
  end.
Proof.
  revert a; induction n as [|n IH]; intros a Hn.
  - destruct a; [reflexivity | simpl in Hn; lia].
  - destruct a as [|y a]; [reflexivity|].
    rewrite (trimFuel_step _ ((y :: a) ++ _) reversedSpaces_nonEmpty).
    rewrite (trimFuel_step _ (y :: a) reversedSpaces_nonEmpty).
    rewrite (cutAny_app _ (y :: a) b reversedSpaces_blankFree) by discriminate.
    destruct (cutAny reversedSpaces (y :: a)) as [r|] eqn:E.
    + apply IH. pose proof (cutAny_shorter _ _ _ reversedSpaces_nonEmpty E) as Hlt.
      simpl in Hlt, Hn. lia.
    + reflexivity.
Qed.

Lemma list_ascii_of_string_app (s t : string) :
  list_ascii_of_string (s ++ t) = (list_ascii_of_string s ++ list_ascii_of_string t)%list.
Proof. induction s as [|c s IH]; simpl; [reflexivity | now rewrite IH]. Qed.

Lemma string_of_list_ascii_app (l k : list ascii) :
  string_of_list_ascii (l ++ k) = string_of_list_ascii l ++ string_of_list_ascii k.
Proof. induction l as [|c l IH]; simpl; [reflexivity | now rewrite IH]. Qed.

Lemma string_of_list_ascii_nil (l : list ascii) :
  String.eqb (string_of_list_ascii l) "" = match l with [] => true | _ => false end.
Proof. destruct l; reflexivity. Qed.

(** The message FailOperation stores for a non-empty [m]: only the white
    space at the end of [m] is removed; when [m] is white space only, the
    blank that ends the prefix goes as well. *)
Lemma TrimSpace_failure_prefix (m : string) :
  TrimSpace ("Operation failure: " ++ m) =
  if String.eqb (TrimRight m) "" then "Operation failure:"
  else "Operation failure: " ++ TrimRight m.
Proof.
  unfold TrimSpace, TrimRight.
  rewrite list_ascii_of_string_app.
  set (lm := list_ascii_of_string m).
  assert (Hleft : trimLeftBytes (list_ascii_of_string "Operation failure: " ++ lm)
                  = (list_ascii_of_string "Operation failure: " ++ lm)%list)
    by reflexivity.
  rewrite Hleft. unfold trimRightBytes.
  rewrite rev_app_distr.
  change (rev (list_ascii_of_string "Operation failure: "))
    with (" "%char :: rev (list_ascii_of_string "Operation failure:")).
  rewrite <- (length_rev (_ ++ lm)), rev_app_distr.
  change (rev (list_ascii_of_string "Operation failure: "))
    with (" "%char :: rev (list_ascii_of_string "Operation failure:")).
  fold reversedSpaces.
  rewrite (trim_before_blank _ (List.length (rev lm)) (rev lm) (le_n _)).
  rewrite string_of_list_ascii_nil.
  rewrite (length_rev lm).
  destruct (trimFuel reversedSpaces (List.length lm) (rev lm)) as [|c t] eqn:E.
  - reflexivity.
  - rewrite rev_app_distr.
    change (rev (" "%char :: rev (list_ascii_of_string "Operation failure:")))
      with (list_ascii_of_string "Operation failure: ").
    rewrite string_of_list_ascii_app.
    destruct (rev (c :: t)) as [|c' t'] eqn:E'; [|reflexivity].
    apply (f_equal (@List.length ascii)) in E'. rewrite length_rev in E'. discriminate.
Qed.

End TrimProperties.

(** ** Operation store accessor *)

Section AccessorProperties.
Import trace ops accessor.
Context {B : Type} (d : Decls) (operator : Operator B).

(** Unfolds one run of the state monad down to the operator's answers. *)
Ltac unfold_run :=
  unfold GetInstallOperation, GetLastUninstallOperation, GetLastCompletedUpdateOperation,
    GetCompletedInstallOperation, GetLastOperation, GetLastFinishedOperation,
    GetLastUpgradeOperation, GetLastShrinkOperation, GetActiveOperations,
    GetActiveOperationsByType, GetWizardOperation, GetSiteOperations,
    GetSiteOperationProgress, GetSites, bind, ret, invoke; simpl.

Lemma appendAll_from (acc l : list SiteOperation) :
  fold_left (fun active op => (active ++ [op])%list) l acc = (acc ++ l)%list.
Proof.
  revert acc; induction l as [|x l IH]; intros acc; simpl.
  - now rewrite app_nil_r.
  - rewrite IH, <- app_assoc. reflexivity.
Qed.

Lemma appendAll_id (l : list SiteOperation) : appendAll l = l.
Proof. unfold appendAll. now rewrite appendAll_from. Qed.

(** C4. Whenever the backend's answer to the accessor's filter is empty,
    the accessor fails with a NotFound error; in particular it never
    succeeds with an empty value.  This holds for every cluster key and
    each of the ten filtering accessors. *)
Theorem empty_result_is_NotFound (a : Accessor) (siteKey : SiteKey) (w : World B) :
  fst (implGetSiteOperations operator siteKey (filterOf d a) (backend w)) = Ok [] ->
  exists e, fst (found d operator a siteKey w) = Err e /\ IsNotFound e = true.
Proof.
  intros H.
  destruct a; unfold found; unfold_run; simpl in H;
    destruct (implGetSiteOperations operator siteKey _ (backend w)) as [r b'];
    simpl in H; subst r; simpl; eexists; split; reflexivity.
Qed.




(** C9. With exactly one cluster known for the system account,
    GetWizardOperation returns that cluster's install operation: it asks
    the backend for the operations of the cluster's key with the install
    filter and returns the first operation of the answer, once the
    progress of that operation could be fetched (the progress itself is
    dropped); these are all the calls it makes.  An empty answer gives a
    NotFound error, and an error of either lookup is passed on, wrapped;
    in each case the call is GetInstallOperation for the cluster's key.
    With any other number of clusters it fails with a BadParameter error
    and the only operator method it has invoked is GetSites: no operations
    are looked up. *)
Theorem wizard_operation_needs_one_cluster (w : World B) (cs : list Site) :
  fst (implGetSites operator (SystemAccountID d) (backend w)) = Ok cs ->
  match cs with
  | [c] =>
      GetWizardOperation d operator w =
      (let (r, w2) := GetInstallOperation d operator (siteKeyOf c) (afterGetSites d operator w) in
       (match r with
        | Ok (op, _) => Ok op
        | Err e => Err (Wrap e)
        end, w2))
      /\ (forall op rest,
             answers d operator InstallOperation (siteKeyOf c) (afterGetSites d operator w)
               (op :: rest) ->
             (forall p,
                 fst (implGetSiteOperationProgress operator (opKey op)
                        (snd (implGetSiteOperations operator (siteKeyOf c)
                                (filterOf d InstallOperation)
                                (backend (afterGetSites d operator w))))) = Ok p ->
                 fst (GetWizardOperation d operator w) = Ok op)
             /\ (forall e,
                    fst (implGetSiteOperationProgress operator (opKey op)
                           (snd (implGetSiteOperations operator (siteKeyOf c)
                                   (filterOf d InstallOperation)
                                   (backend (afterGetSites d operator w))))) = Err e ->
                    fst (GetWizardOperation d operator w) = Err (Wrap (Wrap e)))
             /\ calls (snd (GetWizardOperation d operator w))
                = (calls w ++ [CallGetSites (SystemAccountID d);
                               CallGetSiteOperations (siteKeyOf c)
                                 (filterOf d InstallOperation);
                               CallGetSiteOperationProgress (opKey op)])%list)
      /\ (answers d operator InstallOperation (siteKeyOf c) (afterGetSites d operator w) [] ->
          (exists e, fst (GetWizardOperation d operator w) = Err e /\ IsNotFound e = true)
          /\ calls (snd (GetWizardOperation d operator w))
             = (calls w ++ [CallGetSites (SystemAccountID d);
                            CallGetSiteOperations (siteKeyOf c)
                              (filterOf d InstallOperation)])%list)
      /\ (forall e,
             fst (implGetSiteOperations operator (siteKeyOf c) (filterOf d InstallOperation)
                    (backend (afterGetSites d operator w))) = Err e ->
             fst (GetWizardOperation d operator w) = Err (Wrap (Wrap e)))
  | _ =>
      (exists e, fst (GetWizardOperation d operator w) = Err e /\ IsBadParameter e = true)
      /\ calls (snd (GetWizardOperation d operator w))
         = (calls w ++ [CallGetSites (SystemAccountID d)])%list
  end.
Proof.
  intros H. unfold afterGetSites, answers.
  destruct (implGetSites operator (SystemAccountID d) (backend w)) as [r b'] eqn:E.
  simpl in H; subst r.
  unfold GetWizardOperation, GetSites, bind, invoke. rewrite E.
  destruct cs as [|c [|c' cs']]; cbn [fst snd backend calls clockReads].
  - split; [eexists; split; reflexivity | reflexivity].
  - split; [|split; [|split]].
    + destruct (GetInstallOperation d operator (siteKeyOf c) _) as [[[op p]|e] w2];
        reflexivity.
    + intros op rest Hans.
      unfold GetInstallOperation, GetSiteOperations, GetSiteOperationProgress, bind, invoke,
        ret. cbn [filterOf fst snd backend calls clockReads] in *.
      destruct (implGetSiteOperations operator (siteKeyOf c) _ b') as [l b2].
      cbn [fst snd] in *. subst l. cbn [fst snd backend calls clockReads].
      destruct (implGetSiteOperationProgress operator (opKey op) b2) as [[p|e] b3];
        cbn [fst snd backend calls clockReads]; rewrite <- !app_assoc; cbn [app];
        repeat split; intros; try congruence.
    + intros Hans.
      unfold GetInstallOperation, GetSiteOperations, bind, invoke, ret.
      cbn [filterOf fst snd backend calls clockReads] in *.
      destruct (implGetSiteOperations operator (siteKeyOf c) _ b') as [l b2].
      cbn [fst snd] in *. subst l. cbn [fst snd backend calls clockReads].
      rewrite <- !app_assoc. split; [eexists; split; reflexivity | reflexivity].
    + intros e Hans.
      unfold GetInstallOperation, GetSiteOperations, bind, invoke, ret.
      cbn [filterOf fst snd backend calls clockReads] in *.
      destruct (implGetSiteOperations operator (siteKeyOf c) _ b') as [l b2].
      cbn [fst snd] in *. subst l. reflexivity.
  - split; [eexists; split; reflexivity | reflexivity].
Qed.

End AccessorProperties.

(** C4 at work: the last shrink operation of a cluster without operations. *)
Lemma empty_result_is_NotFound_witness :
  exists e,
    fst (accessor.found accessor.decls accessor.shelfOperator accessor.LastShrinkOperation
           accessor.site1 (accessor.world0 [] true [])) = trace.Err e
    /\ trace.IsNotFound e = true.
Proof.
  apply (empty_result_is_NotFound accessor.decls accessor.shelfOperator
           accessor.LastShrinkOperation accessor.site1 (accessor.world0 [] true [])).
  reflexivity.
Defined.



(** C9 at work: one cluster, whose backend lists the install operation
    before an update. *)
Lemma wizard_operation_needs_one_cluster_witness :
  fst (ops.GetWizardOperation accessor.decls accessor.shelfOperator
         (accessor.world0 [accessor.op0; accessor.op1] true [accessor.cluster0]))
  = trace.Ok accessor.op0.
Proof.
  exact (proj1 (proj1 (proj2 (wizard_operation_needs_one_cluster accessor.decls
                                accessor.shelfOperator
                                (accessor.world0 [accessor.op0; accessor.op1] true
                                   [accessor.cluster0])
                                [accessor.cluster0] eq_refl))
                  accessor.op0 [accessor.op1] eq_refl)
           (accessor.entryFor (ops.opKey accessor.op0)) eq_refl).
Defined.

(** ** Operation state controller *)

Section ControllerProperties.
Import trace ops controller.
Context {B : Type} (d : Decls) (clock : nat -> Time).

Lemma newCalls_app (w w' : World B) (cs : list Call) :
  calls w' = (calls w ++ cs)%list -> newCalls w w' = cs.
Proof.
  intros H. unfold newCalls. rewrite H.
  rewrite skipn_app, skipn_all, Nat.sub_diag. reflexivity.
Qed.

Lemma Unwrap_Wrap (e : error) : Unwrap (Wrap e) = Unwrap e.
Proof. destruct e; reflexivity. Qed.

Lemma CompleteOperation_run (ctx : Context) (key : SiteOperationKey)
    (setter : OperationStateSetter B) (w : World B) :
  CompleteOperation d clock ctx key setter w =
  (fst (setter ctx key (completedRequest d key (clock (clockReads w))) (backend w)),
   mkWorld (snd (setter ctx key (completedRequest d key (clock (clockReads w))) (backend w)))
     (calls w ++ [CallSetOperationState key (completedRequest d key (clock (clockReads w)))])
     (S (clockReads w))).
Proof.
  unfold CompleteOperation, SetOperationState, Now, bind, invoke, completedRequest,
    completedEntry. cbn [backend calls clockReads].
  now destruct (setter ctx key _ (backend w)).
Qed.

(** C5. CompleteOperation hands the setter exactly one request: state
    Completed with one terminal progress entry that carries the final
    step, the completion marker, the message "Operation has completed"
    and the clock reading in UTC; what the setter answers is returned.
    Done twice, two such requests are handed over, one after the other:
    nothing at this layer makes the second call a no-op. *)
Theorem complete_hands_over_one_terminal_entry (ctx : Context) (key : SiteOperationKey)
    (setter : OperationStateSetter B) (w : World B) :
  let n := clockReads w in
  let once := CompleteOperation d clock ctx key setter w in
  let twice := CompleteOperation d clock ctx key setter (snd once) in
  newCalls w (snd once)
    = [CallSetOperationState key
         (mkSetOperationStateRequest (OperationStateCompleted d)
            (Some (mkProgressEntry (ok_SiteDomain key) (ok_OperationID key)
                     (FinalStep d) (Completed d) (ProgressStateCompleted d)
                     "Operation has completed" (UTC (clock n)))))]
  /\ fst once = fst (setter ctx key (completedRequest d key (clock n)) (backend w))
  /\ backend (snd once) = snd (setter ctx key (completedRequest d key (clock n)) (backend w))
  /\ newCalls w (snd twice)
     = [CallSetOperationState key (completedRequest d key (clock n));
        CallSetOperationState key (completedRequest d key (clock (S n)))].
Proof.
  cbv zeta. rewrite !CompleteOperation_run. cbn [fst snd backend calls clockReads].
  repeat split.
  - now apply newCalls_app.
  - apply newCalls_app. cbn [calls]. now rewrite <- app_assoc.
Qed.

Lemma TrimSpace_failureMessage (m : string) :
  strings.TrimSpace (failureMessage m) = failureText m.
Proof.
  unfold failureMessage, failureText.
  destruct (String.eqb m "") eqn:E; [reflexivity|].
  apply TrimSpace_failure_prefix.
Qed.

(** What FailOperation does, with the message as the code computes it. *)
Lemma FailOperation_raw (ctx : Context) (key : SiteOperationKey)
    (setter : OperationStateSetter B) (m : string) (w : World B) :
  let request :=
    mkSetOperationStateRequest (OperationStateFailed d)
      (Some (mkProgressEntry (ok_SiteDomain key) (ok_OperationID key) (FinalStep d)
               (Completed d) (ProgressStateFailed d)
               (strings.TrimSpace (failureMessage m)) (UTC (clock (clockReads w))))) in
  FailOperation d clock ctx key setter m w =
  (fst (setter ctx key request (backend w)),
   mkWorld (snd (setter ctx key request (backend w)))
     (calls w ++ [CallSetOperationState key request]) (S (clockReads w))).
Proof.
  cbv zeta. unfold FailOperation, SetOperationState, Now, bind, invoke.
  cbn [backend calls clockReads].
  now destruct (setter ctx key _ (backend w)).
Qed.

Lemma FailOperation_run (ctx : Context) (key : SiteOperationKey)
    (setter : OperationStateSetter B) (m : string) (w : World B) :
  FailOperation d clock ctx key setter m w =
  (fst (setter ctx key (failedRequest d key m (clock (clockReads w))) (backend w)),
   mkWorld (snd (setter ctx key (failedRequest d key m (clock (clockReads w))) (backend w)))
     (calls w ++ [CallSetOperationState key (failedRequest d key m (clock (clockReads w)))])
     (S (clockReads w))).
Proof.
  rewrite FailOperation_raw. unfold failedRequest, failedEntry.
  now rewrite TrimSpace_failureMessage.
Qed.

(** C6 (as amended). FailOperation hands the setter exactly one request:
    state Failed with one terminal progress entry whose message is
    "Operation failure" when the caller's message [m] is empty, and
    otherwise "Operation failure: " followed by [m] with the white space at
    its end removed, white space at the start of [m] being kept ("Operation
    failure:" alone when [m] is nothing but white space).  For "disk full"
    that is exactly "Operation failure: disk full". *)
Theorem fail_hands_over_failure_entry (ctx : Context) (key : SiteOperationKey)
    (setter : OperationStateSetter B) (m : string) (w : World B) :
  newCalls w (snd (FailOperation d clock ctx key setter m w))
    = [CallSetOperationState key
         (mkSetOperationStateRequest (OperationStateFailed d)
            (Some (mkProgressEntry (ok_SiteDomain key) (ok_OperationID key)
                     (FinalStep d) (Completed d) (ProgressStateFailed d)
                     (failureText m) (UTC (clock (clockReads w))))))]
  /\ fst (FailOperation d clock ctx key setter m w)
     = fst (setter ctx key (failedRequest d key m (clock (clockReads w))) (backend w))
  /\ failureText "disk full" = "Operation failure: disk full"
  /\ failureText "" = "Operation failure".
Proof.
  rewrite FailOperation_run. cbn [fst snd]. repeat split.
  now apply newCalls_app.
Qed.

(** C7. When the Fail step of FailOperationAndResetCluster returns an
    error, that error (wrapped, its original error unchanged) is what the
    caller gets, and the world is left as the Fail step left it:
    ActivateSite is not invoked.  When the Fail step succeeds, ActivateSite
    is invoked next, once, for the operation's account and cluster, and
    its error, if any, is returned wrapped. *)
Theorem reset_only_after_fail_succeeds (ctx : Context) (key : SiteOperationKey)
    (operator : Operator B) (m : string) (w : World B) :
  let failed := FailOperation d clock ctx key (implSetOperationState operator) m w in
  let both := FailOperationAndResetCluster d clock ctx key operator m w in
  let request := mkActivateSiteRequest (ok_AccountID key) (ok_SiteDomain key) in
  match fst failed with
  | Some err =>
      both = (Some (Wrap err), snd failed)
      /\ Unwrap (Wrap err) = Unwrap err
      /\ existsb isActivateSite (newCalls w (snd both)) = false
  | None =>
      newCalls w (snd both) = (newCalls w (snd failed) ++ [CallActivateSite request])%list
      /\ fst both = option_map Wrap (fst (implActivateSite operator request (backend (snd failed))))
  end.
Proof.
  cbv zeta. unfold FailOperationAndResetCluster, bind.
  rewrite FailOperation_raw. cbn [fst snd].
  destruct (fst (implSetOperationState operator ctx key _ (backend w))) as [err|].
  - unfold ret. repeat split.
    + apply Unwrap_Wrap.
    + cbn [snd]. erewrite newCalls_app by reflexivity. reflexivity.
  - unfold ActivateSite, invoke. cbn [backend calls clockReads].
    destruct (implActivateSite operator _ _) as [[e|] b']; cbn [fst snd]; split;
      try reflexivity;
      (erewrite newCalls_app by (cbn [calls]; rewrite <- app_assoc; reflexivity));
      (erewrite newCalls_app by reflexivity); reflexivity.
Qed.

End ControllerProperties.

(** C6, the statement as given fails: white space at the start of the
    caller's message is not removed.  For " disk full" the entry's message
    keeps the blank after the prefix's own blank, while the message trimmed
    and then prefixed would be "Operation failure: disk full". *)
Lemma fail_keeps_leading_white_space :
  controller.progressMessages
    (ops.calls (snd (ops.FailOperation accessor.decls controller.clock0 controller.ctx0
                       controller.key1 controller.ledgerSet " disk full"
                       (controller.ledger0 false))))
    = ["Operation failure:  disk full"]
  /\ "Operation failure: " ++ strings.TrimSpace " disk full" = "Operation failure: disk full"
  /\ String.eqb "Operation failure:  disk full" "Operation failure: disk full" = false.
Proof. repeat split. Qed.

(** On the example ledger: completing twice leaves two terminal entries. *)
Example complete_twice_on_ledger :
  List.length
    (controller.entries
       (ops.backend
          (snd (ops.CompleteOperation accessor.decls controller.clock0 controller.ctx0
                  controller.key1 controller.ledgerSet
                  (snd (ops.CompleteOperation accessor.decls controller.clock0
                          controller.ctx0 controller.key1 controller.ledgerSet
                          (controller.ledger0 false)))))))
  = 2.
Proof. reflexivity. Qed.

(** On the example ledger with a failing setter: the error comes back wrapped
    and the cluster is not activated. *)
Example reset_skipped_on_broken_ledger :
  ops.FailOperationAndResetCluster accessor.decls controller.clock0 controller.ctx0
    controller.key1 controller.ledgerOperator "disk full" (controller.ledger0 true)
  = (Some (trace.Traced (trace.Plain "backend unavailable") [] []),
     ops.mkWorld (controller.mkLedger true [] [] [])
       [ops.CallSetOperationState controller.key1
          (controller.failedRequest accessor.decls controller.key1 "disk full"
             (controller.clock0 0))]
       1).
Proof. reflexivity. Qed.

(** ** Command executor *)

Section ExecutorProperties.
Import trace server executor.
Local Open Scope state_scope.

(** C1 (as amended). When the process cannot be started, exec sends
    nothing on the stream, neither a started nor a completed event, and
    logs nothing: it returns to its caller the start error, wrapped with
    the message "failed to start" and the field "path" set to the
    command's resolved path.  The sequence number has been taken all the
    same. *)
Theorem start_failure_is_returned (os : OS) (c : osCommand) (stream : OutgoingMessageStream)
    (req : CommandArgs) (name : string) (rest : list string) (err : error) (w : World) :
  Args req = name :: rest ->
  start os (mkCmd (lookPath os name) (Args req) (WorkingDir req)) = StartFailed err ->
  exec os c stream req w
  = ((Returned (Some (AddField (WrapMsg err ["failed to start"]) "path" (lookPath os name))),
      mkOsCommand (AddInt32 (seq c) 1)), w)
  /\ Unwrap (AddField (WrapMsg err ["failed to start"]) "path" (lookPath os name)) = Unwrap err.
Proof.
  intros Hargs Hstart. unfold exec. rewrite Hargs. rewrite Hargs in Hstart.
  cbn [Path]. rewrite Hstart. split; [reflexivity|].
  destruct err; reflexivity.
Qed.

Lemma attempted_Send (stream : OutgoingMessageStream) (m : Message) (w : World) :
  attempted (snd (Send stream m w)) = (attempted w ++ [m])%list.
Proof. unfold Send, attempted. cbn [snd sends]. now rewrite map_app. Qed.

Lemma attempted_notify (stream : OutgoingMessageStream) (m : Message) (w : World) :
  attempted (snd (notifyAndLogError stream m w)) = (attempted w ++ [m])%list.
Proof.
  unfold notifyAndLogError, bind, Send, Warnf, ret, attempted.
  destruct (stream (map fst (sends w)) m); cbn [snd sends]; now rewrite map_app.
Qed.

Lemma alike_ret {A} (a : A) : alike (ret a) (ret a).
Proof. intros w1 w2 H. split; [reflexivity | exact H]. Qed.

Lemma alike_bind {A C} (m1 m2 : M A) (k1 k2 : A -> M C) :
  alike m1 m2 -> (forall a, alike (k1 a) (k2 a)) -> alike (bind m1 k1) (bind m2 k2).
Proof.
  intros Hm Hk w1 w2 H. unfold bind.
  destruct (Hm w1 w2 H) as [Ha Hw].
  destruct (m1 w1) as [a1 w1'], (m2 w2) as [a2 w2']. cbn [fst snd] in Ha, Hw. subst a2.
  now apply Hk.
Qed.

(** Started and completed events: whatever the two streams answer. *)
Lemma alike_notify (s1 s2 : OutgoingMessageStream) (m : Message) :
  alike (notifyAndLogError s1 m) (notifyAndLogError s2 m).
Proof.
  intros w1 w2 H. rewrite !attempted_notify, H. split; [|reflexivity].
  now destruct (fst (notifyAndLogError s1 m w1)), (fst (notifyAndLogError s2 m w2)).
Qed.

Section TwoStreams.
Variables s1 s2 : OutgoingMessageStream.
Hypothesis agree : agreeOnOutput s1 s2.

Lemma alike_Write (fd : FD) (q : Z) (p : string) :
  alike (Write (mkStreamWriter s1 fd q) p) (Write (mkStreamWriter s2 fd q) p).
Proof.
  intros w1 w2 H. unfold Write, bind, Send, ret. cbn [sw_stream sw_fd sw_seq].
  rewrite H. rewrite (agree (attempted w2) (ExecOutput fd p q) eq_refl).
  destruct (s2 (attempted w2) (ExecOutput fd p q)); cbn [fst snd]; split;
    try reflexivity; unfold attempted in *; cbn [sends]; rewrite !map_app; now rewrite H.
Qed.

Lemma alike_copyOutput (q : Z) (chunks : list (FD * string)) (st : CopyState) :
  alike (copyOutput (mkStreamWriter s1 STDOUT q) (mkStreamWriter s1 STDERR q) chunks st)
        (copyOutput (mkStreamWriter s2 STDOUT q) (mkStreamWriter s2 STDERR q) chunks st).
Proof.
  revert st; induction chunks as [|[fd data] rest IH]; intros st.
  - apply alike_ret.
  - cbn [copyOutput]. destruct (copyFailed st fd); [apply IH|].
    apply alike_bind.
    + destruct fd; apply alike_Write.
    + intros r. destruct (snd r); apply IH.
Qed.

Lemma alike_Wait (q : Z) (p : Process) (st : CopyState) :
  alike (Wait (mkStreamWriter s1 STDOUT q) (mkStreamWriter s1 STDERR q) p st)
        (Wait (mkStreamWriter s2 STDOUT q) (mkStreamWriter s2 STDERR q) p st).
Proof.
  unfold Wait. apply alike_bind; [apply alike_copyOutput|].
  intros st'. destruct (exit p); apply alike_ret.
Qed.

Lemma alike_exec (os : OS) (c : osCommand) (req : CommandArgs) :
  alike (exec os c s1 req) (exec os c s2 req).
Proof.
  unfold exec. destruct (Args req) as [|name rest]; [apply alike_ret|].
  destruct (start os _) as [err|p]; [apply alike_ret|].
  apply alike_bind; [apply alike_copyOutput|]. intros st.
  apply alike_bind; [apply alike_notify|]. intros _.
  apply alike_bind; [apply alike_Wait|]. intros [err|].
  - apply alike_bind; [apply alike_notify|]. intros _. apply alike_ret.
  - apply alike_bind; [apply alike_notify|]. intros _. apply alike_ret.
Qed.

End TwoStreams.

(** C2 (as amended). Whether the started and the completed event can be
    delivered has no influence on the command: two streams that treat
    output events alike give the same outcome of exec and are handed the
    same messages.  A failed delivery of such an event is only logged, as a
    warning.  A failed delivery of an output event is different: the
    writer does not log it but returns it, with zero bytes written, to the
    copy loop that called it. *)
Theorem notification_failures_are_only_logged (os : OS) (c : osCommand)
    (s1 s2 : OutgoingMessageStream) (req : CommandArgs) (w1 w2 : World) :
  agreeOnOutput s1 s2 ->
  attempted w1 = attempted w2 ->
  fst (exec os c s1 req w1) = fst (exec os c s2 req w2)
  /\ attempted (snd (exec os c s1 req w1)) = attempted (snd (exec os c s2 req w2))
  /\ (forall (m : Message) (w : World),
         warnings (snd (notifyAndLogError s1 m w))
         = (warnings w ++ match s1 (attempted w) m with
                          | Some e => [(e, m)]
                          | None => []
                          end)%list)
  /\ (forall (fd : FD) (q : Z) (p : string) (w : World) (e : error),
         s1 (attempted w) (ExecOutput fd p q) = Some e ->
         fst (Write (mkStreamWriter s1 fd q) p w) = (0%Z, Some e)
         /\ warnings (snd (Write (mkStreamWriter s1 fd q) p w)) = warnings w).
Proof.
  intros Hagree H.
  destruct (alike_exec s1 s2 Hagree os c req w1 w2 H) as [H1 H2].
  split; [exact H1|]. split; [exact H2|]. split.
  - intros m w. unfold notifyAndLogError, bind, Send, Warnf, ret.
    destruct (s1 (attempted w) m); cbn [snd warnings]; [reflexivity | now rewrite app_nil_r].
  - intros fd q p w e He.
    unfold Write, bind, Send, ret. cbn [sw_stream sw_fd sw_seq]. rewrite He.
    split; reflexivity.
Qed.

End ExecutorProperties.

(** C1 at work: a command that does not exist. *)
Lemma start_failure_is_returned_witness :
  server.exec executor.system (server.mkOsCommand 0) executor.reliable
    (server.mkCommandArgs ["nonexistent"] "/tmp") executor.quiet
  = ((server.Returned
        (Some (trace.Traced (trace.Plain "executable file not found in $PATH")
                 ["failed to start"] [("path", "nonexistent")])),
      server.mkOsCommand 1), executor.quiet).
Proof.
  exact (proj1 (start_failure_is_returned executor.system (server.mkOsCommand 0)
                  executor.reliable (server.mkCommandArgs ["nonexistent"] "/tmp")
                  "nonexistent" [] executor.notFound executor.quiet eq_refl eq_refl)).
Defined.

(** C1, the statement as given fails: for an executable that does not
    exist no completed event is handed to the stream (nothing is), even on
    a stream that never fails. *)
Lemma no_completed_event_on_start_failure :
  existsb server.isCompleted
    (server.attempted
       (snd (server.exec executor.system (server.mkOsCommand 0) executor.reliable
               (server.mkCommandArgs ["nonexistent"] "/tmp") executor.quiet)))
  = false
  /\ server.attempted
       (snd (server.exec executor.system (server.mkOsCommand 0) executor.reliable
               (server.mkCommandArgs ["nonexistent"] "/tmp") executor.quiet))
     = [].
Proof. split; reflexivity. Qed.

(** C2 at work: a stream that delivers, and one that loses the started and
    completed events only. *)
Lemma notification_failures_are_only_logged_witness :
  fst (server.exec executor.system (server.mkOsCommand 0) executor.reliable
         (server.mkCommandArgs ["echo"; "hello"] "/tmp") executor.quiet)
  = fst (server.exec executor.system (server.mkOsCommand 0) executor.deafToNotifications
           (server.mkCommandArgs ["echo"; "hello"] "/tmp") executor.quiet).
Proof.
  refine (proj1 (notification_failures_are_only_logged executor.system (server.mkOsCommand 0)
                   executor.reliable executor.deafToNotifications
                   (server.mkCommandArgs ["echo"; "hello"] "/tmp")
                   executor.quiet executor.quiet _ eq_refl)).
  intros h m Hm. unfold executor.deafToNotifications. rewrite Hm. reflexivity.
Defined.

(** C2, the statement as given fails for output events: the same command,
    which prints one line and exits with status 0, succeeds on a stream that
    delivers, and on a stream that loses every message it ends with the
    send error, reported with the undefined exit code. *)
Lemma output_send_failure_changes_outcome :
  fst (server.exec executor.system (server.mkOsCommand 0) executor.reliable
         (server.mkCommandArgs ["echo"; "hello"] "/tmp") executor.quiet)
  = (server.Returned None, server.mkOsCommand 1)
  /\ fst (server.exec executor.system (server.mkOsCommand 0) executor.broken
            (server.mkCommandArgs ["echo"; "hello"] "/tmp") executor.quiet)
     = (server.Returned
          (Some (trace.Traced (trace.Status trace.Unavailable "transport is closing") [] [])),
        server.mkOsCommand 1)
  /\ server.attempted
       (snd (server.exec executor.system (server.mkOsCommand 0) executor.broken
               (server.mkCommandArgs ["echo"; "hello"] "/tmp") executor.quiet))
     = [server.ExecStarted ["echo"; "hello"] 1;
        server.ExecOutput server.STDOUT "hello" 1;
        server.ExecCompleted 1 (-1) (Some executor.sendError)].
Proof. repeat split. Qed.

(** A command that exits with status 0 without output: started, then
    completed with exit code 0 and no error. *)
Example exec_quiet_success :
  server.exec
    (server.mkOS (fun name => name)
       (fun _ => server.Started (server.mkProcess [] 0 server.Success)))
    (server.mkOsCommand 6) executor.reliable (server.mkCommandArgs ["true"] "") executor.quiet
  = ((server.Returned None, server.mkOsCommand 7),
     server.mkWorld
       [(server.ExecStarted ["true"] 7, None); (server.ExecCompleted 7 0 None, None)] []).
Proof. reflexivity. Qed.

(** A command that exits with status 1: completed with exit code 1 and the
    exit error, which is also returned. *)
Example exec_exit_status_one :
  server.exec executor.system (server.mkOsCommand 0) executor.reliable
    (server.mkCommandArgs ["false"] "") executor.quiet
  = ((server.Returned (Some (trace.Traced (trace.ExitError (trace.Exited 1)) [] [])),
      server.mkOsCommand 1),
     server.mkWorld
       [(server.ExecStarted ["false"] 1, None);
        (server.ExecCompleted 1 1 (Some (trace.Raw (trace.ExitError (trace.Exited 1)))), None)]
       []).
Proof. reflexivity. Qed.

(** An empty argument vector: indexing [req.Args[0]] panics. *)
Example exec_without_arguments :
  fst (fst (server.exec executor.system (server.mkOsCommand 0) executor.reliable
              (server.mkCommandArgs [] "") executor.quiet))
  = server.Panicked.
Proof. reflexivity. Qed.

(** ** Discovery client *)

Section DiscoveryProperties.
Import trace client discoveryCalls.
Context {System RuntimeConfig Version : Type}
        (UnmarshalSystemInfo : string -> result System)
        (TimestampFromProto : Timestamp -> result ops.Time)
        (describe : error -> string).

(** C3 (as amended). When the remote call ends with an error, GetVersion
    returns that error translated by trail.FromGRPC, so that an
    unavailable agent is a ConnectionProblem error and a refusal by the
    agent an AccessDenied error.  GetSystemInfo, GetRuntimeConfig and
    GetCurrentTime return the error wrapped by trace.Wrap and not
    translated: its original error is still the error the remote call
    ended with, gRPC status included, and it has no trace kind of its
    own. *)
Theorem discovery_error_is_wrapped_or_translated
    (c : Client RuntimeConfig Version) (ctx : ops.Context) (call : Call) (e : error) :
  rpcError c ctx call = Some e ->
  callError UnmarshalSystemInfo TimestampFromProto describe c ctx call
  = Some (if isVersionCall call then trail.FromGRPC describe e else Wrap e)
  /\ Unwrap (Wrap e) = Unwrap e
  /\ (forall code msg, kindOf (Wrap (Raw (Status code msg))) = None)
  /\ (forall msg,
         IsConnectionProblem (trail.FromGRPC describe (Raw (Status Unavailable msg))) = true
         /\ IsAccessDenied (trail.FromGRPC describe (Raw (Status PermissionDenied msg))) = true).
Proof.
  intros H. repeat split.
  - destruct call; cbn [rpcError callError isVersionCall] in *;
      unfold GetSystemInfo, GetRuntimeConfig, GetCurrentTime, GetVersion.
    + destruct (rpcGetSystemInfo (discovery c) ctx); [discriminate | now inversion H].
    + destruct (rpcGetRuntimeConfig (discovery c) ctx); [discriminate | now inversion H].
    + destruct (rpcGetCurrentTime (discovery c) ctx); [discriminate | now inversion H].
    + destruct (rpcGetVersion (discovery c) ctx); [discriminate | now inversion H].
  - now destruct e.
Qed.

End DiscoveryProperties.

(** C3 at work: GetVersion against an agent that cannot be reached. *)
Lemma discovery_error_is_wrapped_or_translated_witness :
  discoveryCalls.callError discoveryCalls.unmarshal discoveryCalls.fromProto
    discoveryCalls.text (discoveryCalls.failing discoveryCalls.unreachable)
    (ops.mkContext 0) discoveryCalls.VersionCall
  = Some (trace.Raw (trace.Typed trace.KConnectionProblem "connection refused")).
Proof.
  exact (proj1 (discovery_error_is_wrapped_or_translated discoveryCalls.unmarshal
                  discoveryCalls.fromProto discoveryCalls.text
                  (discoveryCalls.failing discoveryCalls.unreachable) (ops.mkContext 0)
                  discoveryCalls.VersionCall discoveryCalls.unreachable eq_refl)).
Defined.

(** C3, the statement as given fails for three of the four calls: the error
    GetSystemInfo returns for an unavailable agent is no ConnectionProblem
    error, and the one it returns for a refusal is no AccessDenied error
    (likewise GetRuntimeConfig and GetCurrentTime); only GetVersion
    translates. *)
Lemma discovery_errors_not_translated :
  (forall call,
      discoveryCalls.isVersionCall call = false ->
      discoveryCalls.callError discoveryCalls.unmarshal discoveryCalls.fromProto
        discoveryCalls.text (discoveryCalls.failing discoveryCalls.unreachable)
        (ops.mkContext 0) call
      = Some (trace.Traced (trace.Status trace.Unavailable "connection refused") [] []))
  /\ trace.IsConnectionProblem
       (trace.Traced (trace.Status trace.Unavailable "connection refused") [] []) = false
  /\ discoveryCalls.callError discoveryCalls.unmarshal discoveryCalls.fromProto
       discoveryCalls.text (discoveryCalls.failing discoveryCalls.rejected)
       (ops.mkContext 0) discoveryCalls.SystemInfoCall
     = Some (trace.Traced (trace.Status trace.PermissionDenied "access denied") [] [])
  /\ trace.IsAccessDenied
       (trace.Traced (trace.Status trace.PermissionDenied "access denied") [] []) = false
  /\ discoveryCalls.callError discoveryCalls.unmarshal discoveryCalls.fromProto
       discoveryCalls.text (discoveryCalls.failing discoveryCalls.unreachable)
       (ops.mkContext 0) discoveryCalls.VersionCall
     = Some (trace.Raw (trace.Typed trace.KConnectionProblem "connection refused")).
Proof.
  repeat split. intros call H. destruct call; [reflexivity .. | discriminate].
Qed.

(** ** Enterprise ACL operator *)

Section WrapperProperties.
Import trace acl wrapper.
Context {B : Type} (SystemLabel True_ : string) (o : OperatorACL B).

Lemma skipn_new {A} (l xs : list A) : skipn (List.length l) (l ++ xs) = xs.
Proof. rewrite skipn_app, skipn_all, Nat.sub_diag. reflexivity. Qed.

Lemma Unwrap_Wrap_twice (e : error) : Unwrap (Wrap (Wrap e)) = Unwrap e.
Proof. destruct e; reflexivity. Qed.

(** Runs a call down to the answers of the checks and of the enterprise
    operator, and reads off the new events. *)
Ltac run_call :=
  unfold run, newEvents,
    RegisterAgent, RequestClusterCopy, GetClusterEndpoints, UpdateClusterEndpoints,
    CheckForUpdate, DownloadUpdate, EnablePeriodicUpdates, DisablePeriodicUpdates,
    StartPeriodicUpdates, StopPeriodicUpdates, PeriodicUpdatesStatus,
    UpsertTrustedCluster, DeleteTrustedCluster, GetTrustedClusters, GetTrustedCluster,
    AcceptRemoteCluster, RemoveRemoteCluster, NewLicense, CheckSiteLicense, UpdateLicense,
    GetLicenseCA, UpsertRole, GetRole, GetRoles, DeleteRole,
    UpsertOIDCConnector, GetOIDCConnector, GetOIDCConnectors, DeleteOIDCConnector,
    UpsertSAMLConnector, GetSAMLConnector, GetSAMLConnectors, DeleteSAMLConnector,
    operatorRegisterAgent, operatorRequestClusterCopy, operatorGetClusterEndpoints,
    operatorUpdateClusterEndpoints, operatorCheckForUpdate, operatorDownloadUpdate,
    operatorEnablePeriodicUpdates, operatorDisablePeriodicUpdates,
    operatorStartPeriodicUpdates, operatorStopPeriodicUpdates,
    operatorPeriodicUpdatesStatus, operatorUpsertTrustedCluster,
    operatorDeleteTrustedCluster, operatorGetTrustedClusters, operatorGetTrustedCluster,
    operatorAcceptRemoteCluster, operatorRemoveRemoteCluster, operatorNewLicense,
    operatorCheckSiteLicense, operatorUpdateLicense, operatorGetLicenseCA,
    operatorUpsertRole, operatorGetRole, operatorGetRoles, operatorDeleteRole,
    operatorUpsertOIDCConnector, operatorGetOIDCConnector, operatorGetOIDCConnectors,
    operatorDeleteOIDCConnector, operatorUpsertSAMLConnector, operatorGetSAMLConnector,
    operatorGetSAMLConnectors, operatorDeleteSAMLConnector,
    roleActions, ClusterAction, Action, AuthConnectorActions, check, invoke, bind, ret;
  cbn [fst snd inner events];
  repeat match goal with
         | |- context [checkClusterAction ?a ?x ?y ?z] =>
             destruct (checkClusterAction a x y z); cbn [fst snd inner events]
         | |- context [checkAction ?a ?x ?y] =>
             destruct (checkAction a x y); cbn [fst snd inner events]
         | |- context [checkAuthConnectorActions ?a ?x ?y] =>
             destruct (checkAuthConnectorActions a x y); cbn [fst snd inner events]
         | |- context [String.eqb ?a ?b] =>
             destruct (String.eqb a b); cbn [fst snd inner events]
         | |- context [let (_, _) := ?x in _] =>
             lazymatch x with
             | context [events] => fail
             | _ => destruct x as [? ?]; cbn [fst snd inner events errOf]
             end
         | |- context [match ?r with Ok _ => _ | Err _ => _ end] =>
             destruct r; cbn [fst snd inner events errOf]
         end;
  rewrite <- ?app_assoc, ?skipn_new; cbn [app].

Ltac settle :=
  split;
  [ reflexivity
  | let He := fresh "He" in
    intros ? He; cbn in He;
    first
      [ discriminate He
      | injection He as <-; eexists;
        split; [reflexivity | split; [|reflexivity]];
        first [apply Unwrap_Wrap | apply Unwrap_Wrap_twice] ] ].

(** C10. GetLicenseCA asks for no authorization: it calls the enterprise
    operator's GetLicenseCA and returns exactly what that returns.  Every
    other method of the wrapper begins with an authorization check, and
    whenever the last check it makes is refused it returns the error of
    that check (wrapped, the original error unchanged) without having
    called the enterprise operator at all.  So GetLicenseCA is the only
    method that delegates unconditionally. *)
Theorem GetLicenseCA_is_the_only_unchecked_method (i : Invocation) (w : World B) :
  match i with
  | CallGetLicenseCA =>
      GetLicenseCA o w
      = (fst (implGetLicenseCA (operator o) (inner w)),
         mkWorld (snd (implGetLicenseCA (operator o) (inner w)))
           (events w ++ [Delegated mGetLicenseCA]))
      /\ newEvents w (snd (run SystemLabel True_ o i w)) = [Delegated mGetLicenseCA]
  | _ =>
      startsWithCheck (newEvents w (snd (run SystemLabel True_ o i w))) = true
      /\ (forall e,
             lastAnswer (newEvents w (snd (run SystemLabel True_ o i w))) = Some (Some e) ->
             exists e',
               fst (run SystemLabel True_ o i w) = Some e'
               /\ Unwrap e' = Unwrap e
               /\ delegations (newEvents w (snd (run SystemLabel True_ o i w))) = [])
  end.
Proof.
  destruct i; run_call; try settle.
  split; reflexivity.
Qed.

End WrapperProperties.

(** With an authorizer that refuses everything, no method other than
    GetLicenseCA reaches the enterprise operator. *)
Example deny_all_blocks_every_other_method :
  forall i : acl.Invocation,
    wrapper.delegations
      (wrapper.newEvents wrapper.fresh
         (snd (acl.run "gravitational.io/system" "true" wrapper.guarded i wrapper.fresh)))
    = match i with
      | acl.CallGetLicenseCA => [acl.mGetLicenseCA]
      | _ => []
      end.
Proof. intros i. destruct i; reflexivity. Qed.

(* ===================================================================== *)
(** * Further properties *)
(* ===================================================================== *)

(** ** Accessors: what they read, return and report *)

Section AccessorReads.
Import trace ops accessor controller reads.
Context {B : Type} (d : Decls) (operator : Operator B).

Ltac run_accessor :=
  unfold found, GetInstallOperation, GetLastUninstallOperation,
    GetLastCompletedUpdateOperation, GetCompletedInstallOperation, GetLastOperation,
    GetLastFinishedOperation, GetLastUpgradeOperation, GetLastShrinkOperation,
    GetActiveOperations, GetActiveOperationsByType, GetSiteOperations,
    GetSiteOperationProgress, bind, ret, invoke;
  cbn [filterOf fetchesProgress backend calls clockReads fst snd].

(** X1. An accessor is read-only and frugal: it invokes GetSiteOperations
    exactly once, with its own filter, and after that at most
    GetSiteOperationProgress, once, for the first operation of the answer
    (only the accessors that return progress do, and only when the answer
    is not empty).  No other method of the operator is invoked. *)
Theorem accessor_invokes_only_its_two_reads (a : Accessor) (siteKey : SiteKey)
    (w : World B) :
  newCalls w (snd (found d operator a siteKey w))
  = CallGetSiteOperations siteKey (filterOf d a)
    :: match answer d operator a siteKey w with
       | Ok (op :: _) =>
           if fetchesProgress a then [CallGetSiteOperationProgress (opKey op)] else []
       | _ => []
       end.
Proof.
  unfold answer.
  destruct a; run_accessor;
    destruct (implGetSiteOperations operator siteKey _ (backend w)) as [[[|op rest]|e] b'];
    cbn [fst snd backend calls clockReads];
    try (apply newCalls_app; reflexivity);
    destruct (implGetSiteOperationProgress operator (opKey op) b') as [[p|e] b''];
    cbn [fst snd backend calls clockReads]; apply newCalls_app; now rewrite <- app_assoc.
Qed.

(** X2. The accessors for active operations return the backend's answer
    as it is: every operation, in the backend's order. *)
Theorem active_operations_are_the_backend_answer (a : Accessor) (siteKey : SiteKey)
    (w : World B) (l : list SiteOperation) :
  isActiveQuery a = true ->
  answer d operator a siteKey w = Ok l ->
  l <> [] ->
  fst (found d operator a siteKey w) = Ok l.
Proof.
  unfold answer. intros Ha Hl Hne.
  destruct a; try discriminate Ha; run_accessor;
    destruct (implGetSiteOperations operator siteKey _ (backend w)) as [r b'];
    cbn [fst] in Hl; subst r; destruct l as [|o rest]; try congruence;
    cbn [fst]; now rewrite appendAll_id.
Qed.

(** X3. Every error an accessor returns has one of three origins: the
    backend's answer was empty (then it is a NotFound error made here); or
    listing the operations failed; or fetching the progress of the first
    operation failed.  In the last two cases the original error is the
    backend's, unchanged, so its kind survives. *)
Theorem accessor_errors_have_three_origins (a : Accessor) (siteKey : SiteKey)
    (w : World B) (e' : error) :
  fst (found d operator a siteKey w) = Err e' ->
  Origin d operator a siteKey w e'.
Proof.
  intros H.
  destruct (answer d operator a siteKey w) as [[|op rest]|e] eqn:E.
  - apply NothingFound; [exact E|].
    unfold answer in E. revert H.
    destruct a; run_accessor;
      destruct (implGetSiteOperations operator siteKey _ (backend w)) as [r b'];
      cbn [fst] in E; subst r; cbn [fst mapResult]; intros H; inversion H; reflexivity.
  - destruct (fetchesProgress a) eqn:F.
    + destruct (fst (implGetSiteOperationProgress operator (opKey op)
                       (answered d operator a siteKey w))) as [p|e] eqn:P.
      * exfalso. unfold answer, answered in *. revert H.
        destruct a; try discriminate F; run_accessor;
          destruct (implGetSiteOperations operator siteKey _ (backend w)) as [r b'];
          cbn [fst snd] in E, P; subst r; cbn [fst snd backend calls clockReads];
          destruct (implGetSiteOperationProgress operator (opKey op) b') as [q b''];
          cbn [fst] in P; subst q; cbn [fst mapResult]; discriminate.
      * apply (ProgressFailed _ _ _ _ _ _ op rest e E F P).
        unfold answer, answered in *. revert H.
        destruct a; try discriminate F; run_accessor;
          destruct (implGetSiteOperations operator siteKey _ (backend w)) as [r b'];
          cbn [fst snd] in E, P; subst r; cbn [fst snd backend calls clockReads];
          destruct (implGetSiteOperationProgress operator (opKey op) b') as [q b''];
          cbn [fst] in P; subst q; cbn [fst mapResult]; intros H; inversion H;
          apply Unwrap_Wrap.
    + exfalso. unfold answer in E. revert H.
      destruct a; try discriminate F; run_accessor;
        destruct (implGetSiteOperations operator siteKey _ (backend w)) as [r b'];
        cbn [fst] in E; subst r; cbn [fst mapResult]; discriminate.
  - apply (ListingFailed _ _ _ _ _ _ e E).
    unfold answer in E. revert H.
    destruct a; run_accessor;
      destruct (implGetSiteOperations operator siteKey _ (backend w)) as [r b'];
      cbn [fst] in E; subst r; cbn [fst mapResult]; intros H; inversion H;
      apply Unwrap_Wrap.
Qed.

End AccessorReads.

(** X2 at work: two active operations. *)
Lemma active_operations_are_the_backend_answer_witness :
  fst (accessor.found accessor.decls accessor.shelfOperator accessor.ActiveOperations
         accessor.site1 (accessor.world0 [accessor.op1; accessor.op2] true []))
  = trace.Ok [accessor.op1; accessor.op2].
Proof.
  apply (active_operations_are_the_backend_answer accessor.decls accessor.shelfOperator
           accessor.ActiveOperations accessor.site1
           (accessor.world0 [accessor.op1; accessor.op2] true [])
           [accessor.op1; accessor.op2]).
  - reflexivity.
  - reflexivity.
  - discriminate.
Defined.

(** X3 at work: the progress of the last operation cannot be fetched. *)
Lemma accessor_errors_have_three_origins_witness :
  reads.Origin accessor.decls accessor.shelfOperator accessor.LastOperation accessor.site1
    (accessor.world0 [accessor.op1] false [])
    (trace.Traced (trace.Plain "progress unavailable") [] []).
Proof.
  apply (accessor_errors_have_three_origins accessor.decls accessor.shelfOperator
           accessor.LastOperation accessor.site1 (accessor.world0 [accessor.op1] false [])).
  reflexivity.
Defined.

(** ** Executor: the events of one command *)

Section ExecutorEvents.
Import trace server executor events.
Local Open Scope state_scope.

Lemma skipn_exact {A} (l xs : list A) : skipn (List.length l) (l ++ xs) = xs.
Proof. rewrite skipn_app, skipn_all, Nat.sub_diag. reflexivity. Qed.

Lemma writer_of (stream : OutgoingMessageStream) (s : Z) (fd : FD) :
  match fd with
  | STDOUT => mkStreamWriter stream STDOUT s
  | STDERR => mkStreamWriter stream STDERR s
  end = mkStreamWriter stream fd s.
Proof. now destruct fd. Qed.

Lemma Write_run (stream : OutgoingMessageStream) (s : Z) (fd : FD) (data : string)
    (w : World) :
  Write (mkStreamWriter stream fd s) data w
  = (match stream (attempted w) (ExecOutput fd data s) with
     | Some e => (0%Z, Some e)
     | None => (Z.of_nat (String.length data), None)
     end,
     mkWorld (sends w ++ [(ExecOutput fd data s,
                           stream (attempted w) (ExecOutput fd data s))])
       (warnings w)).
Proof.
  unfold Write, bind, Send, ret. cbn [sw_stream sw_fd sw_seq].
  now destruct (stream (attempted w) (ExecOutput fd data s)).
Qed.

(** The copy loops send output events of the command only, and log nothing. *)
Lemma copyOutput_log (stream : OutgoingMessageStream) (s : Z)
    (chunks : list (FD * string)) (st : CopyState) (w : World) :
  exists outs,
    sends (snd (copyOutput (mkStreamWriter stream STDOUT s) (mkStreamWriter stream STDERR s)
                  chunks st w))
    = (sends w ++ outs)%list
    /\ forallb (fun x => isOutputOf s (fst x)) outs = true
    /\ warnings (snd (copyOutput (mkStreamWriter stream STDOUT s)
                        (mkStreamWriter stream STDERR s) chunks st w))
       = warnings w.
Proof.
  revert st w; induction chunks as [|[fd data] rest IH]; intros st w.
  - exists []. cbn. now rewrite app_nil_r.
  - cbn [copyOutput]. destruct (copyFailed st fd); [apply IH|].
    rewrite writer_of. unfold bind. rewrite Write_run.
    set (r := stream (attempted w) (ExecOutput fd data s)).
    set (w1 := mkWorld (sends w ++ [(ExecOutput fd data s, r)]) (warnings w)).
    assert (Hstep : forall st',
               exists outs,
                 sends (snd (copyOutput (mkStreamWriter stream STDOUT s)
                               (mkStreamWriter stream STDERR s) rest st' w1))
                 = (sends w ++ outs)%list
                 /\ forallb (fun x => isOutputOf s (fst x)) outs = true
                 /\ warnings (snd (copyOutput (mkStreamWriter stream STDOUT s)
                                     (mkStreamWriter stream STDERR s) rest st' w1))
                    = warnings w).
    { intros st'. destruct (IH st' w1) as [outs [H1 [H2 H3]]].
      exists ((ExecOutput fd data s, r) :: outs). repeat split.
      - rewrite H1. subst w1. cbn [sends]. now rewrite <- app_assoc.
      - cbn [forallb fst]. rewrite H2. unfold isOutputOf. cbn. now rewrite Z.eqb_refl.
      - exact H3. }
    destruct r as [e|]; cbn [snd]; apply Hstep.
Qed.

(** On a stream that delivers output, nothing stops a copy loop: every
    chunk is sent, in order. *)
Lemma copyOutput_delivers (stream : OutgoingMessageStream) (s : Z)
    (chunks : list (FD * string)) (w : World) :
  deliversOutput stream ->
  fst (copyOutput (mkStreamWriter stream STDOUT s) (mkStreamWriter stream STDERR s)
         chunks (mkCopyState false false None) w)
  = mkCopyState false false None
  /\ sends (snd (copyOutput (mkStreamWriter stream STDOUT s) (mkStreamWriter stream STDERR s)
                   chunks (mkCopyState false false None) w))
     = (sends w ++ map (fun m => (m, None)) (tagged s chunks))%list.
Proof.
  intros Hd. revert w; induction chunks as [|[fd data] rest IH]; intros w.
  - cbn. now rewrite app_nil_r.
  - cbn [copyOutput]. replace (copyFailed (mkCopyState false false None) fd) with false
      by now destruct fd.
    rewrite writer_of. unfold bind. rewrite Write_run.
    rewrite (Hd (attempted w) (ExecOutput fd data s) eq_refl). cbn [snd].
    destruct (IH (mkWorld (sends w ++ [(ExecOutput fd data s, None)]) (warnings w)))
      as [H1 H2].
    split; [exact H1|]. rewrite H2. cbn [sends tagged map fst snd].
    now rewrite <- app_assoc.
Qed.

Lemma notify_run (stream : OutgoingMessageStream) (m : Message) (w : World) :
  notifyAndLogError stream m w
  = (tt, mkWorld (sends w ++ [(m, stream (attempted w) m)])
           (warnings w ++ note m (stream (attempted w) m))).
Proof.
  unfold notifyAndLogError, bind, Send, Warnf, ret.
  destruct (stream (attempted w) m); cbn [sends warnings note];
    [reflexivity | now rewrite app_nil_r].
Qed.

(** Everything a call of exec that started its process leaves behind. *)
Lemma exec_log (os : OS) (c : osCommand) (stream : OutgoingMessageStream)
    (req : CommandArgs) (name : string) (rest : list string) (p : Process) (w : World) :
  Args req = name :: rest ->
  start os (mkCmd (lookPath os name) (Args req) (WorkingDir req)) = Started p ->
  exists ahead r1 outs final r2,
    sends (snd (exec os c stream req w))
    = (sends w ++ ahead ++ (ExecStarted (Args req) (AddInt32 (seq c) 1), r1)
                   :: outs ++ [(final, r2)])%list
    /\ forallb (fun x => isOutputOf (AddInt32 (seq c) 1) (fst x)) ahead = true
    /\ forallb (fun x => isOutputOf (AddInt32 (seq c) 1) (fst x)) outs = true
    /\ isOutput final = false
    /\ seqOf final = AddInt32 (seq c) 1
    /\ warnings (snd (exec os c stream req w))
       = (warnings w ++ note (ExecStarted (Args req) (AddInt32 (seq c) 1)) r1
                     ++ note final r2)%list
    /\ reports (AddInt32 (seq c) 1) final (fst (fst (exec os c stream req w))).
Proof.
  intros Hargs Hstart. unfold exec. rewrite Hargs in *.
  cbn [Path]. rewrite Hstart.
  set (s := AddInt32 (seq c) 1).
  unfold bind, copyAhead, Wait, bind.
  destruct (copyOutput_log stream s (firstn (early p) (output p))
              (mkCopyState false false None) w) as [ahead [Hs0 [Ho0 Hw0]]].
  destruct (copyOutput (mkStreamWriter stream STDOUT s) (mkStreamWriter stream STDERR s)
              (firstn (early p) (output p)) (mkCopyState false false None) w) as [st0 w0].
  cbn [snd] in Hs0, Hw0.
  rewrite notify_run.
  set (r1 := stream (attempted w0) (newCommandStartedEvent s (name :: rest))).
  set (w1 := mkWorld _ _).
  destruct (copyOutput_log stream s (skipn (early p) (output p)) st0 w1)
    as [outs [Hs [Ho Hw]]].
  destruct (copyOutput (mkStreamWriter stream STDOUT s) (mkStreamWriter stream STDERR s)
              (skipn (early p) (output p)) st0 w1) as [st w2].
  cbn [snd] in Hs, Hw. subst w1. cbn [sends warnings] in Hs, Hw.
  rewrite Hs0 in Hs. rewrite Hw0 in Hw.
  assert (Hend : forall (final : Message) (o : Outcome),
             isOutput final = false -> seqOf final = s -> reports s final o ->
             exists ahead' r1' outs' final' r2,
               sends (snd (let (_, s') := notifyAndLogError stream final w2 in
                           ((o, mkOsCommand s), s')))
               = (sends w ++ ahead' ++ (ExecStarted (name :: rest) s, r1')
                              :: outs' ++ [(final', r2)])%list
               /\ forallb (fun x => isOutputOf s (fst x)) ahead' = true
               /\ forallb (fun x => isOutputOf s (fst x)) outs' = true
               /\ isOutput final' = false
               /\ seqOf final' = s
               /\ warnings (snd (let (_, s') := notifyAndLogError stream final w2 in
                                 ((o, mkOsCommand s), s')))
                  = (warnings w ++ note (ExecStarted (name :: rest) s) r1'
                                ++ note final' r2)%list
               /\ reports s final' (fst (fst (let (_, s') :=
                                                  notifyAndLogError stream final w2 in
                                                ((o, mkOsCommand s), s'))))).
  { intros final o Hno Hseq Hrep.
    exists ahead, r1, outs, final, (stream (attempted w2) final).
    rewrite notify_run. cbn [fst snd sends warnings]. rewrite Hs, Hw.
    repeat split; try assumption.
    - rewrite <- !app_assoc. reflexivity.
    - rewrite <- !app_assoc. reflexivity. }
  destruct (exit p) as [|ws|e]; unfold ret.
  - destruct (copyError st) as [e|].
    + apply (Hend (newCommandCompletedWithErrorEvent s (int32 (exitCodeOf e)) e)
               (Returned (Some (Wrap e))));
        [reflexivity | reflexivity | eexists; split; reflexivity].
    + apply (Hend (newCommandCompletedEvent s) (Returned None)); reflexivity.
  - apply (Hend (newCommandCompletedWithErrorEvent s
                   (int32 (exitCodeOf (Raw (ExitError ws)))) (Raw (ExitError ws)))
             (Returned (Some (Wrap (Raw (ExitError ws))))));
      [reflexivity | reflexivity | eexists; split; reflexivity].
  - apply (Hend (newCommandCompletedWithErrorEvent s (int32 (exitCodeOf e)) e)
             (Returned (Some (Wrap e))));
      [reflexivity | reflexivity | eexists; split; reflexivity].
Qed.

Lemma newSends_app (w w' : World) (l : list (Message * option error)) :
  sends w' = (sends w ++ l)%list -> newSends w w' = l.
Proof. intros H. unfold newSends. rewrite H. apply skipn_exact. Qed.

Lemma newWarnings_app (w w' : World) (l : list (error * Message)) :
  warnings w' = (warnings w ++ l)%list -> newWarnings w w' = l.
Proof. intros H. unfold newWarnings. rewrite H. apply skipn_exact. Qed.

Lemma newSends_none (w : World) : newSends w w = [].
Proof. apply newSends_app. now rewrite app_nil_r. Qed.

Lemma newWarnings_none (w : World) : newWarnings w w = [].
Proof. apply newWarnings_app. now rewrite app_nil_r. Qed.

(** X4. The events of a command whose process started: one started
    event, one completed event, which is the last, and besides these
    output events only; all of them carry the sequence number taken for
    the command.  Output events can come before the started event, because
    the copy loops run from the moment the process has started.  This
    holds on every stream, whether or not it delivers, and under every
    interleaving of the copy loops with exec. *)
Theorem exec_sends_one_started_and_one_completed_event (os : OS) (c : osCommand)
    (stream : OutgoingMessageStream) (req : CommandArgs) (name : string)
    (rest : list string) (p : Process) (w : World) :
  Args req = name :: rest ->
  start os (mkCmd (lookPath os name) (Args req) (WorkingDir req)) = Started p ->
  exists ahead outs final,
    newMessages w (snd (exec os c stream req w))
    = (ahead ++ ExecStarted (Args req) (AddInt32 (seq c) 1) :: outs ++ [final])%list
    /\ forallb (isOutputOf (AddInt32 (seq c) 1)) ahead = true
    /\ forallb (isOutputOf (AddInt32 (seq c) 1)) outs = true
    /\ isCompleted final = true
    /\ seqOf final = AddInt32 (seq c) 1.
Proof.
  intros Hargs Hstart.
  destruct (exec_log os c stream req name rest p w Hargs Hstart)
    as [ahead [r1 [outs [final [r2 [Hs [Ha [Ho [_ [Hq [_ Hrep]]]]]]]]]]].
  exists (map fst ahead), (map fst outs), final. unfold newMessages.
  rewrite (newSends_app _ _ _ Hs). rewrite map_app. cbn [map fst].
  rewrite map_app. cbn [map fst].
  assert (Hall : forall l : list (Message * option error),
             forallb (fun x => isOutputOf (AddInt32 (seq c) 1) (fst x)) l = true ->
             forallb (isOutputOf (AddInt32 (seq c) 1)) (map fst l) = true).
  { intros l Hl. rewrite forallb_forall in *. intros m Hm.
    apply in_map_iff in Hm as [x [<- Hx]]. now apply Hl. }
  repeat split.
  - exact (Hall _ Ha).
  - exact (Hall _ Ho).
  - unfold reports in Hrep. destruct (fst (fst (exec os c stream req w))) as [[e|]|].
    + destruct Hrep as [err [-> _]]. reflexivity.
    + now subst final.
    + contradiction.
  - exact Hq.
Qed.


Lemma failedNotifications_outputs (s : Z) (outs : list (Message * option error)) :
  forallb (fun x => isOutputOf s (fst x)) outs = true -> failedNotifications outs = [].
Proof.
  induction outs as [|x outs IH]; cbn [forallb]; intros H; [reflexivity|].
  apply andb_prop in H as [Hx H]. unfold failedNotifications. cbn [flat_map].
  unfold isOutputOf in Hx. apply andb_prop in Hx as [Hx _]. rewrite Hx.
  now apply IH.
Qed.

(** X6. What exec writes to the log: one warning for each failed send of
    a started or completed event, in the order of the sends, and nothing
    else.  A failed send of an output event leaves no trace in the log; a
    call logs at most two warnings. *)
Theorem exec_logs_failed_notifications_only (os : OS) (c : osCommand)
    (stream : OutgoingMessageStream) (req : CommandArgs) (w : World) :
  newWarnings w (snd (exec os c stream req w))
  = failedNotifications (newSends w (snd (exec os c stream req w)))
  /\ List.length (newWarnings w (snd (exec os c stream req w))) <= 2.
Proof.
  destruct (Args req) as [|name rest] eqn:Hargs.
  - unfold exec. rewrite Hargs. unfold ret. cbn [snd].
    rewrite newWarnings_none, newSends_none. split; [reflexivity | cbn; lia].
  - destruct (start os (mkCmd (lookPath os name) (Args req) (WorkingDir req)))
      as [err|p] eqn:Hstart.
    + unfold exec. rewrite Hargs. rewrite Hargs in Hstart. cbn [Path]. rewrite Hstart.
      unfold ret. cbn [snd].
      rewrite newWarnings_none, newSends_none. split; [reflexivity | cbn; lia].
    + destruct (exec_log os c stream req name rest p w Hargs Hstart)
        as [ahead [r1 [outs [final [r2 [Hs [Ha [Ho [Hno [_ [Hw _]]]]]]]]]]].
      rewrite (newWarnings_app _ _ _ Hw), (newSends_app _ _ _ Hs).
      unfold failedNotifications at 1. rewrite flat_map_app.
      fold (failedNotifications ahead).
      rewrite (failedNotifications_outputs _ _ Ha). cbn [app flat_map fst snd isOutput].
      rewrite flat_map_app. cbn [flat_map fst snd]. rewrite Hno, app_nil_r.
      fold (failedNotifications outs).
      rewrite (failedNotifications_outputs _ _ Ho). cbn [app].
      split; [reflexivity|].
      rewrite length_app. destruct r1, r2; cbn; lia.
Qed.

Lemma exec_receiver (os : OS) (c : osCommand) (stream : OutgoingMessageStream)
    (req : CommandArgs) (w : World) :
  snd (fst (exec os c stream req w)) = mkOsCommand (AddInt32 (seq c) 1).
Proof.
  unfold exec. destruct (Args req); [reflexivity|].
  destruct (start os _); [reflexivity|].
  unfold bind. destruct (copyAhead _ _ _ w) as [st w0].
  destruct (notifyAndLogError _ _ w0) as [[] w1].
  destruct (Wait _ _ _ _ w1) as [[e|] w2];
    destruct (notifyAndLogError _ _ w2) as [[] w3]; reflexivity.
Qed.

(** X7. Every call of exec, whatever its outcome (even a start failure or
    a panic on an empty argument vector), advances the receiver's counter
    by one, within the range of int32: after 2147483647 comes
    -2147483648. *)
Theorem exec_advances_the_counter (os : OS) (c : osCommand)
    (stream : OutgoingMessageStream) (req : CommandArgs) (w : World) :
  inInt32 (seq c) ->
  seq (snd (fst (exec os c stream req w)))
  = (if Z.eqb (seq c) 2147483647 then -2147483648 else seq c + 1)%Z
  /\ inInt32 (seq (snd (fst (exec os c stream req w)))).
Proof.
  unfold inInt32. intros Hr. rewrite exec_receiver. cbn [seq].
  unfold AddInt32, int32.
  destruct (Z.eqb_spec (seq c) 2147483647) as [E|E].
  - rewrite E. split; [reflexivity | cbn; lia].
  - change (2 ^ 31)%Z with 2147483648%Z in *. change (2 ^ 32)%Z with 4294967296%Z.
    rewrite Z.mod_small by lia. lia.
Qed.

(** X8. osExec runs every command on a fresh receiver: whatever was
    executed before, each event it sends carries the sequence number 1. *)
Theorem osExec_always_uses_sequence_number_one (os : OS)
    (stream : OutgoingMessageStream) (req : CommandArgs) (w : World) :
  forallb (fun m => Z.eqb (seqOf m) 1) (newMessages w (snd (osExec os stream req w))) = true.
Proof.
  assert (Hw : snd (osExec os stream req w) = snd (exec os (mkOsCommand 0) stream req w)).
  { unfold osExec, bind. destruct (exec os (mkOsCommand 0) stream req w) as [[o c'] w'].
    cbn [fst snd]. destruct o as [[e|]|]; reflexivity. }
  rewrite Hw. unfold newMessages.
  destruct (Args req) as [|name rest] eqn:Hargs.
  - unfold exec. rewrite Hargs. unfold ret. cbn [snd]. now rewrite newSends_none.
  - destruct (start os (mkCmd (lookPath os name) (Args req) (WorkingDir req)))
      as [err|p] eqn:Hstart.
    + unfold exec. rewrite Hargs. rewrite Hargs in Hstart. cbn [Path]. rewrite Hstart.
      unfold ret. cbn [snd]. now rewrite newSends_none.
    + destruct (exec_log os (mkOsCommand 0) stream req name rest p w Hargs Hstart)
        as [ahead [r1 [outs [final [r2 [Hs [Ha [Ho [_ [Hq _]]]]]]]]]].
      rewrite (newSends_app _ _ _ Hs). cbn [seq] in *.
      change (AddInt32 0 1) with 1%Z in *.
      assert (Hall : forall l : list (Message * option error),
                 forallb (fun x => isOutputOf 1 (fst x)) l = true ->
                 forallb (fun m => Z.eqb (seqOf m) 1) (map fst l) = true).
      { intros l Hl. rewrite forallb_forall in *. intros m Hm.
        apply in_map_iff in Hm as [x [<- Hx]].
        specialize (Hl x Hx). unfold isOutputOf in Hl. now apply andb_prop in Hl as [_ Hl]. }
      rewrite map_app, forallb_app, (Hall _ Ha). cbn [map fst forallb seqOf andb].
      rewrite map_app, forallb_app, (Hall _ Ho). cbn [map fst forallb andb].
      rewrite Hq. reflexivity.
Qed.

Lemma tagged_outputs (s : Z) (chunks : list (FD * string)) :
  filter isOutput (tagged s chunks) = tagged s chunks.
Proof.
  induction chunks as [|x chunks IH]; [reflexivity|].
  cbn [tagged map filter isOutput]. fold (tagged s chunks). now rewrite IH.
Qed.

(** X9. On a stream that delivers output events, every chunk the process
    writes is forwarded, in the order in which the copy loops hand the
    chunks over, tagged with its descriptor and the command's sequence
    number, and before the completed event, which is the last message.
    The started event stands among the output events, after those that
    the copy loops sent before exec did.  A process that exits with status
    0 is then reported as completed without error, exec returning nil. *)
Theorem output_is_forwarded_in_order (os : OS) (c : osCommand)
    (stream : OutgoingMessageStream) (req : CommandArgs) (name : string)
    (rest : list string) (p : Process) (w : World) :
  deliversOutput stream ->
  Args req = name :: rest ->
  start os (mkCmd (lookPath os name) (Args req) (WorkingDir req)) = Started p ->
  exists final,
    newMessages w (snd (exec os c stream req w))
    = (tagged (AddInt32 (seq c) 1) (firstn (early p) (output p))
       ++ ExecStarted (Args req) (AddInt32 (seq c) 1)
          :: tagged (AddInt32 (seq c) 1) (skipn (early p) (output p)) ++ [final])%list
    /\ filter isOutput (newMessages w (snd (exec os c stream req w)))
       = tagged (AddInt32 (seq c) 1) (output p)
    /\ isCompleted final = true
    /\ (exit p = Success ->
        final = ExecCompleted (AddInt32 (seq c) 1) 0 None
        /\ fst (fst (exec os c stream req w)) = Returned None).
Proof.
  intros Hd Hargs Hstart. unfold exec. rewrite Hargs in *.
  cbn [Path]. rewrite Hstart.
  set (s := AddInt32 (seq c) 1).
  unfold bind, copyAhead, Wait, bind.
  destruct (copyOutput_delivers stream s (firstn (early p) (output p)) w Hd) as [Hst0 Hs0].
  destruct (copyOutput (mkStreamWriter stream STDOUT s) (mkStreamWriter stream STDERR s)
              (firstn (early p) (output p)) (mkCopyState false false None) w) as [st0 w0].
  cbn [fst snd] in Hst0, Hs0. subst st0.
  rewrite notify_run.
  set (w1 := mkWorld _ _).
  destruct (copyOutput_delivers stream s (skipn (early p) (output p)) w1 Hd) as [Hst Hs].
  destruct (copyOutput (mkStreamWriter stream STDOUT s) (mkStreamWriter stream STDERR s)
              (skipn (early p) (output p)) (mkCopyState false false None) w1) as [st w2].
  cbn [fst snd] in Hst, Hs. subst st. subst w1. cbn [sends copyError] in *.
  rewrite Hs0 in Hs.
  assert (Hend : forall (final : Message) (o : Outcome),
             newMessages w (snd (let (_, s') := notifyAndLogError stream final w2 in
                                 ((o, mkOsCommand s), s')))
             = (tagged s (firstn (early p) (output p))
                ++ ExecStarted (name :: rest) s
                   :: tagged s (skipn (early p) (output p)) ++ [final])%list).
  { intros final o. rewrite notify_run. cbn [snd]. unfold newMessages.
    erewrite newSends_app.
    2:{ cbn [sends]. rewrite Hs. rewrite <- !app_assoc. reflexivity. }
    rewrite map_app, map_map. cbn [map fst]. rewrite map_id.
    cbn [app map fst]. rewrite map_app, map_map. cbn [map fst].
    now rewrite map_id. }
  assert (Hout : forall (final : Message) (o : Outcome),
             isOutput final = false ->
             filter isOutput
               (newMessages w (snd (let (_, s') := notifyAndLogError stream final w2 in
                                    ((o, mkOsCommand s), s'))))
             = tagged s (output p)).
  { intros final o Hno. rewrite Hend.
    rewrite filter_app. cbn [filter isOutput]. rewrite filter_app.
    cbn [filter]. rewrite Hno, !tagged_outputs, app_nil_r.
    unfold tagged. rewrite <- map_app, firstn_skipn. reflexivity. }
  destruct (exit p) as [|ws|e] eqn:He; unfold ret.
  - exists (newCommandCompletedEvent s).
    split; [apply Hend|]. split; [apply Hout; reflexivity|]. split; [reflexivity|].
    intros _. rewrite notify_run. split; reflexivity.
  - eexists. split; [apply Hend|]. split; [apply Hout; reflexivity|].
    split; [reflexivity | discriminate].
  - eexists. split; [apply Hend|]. split; [apply Hout; reflexivity|].
    split; [reflexivity | discriminate].
Qed.

End ExecutorEvents.

(** X4 at work: a command whose first line is copied before the started
    event goes out, on a stream that loses every message. *)
Lemma exec_sends_one_started_and_one_completed_event_witness :
  exists ahead outs final,
    events.newMessages executor.quiet
      (snd (server.exec events.eager (server.mkOsCommand 0) executor.broken
              (server.mkCommandArgs ["cat"; "motd"] "/tmp") executor.quiet))
    = (ahead ++ server.ExecStarted ["cat"; "motd"] 1 :: outs ++ [final])%list
    /\ forallb (events.isOutputOf 1) ahead = true
    /\ forallb (events.isOutputOf 1) outs = true
    /\ server.isCompleted final = true
    /\ events.seqOf final = 1%Z.
Proof.
  exact (exec_sends_one_started_and_one_completed_event events.eager (server.mkOsCommand 0)
           executor.broken (server.mkCommandArgs ["cat"; "motd"] "/tmp") "cat" ["motd"]
           (server.mkProcess [(server.STDOUT, "hello"); (server.STDERR, "oops")] 1
              server.Success)
           executor.quiet eq_refl eq_refl).
Defined.


(** X7 at work: the counter at its greatest value. *)
Lemma exec_advances_the_counter_witness :
  server.seq (snd (fst (server.exec executor.system (server.mkOsCommand 2147483647)
                          executor.reliable (server.mkCommandArgs ["false"] "")
                          executor.quiet)))
  = (-2147483648)%Z.
Proof.
  refine (proj1 (exec_advances_the_counter executor.system (server.mkOsCommand 2147483647)
                   executor.reliable (server.mkCommandArgs ["false"] "") executor.quiet _)).
  unfold events.inInt32. cbn. lia.
Defined.

(** X9 at work: the same command on a stream that delivers: its first
    line is sent before the started event. *)
Lemma output_is_forwarded_in_order_witness :
  exists final,
    events.newMessages executor.quiet
      (snd (server.exec events.eager (server.mkOsCommand 0) executor.reliable
              (server.mkCommandArgs ["cat"; "motd"] "/tmp") executor.quiet))
    = [server.ExecOutput server.STDOUT "hello" 1;
       server.ExecStarted ["cat"; "motd"] 1;
       server.ExecOutput server.STDERR "oops" 1;
       final]
    /\ filter server.isOutput
         (events.newMessages executor.quiet
            (snd (server.exec events.eager (server.mkOsCommand 0) executor.reliable
                    (server.mkCommandArgs ["cat"; "motd"] "/tmp") executor.quiet)))
       = [server.ExecOutput server.STDOUT "hello" 1;
          server.ExecOutput server.STDERR "oops" 1]
    /\ server.isCompleted final = true
    /\ (server.Success = server.Success ->
        final = server.ExecCompleted 1 0 None
        /\ fst (fst (server.exec events.eager (server.mkOsCommand 0) executor.reliable
                       (server.mkCommandArgs ["cat"; "motd"] "/tmp") executor.quiet))
           = server.Returned None).
Proof.
  refine (output_is_forwarded_in_order events.eager (server.mkOsCommand 0)
            executor.reliable (server.mkCommandArgs ["cat"; "motd"] "/tmp") "cat"
            ["motd"]
            (server.mkProcess [(server.STDOUT, "hello"); (server.STDERR, "oops")] 1
               server.Success)
            executor.quiet _ eq_refl eq_refl).
  intros h m Hm. reflexivity.
Defined.

(** ** ACL operator: fallbacks, delegation and system roles *)

Section Authorization.
Import trace acl wrapper authz.
Local Open Scope state_scope.
Context {B : Type} (SystemLabel True_ : string) (o : OperatorACL B).

Lemma newEvents_app (w w' : World B) (evs : list Event) :
  events w' = (events w ++ evs)%list -> newEvents w w' = evs.
Proof. intros H. unfold newEvents. rewrite H. apply skipn_new. Qed.

(** What roleActions does, by the first action that is refused. *)
Lemma roleActions_run (actions : list Verb) (w : World B) :
  (Forall (allowed (ossACL o)) actions
   /\ roleActions o actions w
      = (None, mkWorld (inner w) (events w ++ allowedChecks actions)))
  \/ (exists before v after e,
         actions = (before ++ v :: after)%list
         /\ Forall (allowed (ossACL o)) before
         /\ checkAction (ossACL o) KindRole v = Some e
         /\ roleActions o actions w
            = (Some (Wrap e),
               mkWorld (inner w)
                 (events w ++ allowedChecks before
                           ++ [Checked (AskAction KindRole v) (Some e)]))).
Proof.
  revert w; induction actions as [|v rest IH]; intros w.
  - left. split; [constructor|]. cbn. unfold ret. rewrite app_nil_r. now destruct w.
  - cbn [roleActions]. unfold bind, Action, check.
    destruct (checkAction (ossACL o) KindRole v) as [e|] eqn:E.
    + right. exists [], v, rest, e. repeat split; [constructor | exact E].
    + destruct (IH (mkWorld (inner w) (events w ++ [Checked (AskAction KindRole v) None])))
        as [[Hall Hrun] | [before [v' [after [e [Hsplit [Hall [Hv Hrun]]]]]]]].
      * left. split; [now constructor|]. rewrite Hrun. cbn [inner events allowedChecks map].
        now rewrite <- app_assoc.
      * right. exists (v :: before), v', after, e. subst rest.
        repeat split; [now constructor | exact Hv |].
        rewrite Hrun. cbn [inner events allowedChecks map]. now rewrite <- app_assoc.
Qed.

(** X10. roleActions asks for the actions in order and stops at the first
    one that is refused: it returns nil exactly when every action is
    allowed, having asked for each once; otherwise it returns the error of
    the first refused action, wrapped, and has not asked for any action
    after it.  It never calls the enterprise operator. *)
Theorem roleActions_stops_at_the_first_refusal (actions : list Verb) (w : World B) :
  (fst (roleActions o actions w) = None <-> Forall (allowed (ossACL o)) actions)
  /\ (fst (roleActions o actions w) = None ->
      newEvents w (snd (roleActions o actions w)) = allowedChecks actions)
  /\ (forall e',
         fst (roleActions o actions w) = Some e' ->
         exists before v after e,
           actions = (before ++ v :: after)%list
           /\ Forall (allowed (ossACL o)) before
           /\ checkAction (ossACL o) KindRole v = Some e
           /\ e' = Wrap e
           /\ newEvents w (snd (roleActions o actions w))
              = (allowedChecks before ++ [Checked (AskAction KindRole v) (Some e)])%list)
  /\ inner (snd (roleActions o actions w)) = inner w.
Proof.
  destruct (roleActions_run actions w)
    as [[Hall Hrun] | [before [v [after [e [Hsplit [Hall [Hv Hrun]]]]]]]]; rewrite Hrun;
    cbn [fst snd inner].
  - repeat split; try (intros; assumption); try discriminate.
    intros _. now apply newEvents_app.
  - repeat split; try discriminate.
    + intros Hf. exfalso. subst actions. apply Forall_app in Hf as [_ Hf].
      inversion Hf as [|? ? Hx _]. unfold allowed in Hx. congruence.
    + intros e' He'. injection He' as <-.
      exists before, v, after, e. repeat split; try assumption.
      now apply newEvents_app.
Qed.

Ltac run_method :=
  unfold run, newEvents,
    RegisterAgent, RequestClusterCopy, GetClusterEndpoints, UpdateClusterEndpoints,
    CheckForUpdate, DownloadUpdate, EnablePeriodicUpdates, DisablePeriodicUpdates,
    StartPeriodicUpdates, StopPeriodicUpdates, PeriodicUpdatesStatus,
    UpsertTrustedCluster, DeleteTrustedCluster, GetTrustedClusters, GetTrustedCluster,
    AcceptRemoteCluster, RemoveRemoteCluster, NewLicense, CheckSiteLicense, UpdateLicense,
    GetLicenseCA, UpsertRole, GetRole, GetRoles, DeleteRole,
    UpsertOIDCConnector, GetOIDCConnector, GetOIDCConnectors, DeleteOIDCConnector,
    UpsertSAMLConnector, GetSAMLConnector, GetSAMLConnectors, DeleteSAMLConnector,
    operatorRegisterAgent, operatorRequestClusterCopy, operatorGetClusterEndpoints,
    operatorUpdateClusterEndpoints, operatorCheckForUpdate, operatorDownloadUpdate,
    operatorEnablePeriodicUpdates, operatorDisablePeriodicUpdates,
    operatorStartPeriodicUpdates, operatorStopPeriodicUpdates,
    operatorPeriodicUpdatesStatus, operatorUpsertTrustedCluster,
    operatorDeleteTrustedCluster, operatorGetTrustedClusters, operatorGetTrustedCluster,
    operatorAcceptRemoteCluster, operatorRemoveRemoteCluster, operatorNewLicense,
    operatorCheckSiteLicense, operatorUpdateLicense, operatorGetLicenseCA,
    operatorUpsertRole, operatorGetRole, operatorGetRoles, operatorDeleteRole,
    operatorUpsertOIDCConnector, operatorGetOIDCConnector, operatorGetOIDCConnectors,
    operatorDeleteOIDCConnector, operatorUpsertSAMLConnector, operatorGetSAMLConnector,
    operatorGetSAMLConnectors, operatorDeleteSAMLConnector,
    roleActions, ClusterAction, Action, AuthConnectorActions, check, invoke, bind, ret;
  cbn [fst snd inner events];
  repeat match goal with
         | |- context [checkClusterAction ?a ?x ?y ?z] =>
             destruct (checkClusterAction a x y z); cbn [fst snd inner events]
         | |- context [checkAction ?a ?x ?y] =>
             destruct (checkAction a x y); cbn [fst snd inner events]
         | |- context [checkAuthConnectorActions ?a ?x ?y] =>
             destruct (checkAuthConnectorActions a x y); cbn [fst snd inner events]
         | |- context [let (_, _) := ?x in _] =>
             lazymatch x with
             | context [events] => fail
             | _ => destruct x as [? ?]; cbn [fst snd inner events errOf]
             end
         end;
  rewrite <- ?app_assoc, ?skipn_new; cbn [app].

(** X11. An authorized call is handed on once: when the last check a
    method makes is allowed, the enterprise operator is called exactly
    once, and it is the method of the same name.  When the first check, the
    cluster level one, is already allowed, no fallback check is made.
    (UpsertRole and DeleteRole, which do more after authorization, are
    left out here.) *)
Theorem authorized_calls_are_delegated_once (i : Invocation) (w : World B) :
  plain i = true ->
  lastAnswer (newEvents w (snd (run SystemLabel True_ o i w))) = Some None ->
  delegations (newEvents w (snd (run SystemLabel True_ o i w))) = [methodOf i]
  /\ (forall c,
         hd_error (newEvents w (snd (run SystemLabel True_ o i w))) = Some (Checked c None) ->
         newEvents w (snd (run SystemLabel True_ o i w))
         = [Checked c None; Delegated (methodOf i)]).
Proof.
  intros Hp Hl.
  destruct i; try discriminate Hp; revert Hl; run_method; cbn;
    intros Hl; try discriminate Hl;
    (split; [reflexivity | intros c Hc; first [discriminate Hc | injection Hc as <-; reflexivity]]).
Qed.

(** X12. A role that carries the system label cannot be created or
    updated through the wrapper: UpsertRole never calls the enterprise
    operator for it, whatever the authorizer allows, and returns an error;
    when authorization passes, the error is AccessDenied ("system roles
    can't be created"). *)
Theorem system_roles_cannot_be_upserted (ctx : ops.Context) (key : ops.SiteKey)
    (role : Role) (w : World B) :
  isSystemRole SystemLabel True_ role = true ->
  delegations (newEvents w (snd (UpsertRole SystemLabel True_ o ctx key role w))) = []
  /\ (exists e, fst (UpsertRole SystemLabel True_ o ctx key role w) = Some e)
  /\ (lastAnswer (newEvents w (snd (UpsertRole SystemLabel True_ o ctx key role w)))
      = Some None ->
      fst (UpsertRole SystemLabel True_ o ctx key role w)
      = Some (AccessDenied "system roles can't be created")).
Proof.
  unfold isSystemRole. intros Hsys.
  run_method; rewrite ?Hsys; cbn [fst snd inner events];
    rewrite <- ?app_assoc, ?skipn_new; cbn;
    repeat split; try (eexists; reflexivity); try discriminate; reflexivity.
Qed.

(** X13. DeleteRole looks the role up before deleting it, and deletes
    only a role that was found and does not carry the system label: the
    enterprise operator's DeleteRole is called only after authorization
    passed and GetRole returned such a role.  For a system role the answer
    is AccessDenied ("system roles can't be deleted"); when the lookup
    fails, its error is returned wrapped.  In both cases the lookup is the
    only call made. *)
Theorem only_plain_roles_are_deleted (ctx : ops.Context) (key : ops.SiteKey)
    (name : string) (w : World B) :
  (In mDeleteRole
      (delegations (newEvents w (snd (DeleteRole SystemLabel True_ o ctx key name w)))) ->
   lastAnswer (newEvents w (snd (DeleteRole SystemLabel True_ o ctx key name w))) = Some None
   /\ exists role,
       fst (implGetRole (operator o) key name (inner w)) = Ok role
       /\ isSystemRole SystemLabel True_ role = false)
  /\ (forall role,
         lastAnswer (newEvents w (snd (DeleteRole SystemLabel True_ o ctx key name w)))
         = Some None ->
         fst (implGetRole (operator o) key name (inner w)) = Ok role ->
         isSystemRole SystemLabel True_ role = true ->
         fst (DeleteRole SystemLabel True_ o ctx key name w)
         = Some (AccessDenied "system roles can't be deleted")
         /\ delegations (newEvents w (snd (DeleteRole SystemLabel True_ o ctx key name w)))
            = [mGetRole])
  /\ (forall e,
         lastAnswer (newEvents w (snd (DeleteRole SystemLabel True_ o ctx key name w)))
         = Some None ->
         fst (implGetRole (operator o) key name (inner w)) = Err e ->
         fst (DeleteRole SystemLabel True_ o ctx key name w) = Some (Wrap e)
         /\ delegations (newEvents w (snd (DeleteRole SystemLabel True_ o ctx key name w)))
            = [mGetRole]).
Proof.
  unfold isSystemRole.
  unfold newEvents, DeleteRole, operatorGetRole, operatorDeleteRole, roleActions,
    ClusterAction, Action, check, invoke, bind, ret.
  cbn [fst snd inner events].
  destruct (checkClusterAction (ossACL o) (ops.sk_SiteDomain key) KindCluster VerbUpdate);
    cbn [fst snd inner events];
    try destruct (checkAction (ossACL o) KindRole VerbDelete);
    cbn [fst snd inner events];
    try destruct (implGetRole (operator o) key name (inner w)) as [[role|eg] b1];
    cbn [fst snd inner events];
    try destruct (String.eqb (label role SystemLabel) True_) eqn:Hsys;
    cbn [fst snd inner events];
    try destruct (implDeleteRole (operator o) ctx key name b1) as [? ?];
    cbn [fst snd inner events];
    rewrite <- ?app_assoc, ?skipn_new; cbn;
    repeat split; intros;
    try discriminate; try contradiction; try reflexivity; try congruence;
    try (repeat match goal with H : _ \/ _ |- _ => destruct H end;
         first [congruence | contradiction | (eexists; split; [reflexivity | assumption])]).
Qed.

End Authorization.

(** X11 at work: listing roles under an authorizer that refuses the
    cluster action and allows the role actions. *)
Lemma authorized_calls_are_delegated_once_witness :
  wrapper.delegations
    (wrapper.newEvents wrapper.fresh
       (snd (acl.run "gravitational.io/system" "true"
               (acl.OperatorWithACL authz.rolesOnly wrapper.hollow)
               (acl.CallGetRoles authz.key0) wrapper.fresh)))
  = [acl.mGetRoles].
Proof.
  exact (proj1 (authorized_calls_are_delegated_once "gravitational.io/system" "true"
                  (acl.OperatorWithACL authz.rolesOnly wrapper.hollow)
                  (acl.CallGetRoles authz.key0) wrapper.fresh eq_refl eq_refl)).
Defined.

(** X12 at work: a system role, under an authorizer that allows
    everything. *)
Lemma system_roles_cannot_be_upserted_witness :
  wrapper.delegations
    (wrapper.newEvents wrapper.fresh
       (snd (acl.UpsertRole "gravitational.io/system" "true" authz.open
               (ops.mkContext 0) authz.key0 authz.systemRole wrapper.fresh)))
  = [].
Proof.
  exact (proj1 (system_roles_cannot_be_upserted "gravitational.io/system" "true" authz.open
                  (ops.mkContext 0) authz.key0 authz.systemRole wrapper.fresh eq_refl)).
Defined.

(** ** The system account *)

Section SystemAccount.
Import trace accounts upsert.
Local Open Scope state_scope.
Context {B : Type} (SystemAccountID SystemAccountOrg : string) (operator : Operator B).

Lemma firstOfOrg_none (org : string) (l : list Account) :
  existsb (ofOrg org) l = false -> firstOfOrg org l = None.
Proof.
  induction l as [|a l IH]; cbn; [reflexivity|].
  unfold ofOrg at 1. destruct (String.eqb (acc_Org a) org); cbn; [discriminate | exact IH].
Qed.

Lemma firstOfOrg_some (org : string) (l : list Account) :
  existsb (ofOrg org) l = true ->
  exists a, firstOfOrg org l = Some a /\ ofOrg org a = true.
Proof.
  induction l as [|a l IH]; cbn; [discriminate|].
  unfold ofOrg at 1. destruct (String.eqb (acc_Org a) org) eqn:E; cbn.
  - intros _. exists a. split; [reflexivity | exact E].
  - exact IH.
Qed.

Lemma firstOfOrg_first (org : string) (before after : list Account) (a : Account) :
  existsb (ofOrg org) before = false ->
  ofOrg org a = true ->
  firstOfOrg org (before ++ a :: after)%list = Some a.
Proof.
  intros Hb Ha. induction before as [|x before IH]; cbn in *.
  - unfold ofOrg in Ha. rewrite Ha. reflexivity.
  - unfold ofOrg at 1 in Hb. destruct (String.eqb (acc_Org x) org); cbn in Hb;
      [discriminate | exact (IH Hb)].
Qed.

Lemma firstOfOrg_found (org : string) (l : list Account) (a : Account) :
  firstOfOrg org l = Some a -> existsb (ofOrg org) l = true.
Proof.
  induction l as [|x l IH]; cbn; [discriminate|].
  unfold ofOrg at 1. destruct (String.eqb (acc_Org x) org); cbn; [reflexivity | exact IH].
Qed.

(** X14. UpsertSystemAccount lists the accounts once.  It asks for a new
    account only when the listing succeeded and holds no account of the
    system organization; it then asks once, with the system account id and
    organization, and returns what CreateAccount answered, an error
    wrapped.  When the listing fails, its error is returned wrapped. *)
Theorem system_account_is_created_only_when_missing (w : World B) :
  match fst (implGetAccounts operator (backend w)) with
  | Ok l =>
      if existsb (ofOrg SystemAccountOrg) l
      then newCalls w (snd (UpsertSystemAccount SystemAccountID SystemAccountOrg operator w))
           = [CallGetAccounts]
      else newCalls w (snd (UpsertSystemAccount SystemAccountID SystemAccountOrg operator w))
           = [CallGetAccounts;
              CallCreateAccount (mkNewAccountRequest SystemAccountID SystemAccountOrg)]
           /\ fst (UpsertSystemAccount SystemAccountID SystemAccountOrg operator w)
              = match fst (implCreateAccount operator
                             (mkNewAccountRequest SystemAccountID SystemAccountOrg)
                             (snd (implGetAccounts operator (backend w)))) with
                | Ok account => Ok account
                | Err err => Err (Wrap err)
                end
  | Err err =>
      newCalls w (snd (UpsertSystemAccount SystemAccountID SystemAccountOrg operator w))
      = [CallGetAccounts]
      /\ fst (UpsertSystemAccount SystemAccountID SystemAccountOrg operator w)
         = Err (Wrap err)
  end.
Proof.
  unfold UpsertSystemAccount, GetAccounts, CreateAccount, invoke, bind, ret, newCalls.
  destruct (implGetAccounts operator (backend w)) as [[l|err] b1]; cbn [fst snd backend calls].
  - destruct (existsb (ofOrg SystemAccountOrg) l) eqn:E.
    + destruct (firstOfOrg_some _ _ E) as [a [Ha _]]. rewrite Ha.
      cbn [fst snd backend calls]. apply skipn_new.
    + rewrite (firstOfOrg_none _ _ E). cbn [fst snd backend calls].
      destruct (implCreateAccount operator _ b1) as [[a|e] b2]; cbn [fst snd backend calls];
        rewrite <- app_assoc, skipn_new; split; reflexivity.
  - split; [apply skipn_new | reflexivity].
Qed.

(** X15. When the listing holds accounts of the system organization,
    UpsertSystemAccount returns the first of them, in the order of the
    listing, and leaves the backend as the listing left it. *)
Theorem first_listed_system_account_is_returned (w : World B)
    (before after : list Account) (a : Account) (b1 : B) :
  implGetAccounts operator (backend w) = (Ok (before ++ a :: after)%list, b1) ->
  existsb (ofOrg SystemAccountOrg) before = false ->
  ofOrg SystemAccountOrg a = true ->
  fst (UpsertSystemAccount SystemAccountID SystemAccountOrg operator w) = Ok a
  /\ backend (snd (UpsertSystemAccount SystemAccountID SystemAccountOrg operator w)) = b1.
Proof.
  intros Hl Hb Ha.
  unfold UpsertSystemAccount, GetAccounts, invoke, bind, ret.
  rewrite Hl. cbn [fst snd backend calls].
  rewrite (firstOfOrg_first _ _ _ _ Hb Ha). split; reflexivity.
Qed.

(** X16. Over a store whose listing is stable and shows the accounts it
    created, upserting is idempotent: after one successful
    UpsertSystemAccount, another one finds an account of the system
    organization and does not ask for a new one. *)
Theorem second_upsert_creates_nothing (w : World B) (a : Account) :
  listingIsStable operator ->
  listsWhatItCreates operator ->
  fst (UpsertSystemAccount SystemAccountID SystemAccountOrg operator w) = Ok a ->
  exists a',
    fst (UpsertSystemAccount SystemAccountID SystemAccountOrg operator
           (snd (UpsertSystemAccount SystemAccountID SystemAccountOrg operator w)))
    = Ok a'
    /\ acc_Org a' = SystemAccountOrg
    /\ newCalls (snd (UpsertSystemAccount SystemAccountID SystemAccountOrg operator w))
         (snd (UpsertSystemAccount SystemAccountID SystemAccountOrg operator
                 (snd (UpsertSystemAccount SystemAccountID SystemAccountOrg operator w))))
       = [CallGetAccounts].
Proof.
  intros Hstable Hlists.
  assert (Hagain : forall (w1 : World B) l b2,
             implGetAccounts operator (backend w1) = (Ok l, b2) ->
             existsb (ofOrg SystemAccountOrg) l = true ->
             exists a',
               fst (UpsertSystemAccount SystemAccountID SystemAccountOrg operator w1) = Ok a'
               /\ acc_Org a' = SystemAccountOrg
               /\ newCalls w1
                    (snd (UpsertSystemAccount SystemAccountID SystemAccountOrg operator w1))
                  = [CallGetAccounts]).
  { intros w1 l b2 Hl He.
    destruct (firstOfOrg_some _ _ He) as [a' [Hf Ho]].
    exists a'. unfold UpsertSystemAccount, GetAccounts, invoke, bind, ret, newCalls.
    rewrite Hl. cbn [fst snd backend calls]. rewrite Hf. cbn [fst snd backend calls].
    repeat split; [apply String.eqb_eq; exact Ho | apply skipn_new]. }
  assert (Hfirst :
            fst (UpsertSystemAccount SystemAccountID SystemAccountOrg operator w) = Ok a ->
            exists l b2,
              implGetAccounts operator
                (backend (snd (UpsertSystemAccount SystemAccountID SystemAccountOrg
                                 operator w)))
              = (Ok l, b2)
              /\ existsb (ofOrg SystemAccountOrg) l = true).
  { unfold UpsertSystemAccount, GetAccounts, CreateAccount, invoke, bind, ret.
    destruct (implGetAccounts operator (backend w)) as [[l|err] b1] eqn:Hl;
      cbn [fst snd backend calls]; [|discriminate].
    destruct (firstOfOrg SystemAccountOrg l) as [x|] eqn:Hf; cbn [fst snd backend calls].
    - intros _. destruct (Hstable _ _ _ Hl) as [b2 Hl2].
      exists l, b2. split; [exact Hl2 | exact (firstOfOrg_found _ _ _ Hf)].
    - destruct (implCreateAccount operator _ b1) as [[x|e] b2] eqn:Hc;
        cbn [fst snd backend calls]; [|discriminate].
      intros _. destruct (Hlists _ _ _ _ Hc) as [l2 [b3 [Hl2 He]]].
      exists l2, b3. split; [exact Hl2 | exact He]. }
  intros H. destruct (Hfirst H) as [l [b2 [Hl2 He]]].
  exact (Hagain _ l b2 Hl2 He).
Qed.

End SystemAccount.

Lemma memory_listingIsStable : upsert.listingIsStable upsert.memory.
Proof.
  intros b l b1 H. cbn in H. injection H as <- <-. exists b. reflexivity.
Qed.

Lemma memory_listsWhatItCreates : upsert.listsWhatItCreates upsert.memory.
Proof.
  intros r b a b' H. cbn in H. injection H as <- <-.
  exists (b ++ [accounts.mkAccount (accounts.nar_ID r) (accounts.nar_Org r)])%list.
  eexists. split; [reflexivity|].
  rewrite existsb_app. apply orb_true_iff. right.
  cbn. unfold upsert.ofOrg. cbn. rewrite String.eqb_refl. reflexivity.
Qed.

(** X15 at work: a store with a guest account and two system accounts. *)
Lemma first_listed_system_account_is_returned_witness :
  fst (accounts.UpsertSystemAccount "1" "gravitational.io" upsert.memory
         (accounts.mkWorld [upsert.guest; upsert.system2; upsert.system1] []))
  = trace.Ok upsert.system2.
Proof.
  exact (proj1 (first_listed_system_account_is_returned "1" "gravitational.io" upsert.memory
                  (accounts.mkWorld [upsert.guest; upsert.system2; upsert.system1] [])
                  [upsert.guest] [upsert.system1] upsert.system2
                  [upsert.guest; upsert.system2; upsert.system1]
                  eq_refl eq_refl eq_refl)).
Defined.

(** X16 at work: a store that holds a guest account only. *)
Lemma second_upsert_creates_nothing_witness :
  exists a',
    fst (accounts.UpsertSystemAccount "1" "gravitational.io" upsert.memory
           (snd (accounts.UpsertSystemAccount "1" "gravitational.io" upsert.memory
                   (accounts.mkWorld [upsert.guest] []))))
    = trace.Ok a'
    /\ accounts.acc_Org a' = "gravitational.io"
    /\ upsert.newCalls
         (snd (accounts.UpsertSystemAccount "1" "gravitational.io" upsert.memory
                 (accounts.mkWorld [upsert.guest] [])))
         (snd (accounts.UpsertSystemAccount "1" "gravitational.io" upsert.memory
                 (snd (accounts.UpsertSystemAccount "1" "gravitational.io" upsert.memory
                         (accounts.mkWorld [upsert.guest] [])))))
       = [accounts.CallGetAccounts].
Proof.
  exact (second_upsert_creates_nothing "1" "gravitational.io" upsert.memory
           (accounts.mkWorld [upsert.guest] []) upsert.system1
           memory_listingIsStable memory_listsWhatItCreates eq_refl).
Defined.

(** ** The expand operation *)

Section ExpandOperation.
Import trace expand growth.
Local Open Scope state_scope.
Context {B : Type} (SystemAccountID OperationExpand : string) (backend : Backend B).

Lemma firstOfType_none (t : string) (l : list ops.SiteOperation) :
  existsb (ofType t) l = false -> firstOfType t l = None.
Proof.
  induction l as [|x l IH]; cbn; [reflexivity|].
  unfold ofType at 1. destruct (String.eqb (ops.op_Type x) t); cbn; [discriminate | exact IH].
Qed.

Lemma firstOfType_first (t : string) (before after : list ops.SiteOperation)
    (x : ops.SiteOperation) :
  existsb (ofType t) before = false ->
  ofType t x = true ->
  firstOfType t (before ++ x :: after)%list = Some x.
Proof.
  intros Hb Hx. induction before as [|y before IH]; cbn in *.
  - unfold ofType in Hx. rewrite Hx. reflexivity.
  - unfold ofType at 1 in Hb. destruct (String.eqb (ops.op_Type y) t); cbn in Hb;
      [discriminate | exact (IH Hb)].
Qed.

(** X17. GetExpandOperation lists the operations of the local cluster's
    domain and returns the first expand operation in the backend's order,
    whatever its state or creation time; when the listing holds no expand
    operation the answer is NotFound ("expand operation not found"). *)
Theorem expand_operation_is_the_first_of_its_type (b b1 b2 : B) (cluster : ops.Site)
    (operations : list ops.SiteOperation) :
  implGetLocalSite backend SystemAccountID b = (Ok cluster, b1) ->
  implGetSiteOperations backend (ops.site_Domain cluster) b1 = (Ok operations, b2) ->
  (forall before operation after,
      operations = (before ++ operation :: after)%list ->
      existsb (ofType OperationExpand) before = false ->
      ofType OperationExpand operation = true ->
      fst (GetExpandOperation SystemAccountID OperationExpand backend b) = Ok operation)
  /\ (existsb (ofType OperationExpand) operations = false ->
      fst (GetExpandOperation SystemAccountID OperationExpand backend b)
      = Err (NotFound "expand operation not found")).
Proof.
  intros Hc Ho.
  unfold GetExpandOperation, bind, ret. rewrite Hc, Ho. split.
  - intros before operation after -> Hb Hx.
    rewrite (firstOfType_first _ _ _ _ Hb Hx). reflexivity.
  - intros Hn. rewrite (firstOfType_none _ _ Hn). reflexivity.
Qed.

(** X18. A NotFound answer of GetExpandOperation does not say what is
    missing.  An error of GetLocalSite or of GetSiteOperations is passed on
    wrapped, its kind kept, so that a missing cluster is answered with
    NotFound just as a listing without expand operation is; and a NotFound
    answer has one of these three origins, no other. *)
Theorem expand_not_found_has_three_origins (b : B) :
  (forall err,
      fst (implGetLocalSite backend SystemAccountID b) = Err err ->
      fst (GetExpandOperation SystemAccountID OperationExpand backend b) = Err (Wrap err)
      /\ IsNotFound (Wrap err) = IsNotFound err)
  /\ (forall cluster err,
         fst (implGetLocalSite backend SystemAccountID b) = Ok cluster ->
         fst (implGetSiteOperations backend (ops.site_Domain cluster)
                (snd (implGetLocalSite backend SystemAccountID b))) = Err err ->
         fst (GetExpandOperation SystemAccountID OperationExpand backend b) = Err (Wrap err)
         /\ IsNotFound (Wrap err) = IsNotFound err)
  /\ (forall cluster operations,
         fst (implGetLocalSite backend SystemAccountID b) = Ok cluster ->
         fst (implGetSiteOperations backend (ops.site_Domain cluster)
                (snd (implGetLocalSite backend SystemAccountID b))) = Ok operations ->
         existsb (ofType OperationExpand) operations = false ->
         fst (GetExpandOperation SystemAccountID OperationExpand backend b)
         = Err (NotFound "expand operation not found")
         /\ IsNotFound (NotFound "expand operation not found") = true)
  /\ (forall e,
         fst (GetExpandOperation SystemAccountID OperationExpand backend b) = Err e ->
         IsNotFound e = true ->
         (exists err,
             fst (implGetLocalSite backend SystemAccountID b) = Err err
             /\ IsNotFound err = true /\ e = Wrap err)
         \/ (exists cluster err,
                fst (implGetLocalSite backend SystemAccountID b) = Ok cluster
                /\ fst (implGetSiteOperations backend (ops.site_Domain cluster)
                          (snd (implGetLocalSite backend SystemAccountID b))) = Err err
                /\ IsNotFound err = true /\ e = Wrap err)
         \/ (exists cluster operations,
                fst (implGetLocalSite backend SystemAccountID b) = Ok cluster
                /\ fst (implGetSiteOperations backend (ops.site_Domain cluster)
                          (snd (implGetLocalSite backend SystemAccountID b)))
                   = Ok operations
                /\ existsb (ofType OperationExpand) operations = false
                /\ e = NotFound "expand operation not found")).
Proof.
  assert (Hw : forall err, IsNotFound (Wrap err) = IsNotFound err).
  { intros err. unfold IsNotFound, kindOf. rewrite Unwrap_Wrap. reflexivity. }
  assert (Hx : forall l, firstOfType OperationExpand l = None ->
                         existsb (ofType OperationExpand) l = false).
  { induction l as [|y l IH]; cbn; [reflexivity|].
    unfold ofType at 1. destruct (String.eqb (ops.op_Type y) OperationExpand);
      cbn; [discriminate | exact IH]. }
  unfold GetExpandOperation, bind, ret.
  destruct (implGetLocalSite backend SystemAccountID b) as [[cluster|err] b1] eqn:Hc;
    cbn [fst snd].
  - split; [discriminate|]. split; [|split].
    + intros cluster' err Hcl Ho. injection Hcl as <-.
      destruct (implGetSiteOperations backend (ops.site_Domain cluster) b1) as [r b2].
      cbn [fst] in Ho. subst r. split; [reflexivity | apply Hw].
    + intros cluster' operations Hcl Ho Hn. injection Hcl as <-.
      destruct (implGetSiteOperations backend (ops.site_Domain cluster) b1) as [r b2].
      cbn [fst] in Ho. subst r. rewrite (firstOfType_none _ _ Hn).
      split; reflexivity.
    + intros e.
      destruct (implGetSiteOperations backend (ops.site_Domain cluster) b1)
        as [[operations|err] b2] eqn:Ho; cbn [fst snd].
      * destruct (firstOfType OperationExpand operations) as [x|] eqn:Hf; cbn [fst snd].
        -- discriminate.
        -- intros H _. injection H as <-. right. right.
           exists cluster, operations. rewrite Ho. cbn [fst].
           repeat split. exact (Hx _ Hf).
      * intros H Hn. injection H as <-. right. left.
        exists cluster, err. rewrite Ho, Hw in *. cbn [fst]. repeat split. exact Hn.
  - split; [|split; [|split]]; try discriminate.
    + intros err' H. injection H as <-. split; [reflexivity | apply Hw].
    + intros e H Hn. injection H as <-. left.
      exists err. rewrite Hw in Hn. repeat split. exact Hn.
Qed.

End ExpandOperation.

(** X17 at work: an older, failed expand operation listed before a newer,
    completed one. *)
Lemma expand_operation_is_the_first_of_its_type_witness :
  fst (expand.GetExpandOperation "system" "operation_expand"
         (growth.single growth.cluster1
            [accessor.op1; growth.expandOld; growth.expandNew]) tt)
  = trace.Ok growth.expandOld.
Proof.
  exact (proj1 (expand_operation_is_the_first_of_its_type "system" "operation_expand"
                  (growth.single growth.cluster1
                     [accessor.op1; growth.expandOld; growth.expandNew])
                  tt tt tt growth.cluster1
                  [accessor.op1; growth.expandOld; growth.expandNew] eq_refl eq_refl)
           [accessor.op1] growth.expandOld [growth.expandNew] eq_refl eq_refl eq_refl).
Defined.

(** X18 at work: a backend without a local cluster. *)
Lemma expand_not_found_has_three_origins_witness :
  fst (expand.GetExpandOperation "system" "operation_expand" growth.vacant tt)
  = trace.Err (trace.Wrap (trace.NotFound "no local cluster"))
  /\ trace.IsNotFound (trace.Wrap (trace.NotFound "no local cluster")) = true.
Proof.
  exact (proj1 (expand_not_found_has_three_origins "system" "operation_expand"
                  growth.vacant tt)
           (trace.NotFound "no local cluster") eq_refl).
Defined.

(** ** The values of a context *)

Section ContextValues.
Import ctxvalues attachments.
Context {OperatorT WebSessionT : Type}.

Lemma attachAll_last (ctx : Context OperatorT WebSessionT)
    (l : list (Attachment OperatorT WebSessionT)) (a : Attachment OperatorT WebSessionT) :
  attachAll ctx (l ++ [a]) = attach (attachAll ctx l) a.
Proof. unfold attachAll. rewrite fold_left_app. reflexivity. Qed.

(** X19. What the readers of a context return after any number of
    attachments: the user, operator or web session attached last by
    NewUserContext, NewOperatorContext or NewSessionContext, and what the
    context held before when there is none.  Attachments of the other two
    kinds and values of other packages' keys never change a reader's
    answer; a nil operator or session that was attached last is read back
    as nil. *)
Theorem context_readers_see_the_last_attachment (ctx : Context OperatorT WebSessionT)
    (l : list (Attachment OperatorT WebSessionT)) :
  UserFromContext (attachAll ctx l)
  = match lastUser l with
    | Some user => user
    | None => UserFromContext ctx
    end
  /\ OperatorFromContext (attachAll ctx l)
     = match lastOperator l with
       | Some operator => operator
       | None => OperatorFromContext ctx
       end
  /\ SessionFromContext (attachAll ctx l)
     = match lastSession l with
       | Some session => session
       | None => SessionFromContext ctx
       end.
Proof.
  induction l as [|a l [IHu [IHo IHs]]] using rev_ind.
  - repeat split.
  - rewrite attachAll_last. unfold lastUser, lastOperator, lastSession.
    rewrite !fold_left_app. cbn [fold_left].
    fold (lastUser l). fold (lastOperator l). fold (lastSession l).
    destruct a as [user|[operator|]|[session|]|name val];
      repeat split; try assumption; reflexivity.
Qed.

End ContextValues.

(** ** Chart file names and chart values *)

Section Splitting.
Import gostrings charts.

Lemma string_append_assoc (a b c : string) : (a ++ b) ++ c = a ++ b ++ c.
Proof. induction a as [|x a IH]; cbn; [reflexivity | rewrite IH; reflexivity]. Qed.

Lemma cutPrefix_self (p r : list ascii) : strings.cutPrefix p (p ++ r) = Some r.
Proof.
  induction p as [|x p IH]; cbn; [destruct r; reflexivity|].
  rewrite Ascii.eqb_refl. exact IH.
Qed.

Lemma TrimSuffix_app (s suffix : string) : TrimSuffix (s ++ suffix) suffix = s.
Proof.
  unfold TrimSuffix. rewrite list_ascii_of_string_app, rev_app_distr, cutPrefix_self.
  rewrite rev_involutive. apply string_of_list_ascii_of_string.
Qed.

(** One step of splitting at a separator of one byte. *)
Lemma splitFrom_step (c x : ascii) (cur s : list ascii) :
  splitFrom [c] 0 cur (x :: s)
  = if Ascii.eqb c x then rev cur :: splitFrom [c] 0 [] s
    else splitFrom [c] 0 (x :: cur) s.
Proof.
  cbn [splitFrom strings.cutPrefix List.length Nat.sub].
  destruct (Ascii.eqb c x); [destruct s|]; reflexivity.
Qed.

Lemma splitFrom_free (c : ascii) (cur s : list ascii) :
  existsb (Ascii.eqb c) s = false ->
  splitFrom [c] 0 cur s = [(rev cur ++ s)%list].
Proof.
  revert cur. induction s as [|x s IH]; intros cur H.
  - cbn. rewrite app_nil_r. reflexivity.
  - rewrite splitFrom_step. cbn [existsb] in H. apply orb_false_iff in H as [Hx Hs].
    rewrite Hx, (IH _ Hs). cbn [rev]. rewrite <- app_assoc. reflexivity.
Qed.

Lemma splitFrom_head (c : ascii) (cur a rest : list ascii) :
  existsb (Ascii.eqb c) a = false ->
  splitFrom [c] 0 cur (a ++ c :: rest)
  = (rev cur ++ a)%list :: splitFrom [c] 0 [] rest.
Proof.
  revert cur. induction a as [|x a IH]; intros cur H.
  - cbn [app]. rewrite splitFrom_step, Ascii.eqb_refl, app_nil_r. reflexivity.
  - cbn [app]. rewrite splitFrom_step. cbn [existsb] in H.
    apply orb_false_iff in H as [Hx Ha].
    rewrite Hx, (IH _ Ha). cbn [rev]. rewrite <- app_assoc. reflexivity.
Qed.

Lemma splitFrom_last (c : ascii) (cur a l : list ascii) :
  existsb (Ascii.eqb c) l = false ->
  splitFrom [c] 0 cur (a ++ c :: l) = (splitFrom [c] 0 cur a ++ [l])%list.
Proof.
  intros H. revert cur. induction a as [|x a IH]; intros cur.
  - cbn [app]. rewrite splitFrom_step, Ascii.eqb_refl, (splitFrom_free _ _ _ H).
    reflexivity.
  - cbn [app]. rewrite !splitFrom_step. destruct (Ascii.eqb c x); rewrite IH; reflexivity.
Qed.

Lemma splitFrom_length (c : ascii) (cur s : list ascii) :
  List.length (splitFrom [c] 0 cur s) = S (List.length (filter (Ascii.eqb c) s)).
Proof.
  revert cur. induction s as [|x s IH]; intros cur; [reflexivity|].
  rewrite splitFrom_step. cbn [filter].
  destruct (Ascii.eqb c x); cbn [List.length]; rewrite IH; reflexivity.
Qed.

Lemma Join_cons (e : string) (rest : list string) (sep : string) :
  rest <> [] -> Join (e :: rest) sep = e ++ sep ++ Join rest sep.
Proof. destruct rest; [congruence | reflexivity]. Qed.

Lemma Join_splitFrom (c : ascii) (cur s : list ascii) :
  Join (map string_of_list_ascii (splitFrom [c] 0 cur s)) (String c "")
  = string_of_list_ascii (rev cur ++ s).
Proof.
  revert cur. induction s as [|x s IH]; intros cur.
  - cbn. rewrite app_nil_r. reflexivity.
  - rewrite splitFrom_step. destruct (Ascii.eqb c x) eqn:E.
    + apply Ascii.eqb_eq in E. subst x. cbn [map]. rewrite Join_cons.
      * rewrite IH. cbn [rev app]. rewrite string_of_list_ascii_app. reflexivity.
      * intros Hn. apply (f_equal (@List.length _)) in Hn.
        rewrite length_map, splitFrom_length in Hn. discriminate Hn.
    + rewrite IH. cbn [rev]. rewrite <- app_assoc. reflexivity.
Qed.

Lemma free_false_filter (c : ascii) (s : list ascii) :
  existsb (Ascii.eqb c) s = false <-> filter (Ascii.eqb c) s = [].
Proof.
  induction s as [|x s IH]; cbn; [tauto|].
  destruct (Ascii.eqb c x); cbn; [split; discriminate | exact IH].
Qed.

End Splitting.

Section Charts.
Import trace gostrings helm charts.

(** X20. ParseChartFilename cuts a chart file name at its last hyphen.
    So it gives back the name and version that ToChartFilename was given
    when the version holds no hyphen, whatever the name; and for a version
    [v1-v2] it returns the name [name-v1] and the version [v2]. *)
Theorem chart_filename_is_cut_at_the_last_hyphen (name version : string) :
  free "-" version = true ->
  ParseChartFilename (ToChartFilename name version) = Ok (name, version)
  /\ forall v1,
       ParseChartFilename (ToChartFilename name (v1 ++ "-" ++ version))
       = Ok (name ++ "-" ++ v1, version).
Proof.
  intros Hfree.
  assert (Hcut : forall n, ParseChartFilename (ToChartFilename n version) = Ok (n, version)).
  { intros n. unfold ParseChartFilename, ToChartFilename.
    change (list_ascii_of_string "-") with ["-"%char].
    replace (n ++ "-" ++ version ++ ".tgz") with ((n ++ "-" ++ version) ++ ".tgz")
      by (rewrite !string_append_assoc; reflexivity).
    rewrite TrimSuffix_app. unfold Split.
    change (list_ascii_of_string "-") with ["-"%char].
    rewrite list_ascii_of_string_app.
    change (list_ascii_of_string ("-" ++ version))
      with ("-"%char :: list_ascii_of_string version).
    unfold free in Hfree. apply negb_true_iff in Hfree.
    rewrite (splitFrom_last _ _ _ _ Hfree), map_app. cbn [map].
    rewrite length_app, length_map, splitFrom_length. cbn [List.length].
    rewrite Nat.add_comm. cbn [Nat.add Nat.ltb Nat.leb].
    rewrite removelast_last, last_last, string_of_list_ascii_of_string.
    rewrite (Join_splitFrom "-" [] (list_ascii_of_string n)). cbn [rev app].
    rewrite string_of_list_ascii_of_string. reflexivity. }
  split; [apply Hcut|].
  intros v1.
  replace (ToChartFilename name (v1 ++ "-" ++ version))
    with (ToChartFilename (name ++ "-" ++ v1) version).
  - apply Hcut.
  - unfold ToChartFilename. rewrite !string_append_assoc. reflexivity.
Qed.

(** X21. ParseChartFilename rejects a file name with BadParameter
    exactly when the name, its [.tgz] suffix taken off, holds no hyphen;
    the message quotes the file name as it was given. *)
Theorem chart_filename_without_hyphen_is_rejected (filename : string) :
  (free "-" (TrimSuffix filename ".tgz") = true ->
   ParseChartFilename filename = Err (BadParameter ("bad chart filename: " ++ filename)))
  /\ (free "-" (TrimSuffix filename ".tgz") = false ->
      exists name version, ParseChartFilename filename = Ok (name, version)).
Proof.
  unfold ParseChartFilename, Split, free.
  change (list_ascii_of_string "-") with ["-"%char].
  rewrite length_map, (splitFrom_length "-").
  destruct (existsb (Ascii.eqb "-") (list_ascii_of_string (TrimSuffix filename ".tgz")))
    eqn:E; cbn [negb]; split; intros H; try discriminate H.
  - destruct (filter (Ascii.eqb "-") (list_ascii_of_string (TrimSuffix filename ".tgz")))
      as [|x l] eqn:F.
    + apply free_false_filter in F. congruence.
    + cbn. eexists. eexists. reflexivity.
  - apply free_false_filter in E. rewrite E. reflexivity.
Qed.

Lemma hasVar_nil_or (n : string) (rest : list string) (vals : string -> option Value) :
  hasVar (n :: rest) vals
  = match vals n with
    | None => false
    | Some v =>
        match rest with
        | [] => true
        | _ :: _ => match v with Values m => hasVar rest m | Scalar _ => false end
        end
    end.
Proof. reflexivity. Qed.

(** X22. hasVar is closed under prefixes: when a path of names leads to a
    variable, so does every path it starts with. *)
Theorem hasVar_holds_for_every_prefix (p q : list string) (vals : string -> option Value) :
  hasVar (p ++ q) vals = true -> hasVar p vals = true.
Proof.
  revert vals. induction p as [|n p IH]; intros vals H; [reflexivity|].
  cbn [app] in H. rewrite hasVar_nil_or in *.
  destruct (vals n) as [v|]; [|discriminate H].
  destruct p as [|n' p]; [reflexivity|].
  cbn [app] in H. destruct v as [s|m]; [discriminate H|].
  apply IH. exact H.
Qed.

(** X23. HasVar follows the dots of a name, one map for each part: a
    name without a dot is a variable exactly when it is a key of the
    values, the empty name included; a name [a.rest] is one exactly when
    [a] is the key of a nested map in which [rest] is a variable. *)
Theorem HasVar_descends_one_map_per_part (a : string) (vals : string -> option Value) :
  free "." a = true ->
  HasVar a (Ok vals) = Ok (isSome (vals a))
  /\ forall rest,
       HasVar (a ++ "." ++ rest) (Ok vals)
       = match vals a with
         | Some (Values m) => HasVar rest (Ok m)
         | _ => Ok false
         end.
Proof.
  intros Hfree. unfold free in Hfree. apply negb_true_iff in Hfree.
  unfold HasVar, Split. change (list_ascii_of_string ".") with ["."%char]. split.
  - rewrite (splitFrom_free _ _ _ Hfree). cbn [rev app map].
    rewrite string_of_list_ascii_of_string. cbn [hasVar].
    destruct (vals a); reflexivity.
  - intros rest. rewrite list_ascii_of_string_app.
    change (list_ascii_of_string ("." ++ rest))
      with ("."%char :: list_ascii_of_string rest).
    rewrite (splitFrom_head _ _ _ _ Hfree). cbn [rev app map].
    rewrite string_of_list_ascii_of_string, hasVar_nil_or.
    destruct (map string_of_list_ascii
                (splitFrom ["."%char] 0 [] (list_ascii_of_string rest))) as [|x l] eqn:Hm.
    + apply (f_equal (@List.length _)) in Hm.
      rewrite length_map, splitFrom_length in Hm. discriminate Hm.
    + destruct (vals a) as [[s|m]|]; reflexivity.
Qed.

End Charts.

(** X20 at work: a chart of a release version. *)
Lemma chart_filename_is_cut_at_the_last_hyphen_witness :
  helm.ParseChartFilename (helm.ToChartFilename "my-app" "1.0.0")
  = trace.Ok ("my-app", "1.0.0").
Proof.
  exact (proj1 (chart_filename_is_cut_at_the_last_hyphen "my-app" "1.0.0" eq_refl)).
Defined.

(** X22 at work: the path [image.tag] in the sample values. *)
Lemma hasVar_holds_for_every_prefix_witness :
  helm.hasVar ["image"] charts.sample = true.
Proof.
  exact (hasVar_holds_for_every_prefix ["image"] ["tag"] charts.sample eq_refl).
Defined.

(** X23 at work: the name [image.tag] in the sample values. *)
Lemma HasVar_descends_one_map_per_part_witness :
  helm.HasVar "image" (trace.Ok charts.sample) = trace.Ok true.
Proof.
  exact (proj1 (HasVar_descends_one_map_per_part "image" charts.sample eq_refl)).
Defined.

(** ** An operation with its progress *)

Section OperationWithProgress.
Import trace ops controller.
Local Open Scope state_scope.
Context {B : Type} (operator : Operator B).

(** X24. GetOperationWithProgress reads the operation first and the
    progress only of an operation that was found, both under the key it
    was given (the key of the operation returned is not consulted); no
    other method is invoked.  It returns the two answers as a pair, and
    the error of the read that failed, wrapped. *)
Theorem progress_is_read_only_for_a_found_operation (opKey : SiteOperationKey)
    (w : World B) :
  match fst (implGetSiteOperation operator opKey (backend w)) with
  | Err err =>
      newCalls w (snd (GetOperationWithProgress operator opKey w))
      = [CallGetSiteOperation opKey]
      /\ fst (GetOperationWithProgress operator opKey w) = Err (Wrap err)
  | Ok operation =>
      newCalls w (snd (GetOperationWithProgress operator opKey w))
      = [CallGetSiteOperation opKey; CallGetSiteOperationProgress opKey]
      /\ fst (GetOperationWithProgress operator opKey w)
         = match fst (implGetSiteOperationProgress operator opKey
                        (snd (implGetSiteOperation operator opKey (backend w)))) with
           | Ok progress => Ok (operation, progress)
           | Err err => Err (Wrap err)
           end
  end.
Proof.
  unfold GetOperationWithProgress, GetSiteOperation, GetSiteOperationProgress, invoke,
    bind, ret, newCalls.
  destruct (implGetSiteOperation operator opKey (backend w)) as [[operation|err] b1];
    cbn [fst snd backend calls clockReads].
  - destruct (implGetSiteOperationProgress operator opKey b1) as [[progress|err] b2];
      cbn [fst snd backend calls clockReads];
      rewrite <- app_assoc, skipn_new; split; reflexivity.
  - rewrite skipn_new. split; reflexivity.
Qed.

End OperationWithProgress.
